(** * Kern scale interface: Web Serial transport, line framing, reading parser,
    recorder and the application's reading handler.

    A shallow embedding of
      - js/serial.js      (class WebSerialTransport),
      - js/recorder.js    (class Recorder),
      - js/chart-manager.js (class ChartManager, the data side),
      - js/main.js        (the 'reading' listener of wireConnection),
      - js/ui.js          (updateReadout, updateStats),
    and the properties of the design document that concern them.  Strings are
    sequences of UTF-16 code units, numbers are binary64, the regular
    expression of the parser runs on a backtracking matcher, and the browser
    (serial port, text codec, clock, number formatting) is a parameter. *)

From Stdlib Require Import List NArith ZArith Bool String Ascii Lia SpecFloat.
Import ListNotations.

(* ================================================================== *)
(** ** JavaScript strings *)
(* ================================================================== *)

(** A JavaScript string is a sequence of UTF-16 code units. *)
Module JsString.

Definition codeunit := N.
Definition jsstring := list codeunit.

(** An ASCII literal of the source text, as code units. *)
Definition lit (s : string) : jsstring :=
  map N_of_ascii (list_ascii_of_string s).

Local Open Scope N_scope.

Definition LF : codeunit := 10.
Definition CR : codeunit := 13.
Definition MINUS : codeunit := 45.
Definition DOT : codeunit := 46.

(** [\d] of a regular expression without the [u] flag: the ten ASCII digits. *)
Definition is_digit (c : codeunit) : bool := (48 <=? c) && (c <=? 57).

(** [\s] of a regular expression, which is also what [String.prototype.trim]
    strips: WhiteSpace and LineTerminator of ECMA-262. *)
Definition is_space (c : codeunit) : bool :=
  ((9 <=? c) && (c <=? 13))            (* TAB LF VT FF CR *)
  || (c =? 32) || (c =? 160)           (* SP, NBSP *)
  || (c =? 5760)                       (* U+1680 *)
  || ((8192 <=? c) && (c <=? 8202))    (* U+2000 .. U+200A *)
  || (c =? 8232) || (c =? 8233)        (* U+2028, U+2029 *)
  || (c =? 8239) || (c =? 8287)        (* U+202F, U+205F *)
  || (c =? 12288) || (c =? 65279).     (* U+3000, U+FEFF *)

(** The class [[a-zA-Z%/]]. *)
Definition is_unit_char (c : codeunit) : bool :=
  ((97 <=? c) && (c <=? 122)) || ((65 <=? c) && (c <=? 90))
  || (c =? 37) || (c =? 47).

Definition is_minus (c : codeunit) : bool := c =? MINUS.
Definition is_dot (c : codeunit) : bool := c =? DOT.

(** The longest prefix whose code units satisfy [p], and what follows it. *)
Fixpoint span (p : codeunit -> bool) (s : jsstring) : jsstring * jsstring :=
  match s with
  | c :: s' => if p c then let (a, b) := span p s' in (c :: a, b) else ([], s)
  | [] => ([], [])
  end.

Fixpoint dropWhile (p : codeunit -> bool) (s : jsstring) : jsstring :=
  match s with
  | c :: s' => if p c then dropWhile p s' else s
  | [] => []
  end.

(** [s.trim()]. *)
Definition trim (s : jsstring) : jsstring :=
  rev (dropWhile is_space (rev (dropWhile is_space s))).

(** [s.replace(/\r/g, '')]: every carriage return is removed. *)
Definition remove_cr (s : jsstring) : jsstring :=
  filter (fun c => negb (c =? CR)) s.

(** [s.split('\n')]: the segments between line feeds; never empty, the last
    segment is what follows the last line feed. *)
Fixpoint split_nl (s : jsstring) : list jsstring :=
  match s with
  | [] => [[]]
  | c :: s' =>
      if c =? LF then [] :: split_nl s'
      else match split_nl s' with
           | seg :: rest => (c :: seg) :: rest
           | [] => [[c]]
           end
  end.

(** Truthiness of a string: it is not empty. *)
Definition truthy (s : jsstring) : bool :=
  match s with [] => false | _ :: _ => true end.

End JsString.
Import JsString.

(* ================================================================== *)
(** ** Regular expressions: the backtracking matcher *)
(* ================================================================== *)

(** The fragment of ECMAScript regular expressions that the line pattern is
    written in: character classes, concatenation, the greedy quantifiers [?],
    [*] and [+] (the last two over a class) and capturing groups.  Matching is
    by backtracking with a continuation, as RegExpBuiltinExec runs it: a greedy
    quantifier first tries to consume, and gives back when what follows fails. *)
Module Regex.

Inductive regex : Type :=
| Chr (p : codeunit -> bool)
| Cat (a b : regex)
| Opt (a : regex)
| Star (p : codeunit -> bool)
| Plus (p : codeunit -> bool)
| Cap (i : nat) (a : regex).

(** Captures: group number and captured substring, the most recent first.  A
    group that took no part in the match has no entry ([undefined]). *)
Definition captures := list (nat * jsstring).

Fixpoint capture (i : nat) (c : captures) : option jsstring :=
  match c with
  | [] => None
  | (j, s) :: c' => if Nat.eqb i j then Some s else capture i c'
  end.

(** What was consumed between the suffix [s] and its later suffix [s']. *)
Definition consumed (s s' : jsstring) : jsstring :=
  firstn (List.length s - List.length s') s.

Definition cont := jsstring -> captures -> option captures.

Fixpoint star (p : codeunit -> bool) (s : jsstring) (c : captures) (k : cont)
  : option captures :=
  match s with
  | x :: s' =>
      if p x then
        match star p s' c k with
        | Some r => Some r
        | None => k s c
        end
      else k s c
  | [] => k [] c
  end.

Fixpoint m (r : regex) (s : jsstring) (c : captures) (k : cont)
  : option captures :=
  match r with
  | Chr p =>
      match s with
      | x :: s' => if p x then k s' c else None
      | [] => None
      end
  | Cat a b => m a s c (fun s1 c1 => m b s1 c1 k)
  | Opt a =>
      match m a s c k with
      | Some r => Some r
      | None => k s c
      end
  | Star p => star p s c k
  | Plus p =>
      match s with
      | x :: s' => if p x then star p s' c k else None
      | [] => None
      end
  | Cap i a => m a s c (fun s1 c1 => k s1 ((i, consumed s s1) :: c1))
  end.

(** A match that starts exactly at the head of [s]. *)
Definition match_at (r : regex) (s : jsstring) : option captures :=
  m r s [] (fun _ c => Some c).

(** [s.match(r)] for a pattern without the [g] flag: the leftmost start
    position at which the pattern matches, the end of the string included. *)
Fixpoint exec (r : regex) (s : jsstring) : option captures :=
  match match_at r s with
  | Some c => Some c
  | None =>
      match s with
      | [] => None
      | _ :: s' => exec r s'
      end
  end.

End Regex.
Import Regex.

(* ================================================================== *)
(** ** Numbers *)
(* ================================================================== *)

(** A JavaScript number is an IEEE 754 binary64: a signed zero, a signed
    infinity, NaN, or a finite [(-1)^s * m * 2^e]. *)
Definition jsnumber : Type := spec_float.

Definition NaN : jsnumber := S754_nan.

Definition isNaN (v : jsnumber) : bool :=
  match v with S754_nan => true | _ => false end.

(** The binary64 nearest to [num / den], ties to even, with the sign [neg];
    [num] is not negative.  Too large a quotient is an infinity, too small a
    one a zero. *)
Definition nearest_double (neg : bool) (num : Z) (den : positive) : jsnumber :=
  let '(mz, ez, lz) := SFdiv_core_binary 53 1024 num 0 (Zpos den) 0 in
  binary_round_aux 53 1024 neg mz ez lz.

(** The number that the decimal [mant / 10^scale] is, as a numeric literal of
    the source text denotes it. *)
Definition decimal (mant : Z) (scale : nat) : jsnumber :=
  nearest_double (mant <? 0)%Z (Z.abs mant) (Z.to_pos (10 ^ Z.of_nat scale)).

Definition digit_val (c : codeunit) : Z := Z.of_N c - 48.

Definition digits_val (ds : jsstring) : Z :=
  fold_left (fun acc c => 10 * acc + digit_val c)%Z ds 0%Z.

(** The global [parseFloat] on a string: leading white space is skipped, then
    the longest prefix [sign? digits? (. digits?)?] is read and rounded to the
    nearest number; with no digit at all the result is NaN.  The exponent part
    and [Infinity] of StrDecimalLiteral are left out: the only caller passes
    capture 1 of the line pattern, in which neither can occur. *)
Definition parseFloat (s : jsstring) : jsnumber :=
  let s0 := dropWhile is_space s in
  let '(neg, s1) :=
    match s0 with
    | c :: t => if (c =? MINUS)%N then (true, t)
                else if (c =? 43)%N then (false, t) else (false, s0)
    | [] => (false, [])
    end in
  let '(ip, s2) := span is_digit s1 in
  let fp :=
    match s2 with
    | c :: t => if (c =? DOT)%N then fst (span is_digit t) else []
    | [] => []
    end in
  match ip ++ fp with
  | [] => NaN
  | ds => nearest_double neg (digits_val ds)
            (Z.to_pos (10 ^ Z.of_nat (List.length fp)))
  end.

(* ================================================================== *)
(** ** Readings and events *)
(* ================================================================== *)

(** The detail of a 'reading' event: [{ raw, value, unit }], [value] being
    [null] ([None]) or a number. *)
Module Reading.
Record t : Type := mk { raw : jsstring; value : option jsnumber; unit : jsstring }.
End Reading.

(** The events a transport dispatches, with their detail. *)
Inductive event : Type :=
| connected
| disconnected
| reading (detail : Reading.t)
| log (message : jsstring)
| error (message : jsstring).

Definition is_error (e : event) : bool :=
  match e with error _ => true | _ => false end.

Definition is_reading (e : event) : bool :=
  match e with reading _ => true | _ => false end.

(* ================================================================== *)
(** ** WebSerialTransport.#parseLine *)
(* ================================================================== *)

(** The line pattern of [#parseLine]: group 1 is [-?\d+(\.\d+)?] (group 2 its
    fraction), then [\s*], then group 3, the class [[a-zA-Z%/]] starred. *)
Definition LINE_PATTERN : regex :=
  Cat (Cap 1 (Cat (Opt (Chr is_minus))
             (Cat (Plus is_digit)
                  (Opt (Cap 2 (Cat (Chr is_dot) (Plus is_digit)))))))
      (Cat (Star is_space)
           (Cap 3 (Star is_unit_char))).

(** [x || ''] on a capture. *)
Definition or_empty (x : option jsstring) : jsstring :=
  match x with
  | Some s => if truthy s then s else []
  | None => []
  end.

(** [parseFloat(x)] on a capture; [undefined] converts to NaN. *)
Definition parseFloat_capture (x : option jsstring) : jsnumber :=
  match x with
  | Some s => parseFloat s
  | None => NaN
  end.

(** The detail of the 'reading' event that [#parseLine(line)] emits. *)
Definition reading_of (line : jsstring) : Reading.t :=
  match exec LINE_PATTERN line with
  | Some mt =>
      let value := parseFloat_capture (capture 1 mt) in
      let unit := or_empty (capture 3 mt) in
      Reading.mk line (Some value) unit
  | None =>
      Reading.mk line None []
  end.

(** The events [#parseLine(line)] emits, in order: the 'log', then, on either
    branch, the 'reading'. *)
Definition parseLine (line : jsstring) : list event :=
  [log (lit "Received: " ++ line); reading (reading_of line)].

(* ================================================================== *)
(** ** ReadingParser as the design document words it *)
(* ================================================================== *)

(** The parser of the design document, section 4.2, written after its words
    and not after the code: "locate the first substring matching an optional
    leading minus sign, digits, optional decimal point and digits, followed by
    an optional trailing unit token composed of letters/percent/slash
    characters". *)
Module ReadingParserSpec.

(** A numeric literal: optional minus, digits, optional point and digits. *)
Inductive numeric_literal : jsstring -> Prop :=
| literal_intro (sign ip fp : jsstring) :
    sign = [] \/ sign = [MINUS] ->
    ip <> [] -> forallb is_digit ip = true ->
    (fp = [] \/ exists ds, fp = DOT :: ds /\ ds <> [] /\ forallb is_digit ds = true) ->
    numeric_literal (sign ++ ip ++ fp).

(** The floating-point value of a numeric literal: the number nearest to the
    decimal it spells, negative when it has a sign. *)
Definition literal_value (sign ip fp : jsstring) : jsnumber :=
  nearest_double (match sign with [] => false | _ => true end)
    (digits_val (ip ++ tl fp))
    (Z.to_pos (10 ^ Z.of_nat (List.length (tl fp)))).

(** The fraction at the head of [s]: a point and its digits, when there is at
    least one digit. *)
Definition take_fraction (s : jsstring) : jsstring * jsstring :=
  match s with
  | c :: t =>
      if (c =? DOT)%N then
        match span is_digit t with
        | ([], _) => ([], s)
        | (ds, rest) => (c :: ds, rest)
        end
      else ([], s)
  | [] => ([], [])
  end.

(** The numeric literal that starts at the head of [s], split in its sign,
    integer part and fraction, with what follows it. *)
Definition literal_here (s : jsstring)
  : option (jsstring * jsstring * jsstring * jsstring) :=
  let '(sign, s1) :=
    match s with
    | c :: t => if (c =? MINUS)%N then ([c], t) else ([], s)
    | [] => ([], [])
    end in
  match span is_digit s1 with
  | ([], _) => None
  | (ip, s2) => let '(fp, s3) := take_fraction s2 in Some (sign, ip, fp, s3)
  end.

(** The first numeric literal of the line. *)
Fixpoint first_literal (s : jsstring)
  : option (jsstring * jsstring * jsstring * jsstring) :=
  match literal_here s with
  | Some r => Some r
  | None => match s with [] => None | _ :: t => first_literal t end
  end.

(** The unit token that trails a literal: after optional white space, the
    letters, percent signs and slashes that follow. *)
Definition trailing_unit (rest : jsstring) : jsstring :=
  fst (span is_unit_char (dropWhile is_space rest)).

Definition parse (line : jsstring) : Reading.t :=
  match first_literal line with
  | Some (sign, ip, fp, rest) =>
      Reading.mk line (Some (literal_value sign ip fp)) (trailing_unit rest)
  | None => Reading.mk line None []
  end.

End ReadingParserSpec.

(* ================================================================== *)
(** ** The platform: text codec, serial port, errors *)
(* ================================================================== *)

(** [TextDecoder] (UTF-8, used with [{ stream: true }]) and [TextEncoder] are
    the browser's.  A streaming decoder is a state machine over bytes: what a
    byte adds to the output depends on the bytes seen before it, and on nothing
    else.  The transport is verified against any such machine. *)
Class TextCodec : Type := {
  decoder : Type;
  new_TextDecoder : decoder;
  decode_byte : decoder -> Byte.byte -> decoder * jsstring;
  TextEncoder_encode : jsstring -> list Byte.byte
}.

(** [decoder.decode(value, { stream: true })]. *)
Fixpoint decode `{TextCodec} (d : decoder) (value : list Byte.byte)
  : decoder * jsstring :=
  match value with
  | [] => (d, [])
  | b :: rest =>
      let (d1, t1) := decode_byte d b in
      let (d2, t2) := decode d1 rest in
      (d2, t1 ++ t2)
  end.

(** The codec on 7-bit text, where UTF-8 is the identity; a byte or code unit
    outside it becomes U+FFFD, respectively [?]. *)
Definition ascii_codec : TextCodec := {|
  decoder := Datatypes.unit;
  new_TextDecoder := tt;
  decode_byte := fun _ b =>
    (tt, [if (Byte.to_N b <? 128)%N then Byte.to_N b else 65533%N]);
  TextEncoder_encode := fun s =>
    map (fun c => match Byte.of_N (if (c <? 128)%N then c else 63%N) with
                  | Some b => b
                  | None => Byte.x3f
                  end) s
|}.

(** A thrown [Error]; only its [message] is ever read. *)
Record JsError : Type := Err { message : jsstring }.

(** The objects a transport holds.  Each is a reference to a platform object
    whose state is in [world]. *)
Variant SerialPort : Type := thePort.
Variant Writer : Type := theWriter.
Variant Reader : Type := theReader.

(** The state of the platform objects behind the references. *)
Record world : Type := World {
  port_opened : bool;        (* the port is open *)
  writable_locked : bool;    (* a writer holds port.writable *)
  readable_locked : bool     (* a reader holds port.readable *)
}.

(** The platform calls a transport makes, [reader.read()] apart. *)
Inductive call : Type :=
| requestPort                      (* navigator.serial.requestPort() *)
| port_open                        (* port.open({...9600 8N1...}) *)
| getWriter                        (* port.writable.getWriter() *)
| getReader                        (* port.readable.getReader() *)
| reader_cancel                    (* reader.cancel() *)
| reader_releaseLock               (* reader.releaseLock() *)
| writer_releaseLock               (* writer.releaseLock() *)
| writer_write (data : list Byte.byte)   (* writer.write(data) *)
| port_close.                      (* port.close() *)

(** How the platform answers during one run of a method: for each call,
    [None] when it succeeds, [Some err] when it throws or rejects with [err]. *)
Definition oracle := call -> option JsError.

(** What [reader.read()] resolves to. *)
Inductive read_result : Type :=
| ReadValue (value : option (list Byte.byte))   (* { value, done: false } *)
| ReadDone                                      (* { done: true } *)
| ReadThrow (err : JsError).                    (* the read rejects *)

(** One turn of the read loop as the platform and the rest of the page decide
    it: whether [disconnect()] cleared [#readLoopRunning] while the read was
    pending, and what the read then resolved to. *)
Record read_step : Type := ReadStep {
  stop_requested : bool;
  result : read_result
}.

(* ================================================================== *)
(** ** WebSerialTransport *)
(* ================================================================== *)

(** The methods are asynchronous.  Each is modelled as run from its call to its
    completion, the platform answering each call as an oracle says; what other
    code does while a method waits is modelled where the method depends on it:
    a [disconnect()] that clears the running flag while a read is pending
    ([stop_requested]), and the read loop that ends while [disconnect()] waits
    for [reader.cancel()] to settle, be it that the cancellation is fulfilled
    or that it is rejected ([loop_wakes]).  The results of [reader.read()] are
    given as a script of turns; when the script is used up the loop is left
    waiting in its read. *)
Module WebSerialTransport.

(** The private fields. *)
Record fields : Type := Fields {
  port : option SerialPort;
  writer : option Writer;
  reader : option Reader;
  readLoopRunning : bool
}.

(** [new WebSerialTransport()]. *)
Definition new : fields := Fields None None None false.

(** A transport in its surroundings: its fields, the platform objects, the
    events it has dispatched and the platform calls it has made, both oldest
    first. *)
Record sys : Type := Sys {
  self : fields;
  plat : world;
  events : list event;
  calls : list call
}.

Definition initial : sys := Sys new (World false false false) [] [].

(** How a statement completes. *)
Inductive completion (A : Type) : Type :=
| Normal (a : A)
| Throw (err : JsError).
Arguments Normal {A} a.
Arguments Throw {A} err.

Definition M (A : Type) : Type := sys -> completion A * sys.

Definition ret {A} (a : A) : M A := fun s => (Normal a, s).

Definition bind {A B} (x : M A) (f : A -> M B) : M B :=
  fun s =>
    match x s with
    | (Normal a, s1) => f a s1
    | (Throw err, s1) => (Throw err, s1)
    end.

Definition throw {A} (err : JsError) : M A := fun s => (Throw err, s).

(** [try { body } catch (err) { handler }]. *)
Definition try_catch {A} (body : M A) (handler : JsError -> M A) : M A :=
  fun s =>
    match body s with
    | (Normal a, s1) => (Normal a, s1)
    | (Throw err, s1) => handler err s1
    end.

(** [await x] while other code runs: [x] is started, [meanwhile] runs while
    the caller waits, and the caller goes on with what [x] has settled to,
    fulfilled or rejected. *)
Definition await_while {A} (x : M A) (meanwhile : M Datatypes.unit) : M A :=
  fun s =>
    match x s with
    | (r, s1) => (r, snd (meanwhile s1))
    end.

(** A call of an async method that is not awaited: the caller goes on, and a
    rejection of the method's promise is not the caller's. *)
Definition not_awaited {A} (x : M A) : M Datatypes.unit :=
  fun s => (Normal tt, snd (x s)).

Declare Scope js_scope.
Delimit Scope js_scope with js.
Notation "x <- a ;; b" := (bind a (fun x => b))
  (at level 61, a at next level, right associativity) : js_scope.
Notation "a ;; b" := (bind a (fun _ => b))
  (at level 61, right associativity) : js_scope.
Local Open Scope js_scope.

Definition get : M fields := fun s => (Normal (self s), s).

Definition modify (f : fields -> fields) : M Datatypes.unit :=
  fun s => (Normal tt, Sys (f (self s)) (plat s) (events s) (calls s)).

Definition set_port (v : option SerialPort) : M Datatypes.unit :=
  modify (fun t => Fields v (writer t) (reader t) (readLoopRunning t)).
Definition set_writer (v : option Writer) : M Datatypes.unit :=
  modify (fun t => Fields (port t) v (reader t) (readLoopRunning t)).
Definition set_reader (v : option Reader) : M Datatypes.unit :=
  modify (fun t => Fields (port t) (writer t) v (readLoopRunning t)).
Definition set_readLoopRunning (v : bool) : M Datatypes.unit :=
  modify (fun t => Fields (port t) (writer t) (reader t) v).

(** [#emit(type, detail)]. *)
Definition emit (e : event) : M Datatypes.unit :=
  fun s => (Normal tt, Sys (self s) (plat s) (events s ++ [e]) (calls s)).

Fixpoint emit_all (es : list event) : M Datatypes.unit :=
  match es with
  | [] => ret tt
  | e :: es' => emit e ;; emit_all es'
  end.

(** What a successful platform call does to the platform objects. *)
Definition effect (c : call) (w : world) : world :=
  match c with
  | port_open => World true (writable_locked w) (readable_locked w)
  | port_close => World false (writable_locked w) (readable_locked w)
  | getWriter => World (port_opened w) true (readable_locked w)
  | writer_releaseLock => World (port_opened w) false (readable_locked w)
  | getReader => World (port_opened w) (writable_locked w) true
  | reader_releaseLock => World (port_opened w) (writable_locked w) false
  | requestPort | reader_cancel | writer_write _ => w
  end.

(** A platform call: it is made, and succeeds or throws as the oracle says. *)
Definition platform (o : oracle) (c : call) : M Datatypes.unit :=
  fun s =>
    let s1 := Sys (self s) (plat s) (events s) (calls s ++ [c]) in
    match o c with
    | None => (Normal tt, Sys (self s1) (effect c (plat s1)) (events s1) (calls s1))
    | Some err => (Throw err, s1)
    end.

(** A method call on a field that may be [null]: on [null] it is a TypeError,
    and no platform call is made. *)
Definition null_deref : JsError :=
  Err (lit "Cannot read properties of null").

Definition on_field {A} (f : option A) (c : oracle -> M Datatypes.unit)
  (o : oracle) : M Datatypes.unit :=
  match f with
  | Some _ => c o
  | None => throw null_deref
  end.

Section Methods.

Context {codec : TextCodec}.

(** [line.replace(/\r/g, '').trim()] *)
Definition trimmed_of (line : jsstring) : jsstring := trim (remove_cr line).

(** The [for (const line of lines)] of the read loop. *)
Fixpoint for_lines (lines : list jsstring) : M Datatypes.unit :=
  match lines with
  | [] => ret tt
  | line :: rest =>
      let trimmed := trimmed_of line in
      (if truthy trimmed then emit_all (parseLine trimmed) else ret tt) ;;
      for_lines rest
  end.

(** Where the read loop stands when control leaves it: it has returned, or it
    is suspended in [await this.#reader.read()] with its locals. *)
Inductive loop_status : Type :=
| Finished
| Awaiting (d : decoder) (buffer : jsstring).

(** The [while (this.#readLoopRunning)] loop, given the turns to come. *)
Fixpoint loop (script : list read_step) (d : decoder) (buffer : jsstring)
  : M loop_status :=
  t <- get ;;
  if readLoopRunning t then
    match script with
    | [] => ret (Awaiting d buffer)
    | turn :: rest =>
        (if stop_requested turn then set_readLoopRunning false else ret tt) ;;
        match result turn with
        | ReadThrow err => throw err
        | ReadDone => ret Finished
        | ReadValue None => loop rest d buffer
        | ReadValue (Some value) =>
            let (d', text) := decode d value in
            let buffer := buffer ++ text in
            let lines := split_nl buffer in
            let buffer := last lines [] in
            let lines := removelast lines in
            for_lines lines ;;
            loop rest d' buffer
        end
    end
  else ret Finished.

(** The [finally] block of the read loop. *)
Definition readLoop_finally (o : oracle) : M Datatypes.unit :=
  try_catch
    (t <- get ;; on_field (reader t) (fun o => platform o reader_releaseLock) o)
    (fun _ => ret tt) ;;
  set_reader None.

(** The [catch] block of the read loop. *)
Definition readLoop_catch (err : JsError) : M Datatypes.unit :=
  t <- get ;;
  if readLoopRunning t
  then emit (error (lit "Read error: " ++ message err))
  else ret tt.

(** The [try]/[catch]/[finally] statement of the read loop.  While the loop is
    suspended in a read, neither block has run. *)
Definition readLoop_try (o : oracle) (script : list read_step)
  (d : decoder) (buffer : jsstring) : M loop_status :=
  fun s =>
    match loop script d buffer s with
    | (Normal (Awaiting d' b'), s1) => (Normal (Awaiting d' b'), s1)
    | (Normal Finished, s1) => (readLoop_finally o ;; ret Finished) s1
    | (Throw err, s1) =>
        (readLoop_catch err ;; readLoop_finally o ;; ret Finished) s1
    end.

(** [#readLoop()] *)
Definition readLoop (o : oracle) (script : list read_step) : M loop_status :=
  let decoder := new_TextDecoder in
  t <- get ;;
  on_field (port t) (fun o => platform o getReader) o ;;
  set_reader (Some theReader) ;;
  set_readLoopRunning true ;;
  let buffer := [] in
  readLoop_try o script decoder buffer.

(** [connect()].  The read loop is started and not awaited: it runs up to its
    first [read()], and a failure in it is not [connect]'s. *)
Definition connect (o : oracle) : M Datatypes.unit :=
  try_catch
    (platform o requestPort ;;
     set_port (Some thePort) ;;
     platform o port_open ;;
     platform o getWriter ;;
     set_writer (Some theWriter) ;;
     emit connected ;;
     emit (log (lit "Serial port opened (9600 8N1)")) ;;
     not_awaited (readLoop o []))
    (fun err =>
       emit (error (lit "Connect failed: " ++ message err)) ;;
       throw err).

(** [disconnect()].  [loop_wakes] says whether the read loop runs to its end
    while [disconnect] awaits [cancel()]: its pending read is settled, as done
    or as failed, the flag is off, so that the loop emits nothing and runs its
    [finally].  That happens, or not, whether the cancellation is fulfilled or
    rejected; a rejection is thrown in [disconnect] once the wait is over.  (A
    read that had been fulfilled with a last chunk before the cancellation is
    a turn of the loop with [stop_requested], see [loop].) *)
Definition disconnect (o : oracle) (loop_wakes : bool) : M Datatypes.unit :=
  set_readLoopRunning false ;;
  try_catch
    (t <- get ;;
     match reader t with
     | Some _ =>
         await_while (platform o reader_cancel)
           (if loop_wakes then readLoop_finally o else ret tt) ;;
         t <- get ;;
         on_field (reader t) (fun o => platform o reader_releaseLock) o ;;
         set_reader None
     | None => ret tt
     end)
    (fun _ => ret tt) ;;
  try_catch
    (t <- get ;;
     match writer t with
     | Some _ =>
         platform o writer_releaseLock ;;
         set_writer None
     | None => ret tt
     end)
    (fun _ => ret tt) ;;
  try_catch
    (t <- get ;;
     match port t with
     | Some _ =>
         platform o port_close ;;
         set_port None
     | None => ret tt
     end)
    (fun err => emit (error (lit "Close error: " ++ message err))) ;;
  emit disconnected ;;
  emit (log (lit "Serial port closed")).

(** [send(cmd)] *)
Definition send (o : oracle) (cmd : jsstring) : M Datatypes.unit :=
  t <- get ;;
  match writer t with
  | None => emit (error (lit "Not connected"))
  | Some _ =>
      let data := TextEncoder_encode (trim cmd ++ [CR; LF]) in
      platform o (writer_write data) ;;
      emit (log (lit "Sent: " ++ trim cmd))
  end.

(** *** The buffering of the read loop on its own *)

(** What one chunk does to the loop's locals, and the trimmed lines it hands to
    [#parseLine]: the statements between the read and the parse. *)
Definition feed (st : decoder * jsstring) (value : list Byte.byte)
  : list jsstring * (decoder * jsstring) :=
  let (d, buffer) := st in
  let (d', text) := decode d value in
  let buffer := buffer ++ text in
  let lines := split_nl buffer in
  let buffer := last lines [] in
  let lines := removelast lines in
  (filter truthy (map trimmed_of lines), (d', buffer)).

(** Chunks fed one at a time. *)
Fixpoint feed_all (st : decoder * jsstring) (chunks : list (list Byte.byte))
  : list jsstring * (decoder * jsstring) :=
  match chunks with
  | [] => ([], st)
  | value :: rest =>
      let (out1, st1) := feed st value in
      let (out2, st2) := feed_all st1 rest in
      (out1 ++ out2, st2)
  end.

End Methods.

End WebSerialTransport.

(* ================================================================== *)
(** ** The host: clock readings and number formatting *)
(* ================================================================== *)

(** A [Date] is its time value, milliseconds since the epoch.  How the host
    prints dates and numbers is its own business. *)
Class Host : Type := {
  toISOString : Z -> jsstring;            (* date.toISOString() *)
  toLocaleTimeString : Z -> jsstring;     (* date.toLocaleTimeString() *)
  number_toString : jsnumber -> jsstring; (* String(n), and n in a template *)
  toFixed4 : jsnumber -> jsstring         (* n.toFixed(4) *)
}.

(** A value that is [null] or a number, converted to a string. *)
Definition value_toString `{Host} (v : option jsnumber) : jsstring :=
  match v with
  | None => lit "null"
  | Some n => number_toString n
  end.

Definition joined (sep : jsstring) (parts : list jsstring) : jsstring :=
  match parts with
  | [] => []
  | p :: rest => p ++ flat_map (fun q => sep ++ q) rest
  end.

(* ================================================================== *)
(** ** Recorder *)
(* ================================================================== *)

Module Recorder.

Record entry : Type := Entry {
  timestamp : jsstring;
  value : option jsnumber;
  unit : jsstring
}.

(** The private fields [#data] and [#recording]. *)
Record t : Type := Make {
  data : list entry;
  recording : bool
}.

Definition new : t := Make [] false.

Definition isRecording (r : t) : bool := recording r.

Definition count (r : t) : nat := List.length (data r).

Definition start (r : t) : t := Make [] true.

Definition stop (r : t) : t := Make (data r) false.

(** [addReading(value, unit)], the clock read at [now]. *)
Definition addReading `{Host} (now : Z) (value : option jsnumber)
  (unit : jsstring) (r : t) : t :=
  if negb (recording r) then r
  else Make (data r ++ [Entry (toISOString now) value unit]) (recording r).

(** The file a download hands to the browser. *)
Record file : Type := File {
  filename : jsstring;
  mime : jsstring;
  content : jsstring
}.

Definition row `{Host} (r : entry) : jsstring :=
  timestamp r ++ lit "," ++ value_toString (value r) ++ lit "," ++ unit r.

Definition csv `{Host} (d : list entry) : jsstring :=
  let header := lit "Timestamp,Value,Unit" ++ [LF] in
  let rows := joined [LF] (map row d) in
  header ++ rows ++ [LF].

(** [.] of a regular expression: anything but a line terminator. *)
Definition is_dot_char (c : codeunit) : bool :=
  negb ((c =? LF) || (c =? CR) || (c =? 8232) || (c =? 8233))%N.

(** [s.replace(/\..+/, '')]: the first point that something follows on its
    line goes, with the rest of that line. *)
Fixpoint strip_from_point (s : jsstring) : jsstring :=
  match s with
  | [] => []
  | c :: t =>
      if (c =? DOT)%N then
        match t with
        | x :: _ => if is_dot_char x then dropWhile is_dot_char t
                    else c :: strip_from_point t
        | [] => [c]
        end
      else c :: strip_from_point t
  end.

(** The [ts] of the file name:
    [toISOString().replace(/[:\-]/g, '').replace(/\..+/, '')]. *)
Definition file_stamp `{Host} (now : Z) : jsstring :=
  strip_from_point
    (filter (fun c => negb ((c =? 58) || (c =? MINUS))%N) (toISOString now)).

(** [download()]: its return value and the file it saves, if any.  The
    recorder itself is left as it is. *)
Definition download `{Host} (now : Z) (r : t) : bool * option file :=
  match data r with
  | [] => (false, None)
  | _ =>
      (true,
       Some (File (lit "scale_recording_" ++ file_stamp now ++ lit ".csv")
                  (lit "text/csv;charset=utf-8")
                  (csv (data r))))
  end.

End Recorder.

(* ================================================================== *)
(** ** ChartManager: the data it plots *)
(* ================================================================== *)

(** [#data] and [#timeWindow].  The Chart.js object, its redraws and colours
    are rendering and are left out. *)
Module ChartManager.

Record point : Type := Point { x : Z; y : jsnumber }.

Record t : Type := Make {
  data : list point;
  timeWindow : Z
}.

Definition new : t := Make [] 300.

Fixpoint shift_while (old : point -> bool) (d : list point) : list point :=
  match d with
  | p :: rest => if old p then shift_while old rest else d
  | [] => []
  end.

(** [#prune(now)] *)
Definition prune (now : Z) (c : t) : t :=
  let cutoff := (now - timeWindow c * 1000)%Z in
  Make (shift_while (fun p => (x p <? cutoff)%Z) (data c)) (timeWindow c).

(** [addReading(value)], the clock read at [now]; [value] may be [null]. *)
Definition addReading (now : Z) (value : option jsnumber) (c : t) : t :=
  match value with
  | None => c                                  (* typeof value !== 'number' *)
  | Some v =>
      if isNaN v then c
      else prune now (Make (data c ++ [Point now v]) (timeWindow c))
  end.

(** [clear()] *)
Definition clear (c : t) : t := Make [] (timeWindow c).

(** [setTimeWindow(seconds)], the clock read at [now]; [seconds] is a whole
    number. *)
Definition setTimeWindow (now seconds : Z) (c : t) : t :=
  prune now (Make (data c) seconds).

End ChartManager.

(* ================================================================== *)
(** ** The page: the 'reading' listener of main.js *)
(* ================================================================== *)

(** [StatsTracker] (js/stats.js) is used through [addValue] and [getStats]
    only; the listener is verified against any tracker. *)
Record stats_summary : Type := Summary {
  stat_min : option jsnumber;
  stat_max : option jsnumber;
  stat_mean : option jsnumber;
  stat_stddev : option jsnumber;
  stat_count : jsnumber
}.

Class StatsTracker : Type := {
  tracker : Type;
  addValue : jsnumber -> tracker -> tracker;
  getStats : tracker -> stats_summary
}.

Module Page.

(** The text of the elements the listener writes to, by id.  An id that is not
    in the list is an element the document does not have. *)
Definition dom := list (string * jsstring).

(** [const el = document.getElementById(id); if (el) el.textContent = text] *)
Definition set_text (id : string) (text : jsstring) (d : dom) : dom :=
  map (fun e => if String.eqb (fst e) id then (fst e, text) else e) d.

Section Listener.

Context {host : Host} {tr : StatsTracker}.

(** ui.js: the number format of the read-out and of the statistics,
    [n.toFixed(4).replace(/\.?0+$/, '')]: the host's [toFixed(4)], then trailing
    zeros and a point left bare are dropped. *)
Definition drop_zeros (s : jsstring) : jsstring :=
  match rev s with
  | c :: _ =>
      if (c =? 48)%N then
        let r := dropWhile (fun c => (c =? 48)%N) (rev s) in
        match r with
        | p :: r' => if (p =? DOT)%N then rev r' else rev r
        | [] => []
        end
      else s
  | [] => []
  end.

Definition fmt4 (n : jsnumber) : jsstring := drop_zeros (toFixed4 n).

(** ui.js [updateReadout(value, unit)], the clock read at [now]. *)
Definition updateReadout (now : Z) (value : option jsnumber) (unit : jsstring)
  (d : dom) : dom :=
  let text :=
    match value with
    | None => lit "---"
    | Some n => if isNaN n then number_toString n else fmt4 n
    end in
  set_text "readoutTime" (toLocaleTimeString now)
    (set_text "readoutUnit" unit
       (set_text "readoutValue" text d)).

(** ui.js [updateStats(stats)] *)
Definition updateStats (s : stats_summary) (d : dom) : dom :=
  let fmt (v : option jsnumber) :=
    match v with None => lit "---" | Some n => fmt4 n end in
  set_text "statCount" (number_toString (stat_count s))
    (set_text "statStddev" (fmt (stat_stddev s))
       (set_text "statMean" (fmt (stat_mean s))
          (set_text "statMax" (fmt (stat_max s))
             (set_text "statMin" (fmt (stat_min s)) d)))).

(** The module-level variables of main.js that the listener touches, and the
    document.  [chart] is [None] when the chart could not be created. *)
Record state : Type := State {
  lastReadingTime : Z;
  document : dom;
  chart : option ChartManager.t;
  stats : tracker;
  recorder : Recorder.t
}.

(** The clock as the listener and its callees read it, in order. *)
Record clock : Type := Clock {
  at_listener : Z;     (* Date.now() in the listener *)
  at_readout : Z;      (* new Date() in updateReadout *)
  at_chart : Z;        (* new Date() in ChartManager.addReading *)
  at_recorder : Z      (* new Date() in Recorder.addReading *)
}.

(** [conn.addEventListener('reading', (e) => { ... })] *)
Definition on_reading (now : clock) (detail : Reading.t) (st : state) : state :=
  let value := Reading.value detail in
  let unit := Reading.unit detail in
  let lastReadingTime := at_listener now in
  let doc := updateReadout (at_readout now) value unit (document st) in
  match value with
  | Some v =>
      let chart' :=
        match chart st with
        | Some c => Some (ChartManager.addReading (at_chart now) value c)
        | None => None
        end in
      let stats' := addValue v (stats st) in
      let doc' := updateStats (getStats stats') doc in
      let recorder' :=
        Recorder.addReading (at_recorder now) value unit (recorder st) in
      State lastReadingTime doc' chart' stats' recorder'
  | None =>
      State lastReadingTime doc (chart st) (stats st) (recorder st)
  end.

End Listener.

End Page.

(* ================================================================== *)
(** ** Auxiliary definitions of the proofs *)
(* ================================================================== *)

(** The line pattern in named parts. *)
(** The tail of the pattern: [\s*] and group 3. *)
Definition tail_pattern : regex := Cat (Star is_space) (Cap 3 (Star is_unit_char)).

(** The optional fraction, group 2. *)
Definition fraction_pattern : regex :=
  Opt (Cap 2 (Cat (Chr is_dot) (Plus is_digit))).

(** The capture a fraction leaves: none when it is empty. *)
Definition fraction_capture (fp : jsstring) : captures :=
  match fp with [] => [] | _ => [(2%nat, fp)] end.

(** The captures of a match on the literal [r]. *)
Definition line_captures (r : jsstring * jsstring * jsstring * jsstring)
  : captures :=
  let '(sign, ip, fp, rest) := r in
  (3%nat, ReadingParserSpec.trailing_unit rest)
    :: (1%nat, sign ++ ip ++ fp) :: fraction_capture fp.

(** Digits and fraction. *)
Definition number_pattern : regex := Cat (Plus is_digit) fraction_pattern.

(** What it is for a literal to be the first of its line, [pre] being what
    precedes it: no digit comes before it, and when it has no sign, no minus
    sign stands directly before it. *)
Definition leftmost (pre sign : jsstring) : Prop :=
  existsb is_digit pre = false /\
  (sign = [] -> forall pre', pre <> pre' ++ [MINUS]).

(** What it is for a literal to be as long as it can be, [rest] being what
    follows it: no digit follows, and when it has no fraction, no point and
    digit follow. *)
Definition longest (fp rest : jsstring) : Prop :=
  match rest with c :: _ => is_digit c = false | [] => True end /\
  (fp = [] ->
   match rest with
   | c :: c' :: _ => c = DOT -> is_digit c' = false
   | _ => True
   end).

(** The shape of a fraction: nothing, or a point and at least one digit. *)
Definition fraction_shape (fp : jsstring) : Prop :=
  fp = [] \/
  exists ds, fp = DOT :: ds /\ ds <> [] /\ forallb is_digit ds = true.


(** The complete lines of a text as the read loop hands them to [#parseLine]:
    every segment that a line feed ends, without its carriage returns and
    trimmed, the empty ones dropped. *)
Definition complete_lines (text : jsstring) : list jsstring :=
  filter truthy
    (map WebSerialTransport.trimmed_of (removelast (split_nl text))).

(** The bytes of an ASCII literal. *)
Definition bytes (s : string) : list Byte.byte := list_byte_of_string s.

Definition CRLF : list Byte.byte := [Byte.x0d; Byte.x0a].

(** The device's answer of the design document's end-to-end test. *)
Definition device_output : list Byte.byte :=
  bytes "S S     100.00 g" ++ CRLF ++ bytes "S S     100.05 g" ++ CRLF.

(** The same, cut in two chunks in the middle of its second line. *)
Definition sample_chunks : list (list Byte.byte) :=
  [ bytes "S S     100.00 g" ++ CRLF ++ bytes "S S   ";
    bytes "  100.05 g" ++ CRLF ].

(** A turn of the read loop that delivers a value and during which no stop is
    requested; a script of such turns. *)
Definition plain_turn (t : read_step) : bool :=
  negb (stop_requested t)
  && match result t with ReadValue _ => true | _ => false end.

Definition plain (script : list read_step) : bool := forallb plain_turn script.

(** The chunks a script delivers. *)
Definition values_of (script : list read_step) : list (list Byte.byte) :=
  flat_map (fun t => match result t with
                     | ReadValue (Some v) => [v]
                     | _ => []
                     end) script.

(** The chunks as turns of the read loop. *)
Definition deliver (chunks : list (list Byte.byte)) : list read_step :=
  map (fun v => ReadStep false (ReadValue (Some v))) chunks.

(** A platform on which every call succeeds. *)
Definition all_succeed : oracle := fun _ => None.

Module SysFacts.
Import WebSerialTransport.

(** [s] with more events dispatched. *)
Definition add_events (es : list event) (s : sys) : sys :=
  Sys (self s) (plat s) (events s ++ es) (calls s).

(** A transport whose port is open and whose writer is held, its read loop not
    started. *)
Definition opened : sys :=
  Sys (Fields (Some thePort) (Some theWriter) None false)
      (World true true false) [] [].

(** What the design document asks of a failed [connect()]: whatever it
    acquired is released when it completes, so the platform objects and the
    fields are as they were before the call. *)
Definition releases_on_failure {codec : TextCodec} (o : oracle) (s : sys)
  : Prop :=
  forall err s',
    connect o s = (Throw err, s') -> plat s' = plat s /\ self s' = self s.

(** A transport whose read loop is running, suspended in a read. *)
Definition reading_state : sys :=
  Sys (Fields (Some thePort) (Some theWriter) (Some theReader) true)
      (World true true true) [] [].

(** A transport that holds no reader, no writer and no port. *)
Definition released (t : fields) : Prop :=
  port t = None /\ writer t = None /\ reader t = None.

(** What the design document asks of [disconnect()] on a transport that holds
    nothing: a no-op. *)
Definition disconnect_is_no_op (o : oracle) (loop_wakes : bool) (s : sys)
  : Prop :=
  disconnect o loop_wakes s = (Normal tt, s).

(** The platform calls of the three teardown steps of [disconnect()], and the
    events of the last.  The reader's lock is released once: by the read loop
    when it ends during the wait, else by [disconnect()] when the cancellation
    is fulfilled. *)
Definition reader_calls (o : oracle) (loop_wakes : bool) (t : fields)
  : list call :=
  match reader t with
  | None => []
  | Some _ =>
      if loop_wakes then [reader_cancel; reader_releaseLock]
      else
        match o reader_cancel with
        | Some _ => [reader_cancel]
        | None => [reader_cancel; reader_releaseLock]
        end
  end.

Definition writer_calls (t : fields) : list call :=
  match writer t with None => [] | Some _ => [writer_releaseLock] end.

Definition port_calls (t : fields) : list call :=
  match port t with None => [] | Some _ => [port_close] end.

Definition close_errors (o : oracle) (t : fields) : list event :=
  match port t, o port_close with
  | Some _, Some err => [error (lit "Close error: " ++ message err)]
  | _, _ => []
  end.

End SysFacts.

(** A platform on which every write is rejected and every other call
    succeeds. *)
Definition write_fails : oracle :=
  fun c => match c with
           | writer_write _ => Some (Err (lit "The device has been lost"))
           | _ => None
           end.

(** A platform on which [port.writable.getWriter()] throws and every other
    call succeeds. *)
Definition writer_fails : oracle :=
  fun c => match c with
           | getWriter => Some (Err (lit "The stream is locked"))
           | _ => None
           end.

(** The text of the element [id], if the document has it. *)
Definition text_of (id : string) (d : Page.dom) : option jsstring :=
  option_map snd (find (fun e => String.eqb (fst e) id) d).

(** A host for examples: its clock always prints the same instant, and it
    prints every number as 120.45. *)
Definition sample_host : Host := {|
  toISOString := fun _ => lit "2024-01-02T03:04:05.678Z";
  toLocaleTimeString := fun _ => lit "03:04:05";
  number_toString := fun _ => lit "120.45";
  toFixed4 := fun _ => lit "120.4500"
|}.

(** A tracker that counts the values it is given. *)
Definition counting_tracker : StatsTracker := {|
  tracker := nat;
  addValue := fun _ n => S n;
  getStats := fun _ => Summary None None None None NaN
|}.

(** What is done to a recorder, and a run of such operations. *)
Module RecorderRun.

Inductive op : Type :=
| Start
| Stop
| Add (now : Z) (value : option jsnumber) (unit : jsstring).

Definition step `{Host} (r : Recorder.t) (o : op) : Recorder.t :=
  match o with
  | Start => Recorder.start r
  | Stop => Recorder.stop r
  | Add now value unit => Recorder.addReading now value unit r
  end.

Definition run `{Host} (ops : list op) (r : Recorder.t) : Recorder.t :=
  fold_left step ops r.

(** A reading to add: the clock, the value, the unit. *)
Definition sample : Type := Z * option jsnumber * jsstring.

Definition adds (l : list sample) : list op :=
  map (fun x => Add (fst (fst x)) (snd (fst x)) (snd x)) l.

Definition entries `{Host} (l : list sample) : list Recorder.entry :=
  map (fun x => Recorder.Entry (toISOString (fst (fst x))) (snd (fst x)) (snd x)) l.

End RecorderRun.

(** A page for examples: a document with the read-out and one statistic, a
    chart, and a recorder that is not recording. *)
Definition sample_page : Page.state (tr := counting_tracker) :=
  Page.State (tr := counting_tracker) 0%Z
    [("readoutValue"%string, lit "---"); ("readoutUnit"%string, []);
     ("statCount"%string, lit "0")]
    (Some ChartManager.new) 0%nat Recorder.new.

Definition sample_clock : Page.clock := Page.Clock 1000 1001 1002 1003.

(* ================================================================== *)
(** ** More of the transport: what a script makes the read loop do *)
(* ================================================================== *)

(** The chunks the read loop takes from a script while it runs: those of the
    turns up to the first that ends the loop.  A turn during which a stop is
    requested still has its chunk taken; nothing after it is. *)
Fixpoint taken (script : list read_step) : list (list Byte.byte) :=
  match script with
  | [] => []
  | turn :: rest =>
      match result turn with
      | ReadValue v =>
          match v with Some c => [c] | None => [] end
          ++ (if stop_requested turn then [] else taken rest)
      | ReadDone | ReadThrow _ => []
      end
  end.

(** The 'error' the read loop reports on a script: the turn that ends the loop
    is a failed read during which no stop was requested. *)
Fixpoint reported (script : list read_step) : list event :=
  match script with
  | [] => []
  | turn :: rest =>
      match result turn with
      | ReadValue _ => if stop_requested turn then [] else reported rest
      | ReadDone => []
      | ReadThrow err =>
          if stop_requested turn then []
          else [error (lit "Read error: " ++ message err)]
      end
  end.

(** Whether a script ends the read loop, rather than leave it waiting. *)
Fixpoint ends (script : list read_step) : bool :=
  match script with
  | [] => false
  | turn :: rest =>
      match result turn with
      | ReadValue _ => if stop_requested turn then true else ends rest
      | ReadDone | ReadThrow _ => true
      end
  end.

(** A line as [#parseLine] wants it: not empty, with no carriage return and no
    line feed in it, and with no white space at either end. *)
Definition clean_line (l : jsstring) : Prop :=
  l <> [] /\
  existsb (N.eqb CR) l = false /\
  existsb (N.eqb LF) l = false /\
  match l with c :: _ => is_space c = false | [] => True end /\
  match rev l with c :: _ => is_space c = false | [] => True end.

(** A platform on which the calls of [connect()] and of the start of the read
    loop succeed. *)
Definition connects (o : oracle) : Prop :=
  o requestPort = None /\ o port_open = None /\ o getWriter = None /\
  o getReader = None.

(** A platform on which the calls of [disconnect()] succeed. *)
Definition disconnects (o : oracle) : Prop :=
  o reader_cancel = None /\ o reader_releaseLock = None /\
  o writer_releaseLock = None /\ o port_close = None.

(** *** The chart over time *)

(** Points in the order of their times. *)
Fixpoint chronological (d : list ChartManager.point) : Prop :=
  match d with
  | [] => True
  | p :: rest =>
      Forall (fun q => (ChartManager.x p <= ChartManager.x q)%Z) rest /\
      chronological rest
  end.

(** Clock readings that do not go back. *)
Fixpoint ascending (l : list Z) : Prop :=
  match l with
  | [] => True
  | t :: rest => Forall (fun u => (t <= u)%Z) rest /\ ascending rest
  end.

(** What is done to a chart, one call after the other. *)
Module ChartRun.

Inductive op : Type :=
| Add (now : Z) (value : option jsnumber)     (* addReading(value) *)
| Clear                                       (* clear() *)
| SetTimeWindow (now seconds : Z).            (* setTimeWindow(seconds) *)

Definition step (c : ChartManager.t) (o : op) : ChartManager.t :=
  match o with
  | Add now value => ChartManager.addReading now value c
  | Clear => ChartManager.clear c
  | SetTimeWindow now seconds => ChartManager.setTimeWindow now seconds c
  end.

Definition run (ops : list op) (c : ChartManager.t) : ChartManager.t :=
  fold_left step ops c.

(** The clock readings of the calls, in order. *)
Definition times (ops : list op) : list Z :=
  flat_map (fun o => match o with
                     | Add now _ | SetTimeWindow now _ => [now]
                     | Clear => []
                     end) ops.

End ChartRun.

(** What holds of a chart for which the clock has not gone back: its points
    are in the order of their times, none is later than [last], none is NaN. *)
Definition in_order (last : Z) (c : ChartManager.t) : Prop :=
  chronological (ChartManager.data c) /\
  Forall (fun p => (ChartManager.x p <= last)%Z) (ChartManager.data c) /\
  Forall (fun p => isNaN (ChartManager.y p) = false) (ChartManager.data c).

(** *** The recorder's file *)

(** The punctuation that [download()] takes out of the time stamp, a colon or
    a hyphen. *)
Definition stamp_punctuation (c : codeunit) : bool :=
  ((c =? 58) || (c =? MINUS))%N.

(** The first line of the file. *)
Definition csv_header : jsstring := lit "Timestamp,Value,Unit".

(** *** The page over a run of readings *)

Module PageRun.

Section Run.

Context {host : Host} {tr : StatsTracker}.

(** The 'reading' listener called for each event of [l], oldest first. *)
Definition listen (l : list (Page.clock * Reading.t)) (st : Page.state)
  : Page.state :=
  fold_left (fun st x => Page.on_reading (fst x) (snd x) st) l st.

(** The readings of [l] whose value is a number. *)
Definition numbers (l : list (Page.clock * Reading.t))
  : list (Page.clock * jsnumber * jsstring) :=
  flat_map (fun x => match Reading.value (snd x) with
                     | Some v => [(fst x, v, Reading.unit (snd x))]
                     | None => []
                     end) l.

(** The listener called for the reading of each line. *)
Definition on_lines (lines : list (Page.clock * jsstring)) (st : Page.state)
  : Page.state :=
  listen (map (fun x => (fst x, reading_of (snd x))) lines) st.

End Run.

End PageRun.

(** The elements the 'reading' listener writes to, by id: those of
    [updateReadout] and of [updateStats]. *)
Definition listener_ids : list string :=
  ["readoutValue"; "readoutUnit"; "readoutTime";
   "statMin"; "statMax"; "statMean"; "statStddev"; "statCount"]%string.

(** A row whose value is a number: neither [null] nor NaN. *)
Definition numeric_entry (e : Recorder.entry) : Prop :=
  exists v, Recorder.value e = Some v /\ isNaN v = false.

(** The code unit of the digit zero. *)
Definition is_zero (c : codeunit) : bool := (c =? 48)%N.

(** [s] without the zeros at its end. *)
Definition without_trailing_zeros (s : jsstring) : jsstring :=
  rev (dropWhile is_zero (rev s)).

(* ================================================================== *)
(** ** The page: polling the scale (main.js) *)
(* ================================================================== *)

(** [startMeasurement], [stopMeasurement] and what runs them: the two buttons,
    the 'disconnected' listener, and the timers they set, those of the toasts
    they show included; with them the other listeners of [wireConnection],
    which write to the same log and show toasts of their own.  The window's
    timers are modelled as the list of those that are live; it hands out
    handles that are positive integers, each one once, and runs a live timer
    whenever it chooses.  The state of the buttons and the looks of a toast
    are rendering and are left out; the record buttons and the demo mode are
    not part of the model. *)
Module Measurement.

Definition timer : Type := positive.

(** What a timer runs. *)
Inductive task : Type :=
| Poll                        (* () => conn.send('SI'), set by setInterval *)
| NoResponse (before : Z)     (* the check set by setTimeout, with the
                                 [before] it has closed over *)
| Dismiss.                    (* the dismissal of a toast, set by showToast *)

Record timer_entry : Type := Timer {
  handle : timer;
  delay : Z;
  what : task
}.

(** The module-level variables of main.js that the polling touches, the live
    timers of the window, the commands given to [conn.send] and the messages
    given to [appendLog], whether the document has the element
    'toastContainer', and the toasts put into it, with their types; all lists
    oldest first. *)
Record state : Type := State {
  measurementInterval : option timer;
  measurementTimeout : option timer;
  lastReadingTime : Z;
  timers : list timer_entry;
  next_handle : timer;
  sent : list jsstring;
  logged : list jsstring;
  toastContainer : bool;
  toasts : list (jsstring * string)
}.

(** The page as it is loaded, with or without the element 'toastContainer'. *)
Definition initial (container : bool) : state :=
  State None None 0 [] 1%positive [] [] container [].

(** [setInterval(f, delay)] and [setTimeout(f, delay)]: the handle, and the
    state with the timer live. *)
Definition set_timer (d : Z) (w : task) (st : state) : timer * state :=
  let h := next_handle st in
  (h, State (measurementInterval st) (measurementTimeout st)
        (lastReadingTime st) (timers st ++ [Timer h d w]) (Pos.succ h)
        (sent st) (logged st) (toastContainer st) (toasts st)).

(** [clearInterval(h)] and [clearTimeout(h)]; with [null] nothing is done. *)
Definition clear_timer (h : option timer) (st : state) : state :=
  match h with
  | None => st
  | Some h =>
      State (measurementInterval st) (measurementTimeout st)
        (lastReadingTime st)
        (filter (fun e => negb (handle e =? h)%positive) (timers st))
        (next_handle st) (sent st) (logged st) (toastContainer st)
        (toasts st)
  end.

Definition appendLog (message : jsstring) (st : state) : state :=
  State (measurementInterval st) (measurementTimeout st) (lastReadingTime st)
    (timers st) (next_handle st) (sent st) (logged st ++ [message])
    (toastContainer st) (toasts st).

(** ui.js [showToast(message, type, duration)]: without the container nothing
    is done; with it the toast is shown, and its dismissal set to run after
    [duration], if that is positive. *)
Definition showToast (message : jsstring) (type : string) (duration : Z)
  (st : state) : state :=
  if toastContainer st then
    let st :=
      State (measurementInterval st) (measurementTimeout st)
        (lastReadingTime st) (timers st) (next_handle st) (sent st)
        (logged st) (toastContainer st) (toasts st ++ [(message, type)]) in
    if (0 <? duration)%Z then snd (set_timer duration Dismiss st) else st
  else st.

Definition set_measurementInterval (v : option timer) (st : state) : state :=
  State v (measurementTimeout st) (lastReadingTime st) (timers st)
    (next_handle st) (sent st) (logged st) (toastContainer st) (toasts st).

Definition set_measurementTimeout (v : option timer) (st : state) : state :=
  State (measurementInterval st) v (lastReadingTime st) (timers st)
    (next_handle st) (sent st) (logged st) (toastContainer st) (toasts st).

Definition NO_READINGS : jsstring :=
  lit "WARNING: No readings received from scale".

(** The text of the toast of the check; its dash is U+2014. *)
Definition NO_RESPONSE : jsstring :=
  lit "No response from scale " ++ [8212%N]
    ++ lit " is it connected and powered on?".

Section Polling.

Context {host : Host}.

(** [startMeasurement()]; [samplingRate] is what [parseInt] makes of the
    selector's value, [None] for NaN. *)
Definition startMeasurement (samplingRate : option Z) (st : state) : state :=
  match measurementInterval st with
  | Some _ => st
  | None =>
      let rate :=
        match samplingRate with
        | Some r => if (r =? 0)%Z then 1000%Z else r
        | None => 1000%Z
        end in
      let before := lastReadingTime st in
      let (i, st) := set_timer rate Poll st in
      let st := set_measurementInterval (Some i) st in
      let st :=
        appendLog (lit "Measurement started (every "
                     ++ number_toString (decimal rate 0) ++ lit " ms)") st in
      let st :=
        showToast (lit "Measurement polling every "
                     ++ number_toString (decimal rate 0) ++ lit " ms")
          "info" 4000 st in
      let (t, st) := set_timer 3000 (NoResponse before) st in
      set_measurementTimeout (Some t) st
  end.

(** [stopMeasurement()] *)
Definition stopMeasurement (st : state) : state :=
  match measurementInterval st with
  | None => st
  | Some _ =>
      let st := clear_timer (measurementInterval st) st in
      let st := clear_timer (measurementTimeout st) st in
      let st := set_measurementInterval None st in
      let st := set_measurementTimeout None st in
      appendLog (lit "Measurement stopped") st
  end.

(** The window runs the timer [h], if it is live: a tick of the interval, or
    a timeout, which is then no longer live. *)
Definition fire (h : timer) (st : state) : state :=
  match find (fun e => (handle e =? h)%positive) (timers st) with
  | None => st
  | Some e =>
      match what e with
      | Poll =>
          State (measurementInterval st) (measurementTimeout st)
            (lastReadingTime st) (timers st) (next_handle st)
            (sent st ++ [lit "SI"]) (logged st) (toastContainer st)
            (toasts st)
      | NoResponse before =>
          let st := clear_timer (Some h) st in
          match measurementInterval st with
          | Some _ =>
              if (lastReadingTime st =? before)%Z
              then appendLog NO_READINGS
                     (showToast NO_RESPONSE "error" 6000 st)
              else st
          | None => st
          end
      | Dismiss => clear_timer (Some h) st
      end
  end.

(** What happens to the page. *)
Inductive input : Type :=
| StartClick (samplingRate : option Z)   (* a click on 'startMeasure' *)
| StopClick                              (* a click on 'stopMeasure' *)
| Disconnected                           (* a 'disconnected' event *)
| ReadingAt (now : Z)                    (* a 'reading' event, Date.now() *)
| Fires (h : timer)                      (* the window runs a timer *)
| Connected                              (* a 'connected' event *)
| Logged (message : jsstring)            (* a 'log' event *)
| Failed (message : jsstring).           (* an 'error' event *)

Definition step (st : state) (i : input) : state :=
  match i with
  | StartClick samplingRate => startMeasurement samplingRate st
  | StopClick => stopMeasurement st
  | Disconnected =>
      showToast (lit "Disconnected") "info" 4000
        (appendLog (lit "Disconnected") (stopMeasurement st))
  | ReadingAt now =>
      State (measurementInterval st) (measurementTimeout st) now (timers st)
        (next_handle st) (sent st) (logged st) (toastContainer st)
        (toasts st)
  | Fires h => fire h st
  | Connected =>
      showToast (lit "Connected to scale") "success" 4000
        (appendLog (lit "Connected") st)
  | Logged message => appendLog message st
  | Failed message =>
      showToast message "error" 6000
        (appendLog (lit "ERROR: " ++ message) st)
  end.

Definition run (ins : list input) (st : state) : state := fold_left step ins st.

End Polling.

(** A timer of the polling: the interval or the check, not the dismissal of a
    toast. *)
Definition of_polling (e : timer_entry) : bool :=
  match what e with
  | Poll | NoResponse _ => true
  | Dismiss => false
  end.

(** The timers of the polling are accounted for: none is live when the page
    is not polling; when it is, the interval it holds is live and polls, and
    the only other one that can be live is the timeout it holds. *)
Definition accounted (st : state) : Prop :=
  match measurementInterval st with
  | None => filter of_polling (timers st) = []
  | Some i =>
      exists d,
        filter of_polling (timers st) = [Timer i d Poll] \/
        exists t before,
          measurementTimeout st = Some t /\ t <> i /\
          filter of_polling (timers st)
          = [Timer i d Poll; Timer t 3000 (NoResponse before)]
  end.

(** The handles of the live timers are those the window has given out, each
    to one timer. *)
Definition well_timed (st : state) : Prop :=
  Forall (fun e => (handle e < next_handle st)%positive) (timers st) /\
  NoDup (map handle (timers st)).

Definition is_reading_at (i : input) : bool :=
  match i with ReadingAt _ => true | _ => false end.

(** An input that neither stops the polling nor brings a reading nor runs the
    timer [t]. *)
Definition idle_for (t : timer) (i : input) : bool :=
  match i with
  | StartClick _ | Connected | Logged _ | Failed _ => true
  | Fires h => negb (h =? t)%positive
  | StopClick | Disconnected | ReadingAt _ => false
  end.

(** The timer [t], as long as it is live, is the check of one start, the one
    that found the time of the last reading to be [b]. *)
Definition check_of (t : timer) (b : Z) (st : state) : Prop :=
  (t < next_handle st)%positive /\
  forall e, In e (timers st) -> handle e = t ->
            e = Timer t 3000 (NoResponse b).

(** The page polls, no reading has come since the start that found the time
    of the last reading to be [b], and that start's timeout [t0] is still to
    run. *)
Definition unanswered (t0 : timer) (b : Z) (st : state) : Prop :=
  measurementInterval st <> None /\
  lastReadingTime st = b /\
  find (fun e => (handle e =? t0)%positive) (timers st)
  = Some (Timer t0 3000 (NoResponse b)).

End Measurement.

(* ================================================================== *)
(** * Properties *)
(* ================================================================== *)

(** ** Strings *)

Lemma span_app (p : codeunit -> bool) (s : jsstring) :
  fst (span p s) ++ snd (span p s) = s.
Proof.
  induction s as [|c s IH]; simpl; [reflexivity|].
  destruct (p c); [|reflexivity].
  destruct (span p s) as [a b]; simpl in *. now rewrite IH.
Qed.

Lemma span_dropWhile (p : codeunit -> bool) (s : jsstring) :
  snd (span p s) = dropWhile p s.
Proof.
  induction s as [|c s IH]; simpl; [reflexivity|].
  destruct (p c); [|reflexivity].
  destruct (span p s) as [a b]; simpl in *. exact IH.
Qed.

Lemma span_all (p : codeunit -> bool) (s : jsstring) :
  forallb p (fst (span p s)) = true.
Proof.
  induction s as [|c s IH]; simpl; [reflexivity|].
  destruct (p c) eqn:E; [|reflexivity].
  destruct (span p s) as [a b]; simpl in *. rewrite E. exact IH.
Qed.

(** What follows a span does not start in the class. *)
Lemma span_stops (p : codeunit -> bool) (s : jsstring) :
  match snd (span p s) with c :: _ => p c = false | [] => True end.
Proof.
  induction s as [|c s IH]; simpl; [exact I|].
  destruct (p c) eqn:E; [|exact E].
  destruct (span p s) as [a b]; simpl in *. exact IH.
Qed.

Lemma span_exact (p : codeunit -> bool) (a b : jsstring) :
  forallb p a = true ->
  match b with c :: _ => p c = false | [] => True end ->
  span p (a ++ b) = (a, b).
Proof.
  intros Ha Hb. induction a as [|c a IH]; simpl in *.
  - destruct b as [|c b]; [reflexivity|]. simpl. now rewrite Hb.
  - apply andb_prop in Ha. destruct Ha as [Hc Ha].
    rewrite Hc, (IH Ha). reflexivity.
Qed.

Lemma consumed_app (a b : jsstring) : consumed (a ++ b) b = a.
Proof.
  unfold consumed. rewrite length_app.
  replace (List.length a + List.length b - List.length b)%nat
    with (List.length a + 0)%nat by lia.
  rewrite firstn_app_2. simpl. apply app_nil_r.
Qed.

Lemma consumed_span (p : codeunit -> bool) (s : jsstring) :
  consumed s (dropWhile p s) = fst (span p s).
Proof.
  rewrite <- span_dropWhile.
  rewrite <- (span_app p s) at 1. apply consumed_app.
Qed.

(** ** The line pattern *)

Lemma m_Cat a b s c k : m (Cat a b) s c k = m a s c (fun s1 c1 => m b s1 c1 k).
Proof. reflexivity. Qed.

Lemma m_Opt a s c k :
  m (Opt a) s c k = match m a s c k with Some r => Some r | None => k s c end.
Proof. reflexivity. Qed.

Lemma m_Cap i a s c k :
  m (Cap i a) s c k = m a s c (fun s1 c1 => k s1 ((i, consumed s s1) :: c1)).
Proof. reflexivity. Qed.

Lemma m_Chr p s c k :
  m (Chr p) s c k =
  match s with x :: s' => if p x then k s' c else None | [] => None end.
Proof. reflexivity. Qed.

(** A greedy star never gives back when what follows cannot fail. *)
Lemma star_total (p : codeunit -> bool) (k : cont) (s : jsstring) (c : captures) :
  (forall s' c', k s' c' <> None) ->
  star p s c k = k (dropWhile p s) c.
Proof.
  intros Hk. induction s as [|x s IH]; simpl; [reflexivity|].
  destruct (p x); [|reflexivity].
  rewrite IH. destruct (k (dropWhile p s) c) eqn:E; [reflexivity|].
  now apply Hk in E.
Qed.

Lemma m_tail (s : jsstring) (c : captures) :
  m tail_pattern s c (fun _ c' => Some c')
  = Some ((3%nat, ReadingParserSpec.trailing_unit s) :: c).
Proof.
  unfold tail_pattern, ReadingParserSpec.trailing_unit. simpl.
  rewrite star_total.
  - rewrite star_total by discriminate.
    now rewrite consumed_span.
  - intros s' c'. rewrite star_total by discriminate. discriminate.
Qed.

(** [\d+] before something that cannot fail. *)
Lemma m_digits (k : cont) (s : jsstring) (c : captures) :
  (forall s' c', k s' c' <> None) ->
  m (Plus is_digit) s c k =
  match span is_digit s with
  | ([], _) => None
  | (_, s2) => k s2 c
  end.
Proof.
  intros Hk. destruct s as [|x s]; simpl; [reflexivity|].
  destruct (is_digit x); [|reflexivity].
  rewrite star_total by exact Hk.
  rewrite <- span_dropWhile. now destruct (span is_digit s).
Qed.

Lemma m_fraction (k : cont) (s : jsstring) (c : captures) :
  (forall s' c', k s' c' <> None) ->
  m fraction_pattern s c k =
  let (fp, s3) := ReadingParserSpec.take_fraction s in
  k s3 (fraction_capture fp ++ c).
Proof.
  intros Hk. unfold fraction_pattern, ReadingParserSpec.take_fraction.
  rewrite m_Opt, m_Cap, m_Cat, m_Chr. destruct s as [|x s]; [reflexivity|].
  unfold is_dot at 1. destruct (x =? DOT)%N eqn:Ex; [|reflexivity].
  apply N.eqb_eq in Ex. subst x.
  rewrite m_digits by (intros; apply Hk).
  pose proof (span_app is_digit s) as Happ.
  destruct (span is_digit s) as [ds rest]; simpl in Happ.
  destruct ds as [|d ds]; [reflexivity|].
  subst s.
  change (DOT :: (d :: ds) ++ rest) with ((DOT :: d :: ds) ++ rest).
  rewrite consumed_app.
  destruct (k rest (fraction_capture (DOT :: d :: ds) ++ c)) eqn:E; [|now apply Hk in E].
  simpl in E. rewrite E. reflexivity.
Qed.

Lemma take_fraction_app (s : jsstring) :
  fst (ReadingParserSpec.take_fraction s) ++ snd (ReadingParserSpec.take_fraction s) = s.
Proof.
  unfold ReadingParserSpec.take_fraction.
  destruct s as [|x s]; [reflexivity|].
  destruct (x =? DOT)%N; [|reflexivity].
  pose proof (span_app is_digit s) as Happ.
  destruct (span is_digit s) as [ds rest]; simpl in Happ.
  destruct ds as [|d ds]; [reflexivity|]. simpl. now rewrite <- Happ.
Qed.

Lemma LINE_PATTERN_parts :
  LINE_PATTERN
  = Cat (Cap 1 (Cat (Opt (Chr is_minus)) number_pattern)) tail_pattern.
Proof. reflexivity. Qed.

(** Digits and fraction at [s1], inside group 1 opened at [sign ++ s1]. *)
Lemma m_number (sign s1 : jsstring) :
  m number_pattern s1 []
    (fun s' c' =>
       m tail_pattern s' ((1%nat, consumed (sign ++ s1) s') :: c')
         (fun _ c => Some c))
  = match span is_digit s1 with
    | ([], _) => None
    | (ip, s2) =>
        let (fp, s3) := ReadingParserSpec.take_fraction s2 in
        Some (line_captures (sign, ip, fp, s3))
    end.
Proof.
  assert (Htail : forall s' c',
    m tail_pattern s' ((1%nat, consumed (sign ++ s1) s') :: c')
      (fun _ c => Some c) <> None).
  { intros. rewrite m_tail. discriminate. }
  assert (Hfrac : forall s' c',
    m fraction_pattern s' c'
      (fun s'' c'' =>
         m tail_pattern s'' ((1%nat, consumed (sign ++ s1) s'') :: c'')
           (fun _ c => Some c)) <> None).
  { intros. rewrite m_fraction by exact Htail.
    destruct (ReadingParserSpec.take_fraction s'). apply Htail. }
  unfold number_pattern. rewrite m_Cat, m_digits by exact Hfrac.
  pose proof (span_app is_digit s1) as Hip.
  destruct (span is_digit s1) as [ip s2]; simpl in Hip.
  destruct ip as [|d ip]; [reflexivity|].
  rewrite m_fraction by exact Htail.
  pose proof (take_fraction_app s2) as Hfp.
  destruct (ReadingParserSpec.take_fraction s2) as [fp s3]; simpl in Hfp.
  rewrite m_tail. unfold line_captures. rewrite app_nil_r.
  subst s2 s1.
  replace (sign ++ (d :: ip) ++ fp ++ s3) with ((sign ++ (d :: ip) ++ fp) ++ s3)
    by now rewrite <- !app_assoc.
  now rewrite consumed_app.
Qed.

(** The pattern at one start position is the literal that starts there. *)
Lemma match_at_line (s : jsstring) :
  match_at LINE_PATTERN s
  = option_map line_captures (ReadingParserSpec.literal_here s).
Proof.
  unfold match_at. rewrite LINE_PATTERN_parts, m_Cat, m_Cap, m_Cat, m_Opt, m_Chr.
  unfold ReadingParserSpec.literal_here.
  destruct s as [|x s].
  - pose proof (m_number [] []) as H. cbn [app] in H. rewrite H. reflexivity.
  - unfold is_minus. destruct (x =? MINUS)%N eqn:Ex.
    + apply N.eqb_eq in Ex. subst x.
      pose proof (m_number [MINUS] s) as H. cbn [app] in H. rewrite H. clear H.
      destruct (span is_digit s) as [ip s2].
      destruct ip as [|d ip].
      * pose proof (m_number [] (MINUS :: s)) as H. cbn [app] in H.
        rewrite H. reflexivity.
      * now destruct (ReadingParserSpec.take_fraction s2).
    + pose proof (m_number [] (x :: s)) as H. cbn [app] in H. rewrite H.
      destruct (span is_digit (x :: s)) as [ip s2].
      destruct ip as [|d ip]; [reflexivity|].
      now destruct (ReadingParserSpec.take_fraction s2).
Qed.

(** The leftmost match of the pattern is the first literal of the line. *)
Lemma exec_line (s : jsstring) :
  exec LINE_PATTERN s
  = option_map line_captures (ReadingParserSpec.first_literal s).
Proof.
  induction s as [|x s IH].
  - reflexivity.
  - cbn [exec ReadingParserSpec.first_literal].
    rewrite match_at_line.
    destruct (ReadingParserSpec.literal_here (x :: s)); [reflexivity|].
    exact IH.
Qed.

(** ** Literals *)

Lemma digit_cases (c : codeunit) :
  is_digit c = true ->
  (c = 48 \/ c = 49 \/ c = 50 \/ c = 51 \/ c = 52 \/
   c = 53 \/ c = 54 \/ c = 55 \/ c = 56 \/ c = 57)%N.
Proof.
  unfold is_digit. rewrite andb_true_iff, !N.leb_le. lia.
Qed.

Lemma digit_not_space (c : codeunit) : is_digit c = true -> is_space c = false.
Proof.
  intros H. apply digit_cases in H.
  repeat (destruct H as [H|H]; [subst c; reflexivity|]). subst c. reflexivity.
Qed.

Lemma digit_not_sign (c : codeunit) :
  is_digit c = true -> (c =? MINUS)%N = false /\ (c =? 43)%N = false.
Proof.
  intros H. apply digit_cases in H.
  repeat (destruct H as [H|H]; [subst c; split; reflexivity|]).
  subst c. split; reflexivity.
Qed.

Lemma take_fraction_shape (s : jsstring) :
  fraction_shape (fst (ReadingParserSpec.take_fraction s)).
Proof.
  unfold ReadingParserSpec.take_fraction, fraction_shape.
  destruct s as [|x s]; [now left|].
  destruct (x =? DOT)%N eqn:Ex; [|now left].
  apply N.eqb_eq in Ex. subst x.
  pose proof (span_all is_digit s) as Hall.
  destruct (span is_digit s) as [ds rest]; simpl in Hall.
  destruct ds as [|d ds]; [now left|].
  right. exists (d :: ds). repeat split; [discriminate|exact Hall].
Qed.

Lemma literal_here_shape (s sign ip fp rest : jsstring) :
  ReadingParserSpec.literal_here s = Some (sign, ip, fp, rest) ->
  s = sign ++ ip ++ fp ++ rest /\
  (sign = [] \/ sign = [MINUS]) /\
  ip <> [] /\ forallb is_digit ip = true /\
  fraction_shape fp.
Proof.
  unfold ReadingParserSpec.literal_here.
  set (sg := match s with
             | c :: t => if (c =? MINUS)%N then ([c], t) else ([], s)
             | [] => ([], [])
             end).
  assert (Hsg : s = fst sg ++ snd sg /\ (fst sg = [] \/ fst sg = [MINUS])).
  { subst sg. destruct s as [|x s]; [now split; [|left]|].
    destruct (x =? MINUS)%N eqn:Ex.
    - apply N.eqb_eq in Ex. subst x. split; [reflexivity|now right].
    - split; [reflexivity|now left]. }
  destruct sg as [sg s1]. simpl in Hsg. destruct Hsg as [Hs Hsign].
  pose proof (span_app is_digit s1) as Hip.
  pose proof (span_all is_digit s1) as Hall.
  destruct (span is_digit s1) as [ip' s2]; simpl in Hip, Hall.
  destruct ip' as [|d ip']; [discriminate|].
  pose proof (take_fraction_app s2) as Hfp.
  pose proof (take_fraction_shape s2) as Hshape.
  destruct (ReadingParserSpec.take_fraction s2) as [fp' s3]; simpl in Hfp, Hshape.
  intros H. injection H as <- <- <- <-.
  repeat split; try assumption; [|discriminate].
  now rewrite Hfp, Hip.
Qed.

Lemma literal_is_numeric (sign ip fp : jsstring) :
  (sign = [] \/ sign = [MINUS]) ->
  ip <> [] -> forallb is_digit ip = true -> fraction_shape fp ->
  ReadingParserSpec.numeric_literal (sign ++ ip ++ fp).
Proof.
  intros. now constructor.
Qed.

(** [parseFloat] on a numeric literal is the value the literal denotes. *)
Lemma parseFloat_literal (sign ip fp : jsstring) :
  (sign = [] \/ sign = [MINUS]) ->
  ip <> [] -> forallb is_digit ip = true -> fraction_shape fp ->
  parseFloat (sign ++ ip ++ fp)
  = ReadingParserSpec.literal_value sign ip fp.
Proof.
  intros Hsign Hne Hip Hfp.
  destruct ip as [|d ip]; [contradiction|].
  assert (Hd : is_digit d = true) by (simpl in Hip; now apply andb_prop in Hip).
  assert (Hspan : span is_digit ((d :: ip) ++ fp) = (d :: ip, fp)).
  { apply span_exact; [exact Hip|].
    destruct Hfp as [->|(ds & -> & _)]; [exact I|reflexivity]. }
  assert (Hfrac :
    match fp with
    | c :: t => if (c =? DOT)%N then fst (span is_digit t) else []
    | [] => []
    end = tl fp).
  { destruct Hfp as [->|(ds & -> & _ & Hds)]; [reflexivity|].
    simpl. rewrite <- (app_nil_r ds) at 1.
    now rewrite span_exact. }
  unfold parseFloat, ReadingParserSpec.literal_value.
  cbn [app] in Hspan.
  destruct Hsign as [->| ->].
  - cbn [app dropWhile]. rewrite (digit_not_space _ Hd).
    destruct (digit_not_sign _ Hd) as [-> ->].
    rewrite Hspan, Hfrac. reflexivity.
  - cbn [app dropWhile]. change (is_space MINUS) with false. cbv iota.
    rewrite N.eqb_refl, Hspan, Hfrac. reflexivity.
Qed.

Lemma literal_here_none (s : jsstring) :
  ReadingParserSpec.literal_here s = None ->
  match s with c :: _ => is_digit c = false | [] => True end.
Proof.
  unfold ReadingParserSpec.literal_here.
  destruct s as [|x s]; [trivial|].
  destruct (x =? MINUS)%N eqn:Ex.
  - apply N.eqb_eq in Ex. subst x. reflexivity.
  - cbn [span]. destruct (is_digit x); [|reflexivity].
    destruct (span is_digit s) as [a b].
    now destruct (ReadingParserSpec.take_fraction b).
Qed.

(** What the first literal of a line is: it is a numeric literal, no digit
    comes before it, and no digit follows it directly. *)
Lemma first_literal_sound (s sign ip fp rest : jsstring) :
  ReadingParserSpec.first_literal s = Some (sign, ip, fp, rest) ->
  exists pre,
    s = pre ++ sign ++ ip ++ fp ++ rest /\
    existsb is_digit pre = false /\
    (sign = [] \/ sign = [MINUS]) /\
    ip <> [] /\ forallb is_digit ip = true /\ fraction_shape fp.
Proof.
  induction s as [|x s IH]; cbn [ReadingParserSpec.first_literal].
  - destruct (ReadingParserSpec.literal_here []) eqn:E; [|discriminate].
    intros H. injection H as ->. exists []. split; [|split; [reflexivity|]];
      now apply literal_here_shape in E.
  - destruct (ReadingParserSpec.literal_here (x :: s)) eqn:E.
    + intros H. injection H as ->. exists [].
      split; [|split; [reflexivity|]]; now apply literal_here_shape in E.
    + intros H. destruct (IH H) as (pre & Hs & Hpre & Hrest).
      exists (x :: pre). split; [now rewrite Hs|].
      split; [|exact Hrest].
      apply literal_here_none in E. simpl. now rewrite E, Hpre.
Qed.

Lemma span_nil_head (p : codeunit -> bool) (s : jsstring) :
  fst (span p s) = [] ->
  match s with c :: _ => p c = false | [] => True end.
Proof.
  destruct s as [|c s]; [trivial|]. simpl.
  destruct (p c); [|reflexivity].
  destruct (span p s). discriminate.
Qed.

(** A literal is as long as it can be: no digit follows it, and if it has no
    fraction, no point and digit follow it. *)
Lemma literal_here_maximal (s sign ip fp rest : jsstring) :
  ReadingParserSpec.literal_here s = Some (sign, ip, fp, rest) ->
  longest fp rest.
Proof.
  unfold ReadingParserSpec.literal_here, longest.
  destruct (match s with
            | c :: t => if (c =? MINUS)%N then ([c], t) else ([], s)
            | [] => ([], [])
            end) as [sg s1].
  pose proof (span_stops is_digit s1) as Hstop.
  destruct (span is_digit s1) as [ip' s2]; simpl in Hstop.
  destruct ip' as [|d ip']; [discriminate|].
  unfold ReadingParserSpec.take_fraction.
  destruct s2 as [|c t].
  { intros H. injection H as <- <- <- <-. split; [exact I|trivial]. }
  destruct (c =? DOT)%N eqn:Ec.
  - apply N.eqb_eq in Ec. subst c.
    pose proof (span_stops is_digit t) as Hstop2.
    pose proof (span_nil_head is_digit t) as Hnil.
    destruct (span is_digit t) as [ds rest']; simpl in Hstop2, Hnil.
    destruct ds as [|d' ds].
    + intros H. injection H as <- <- <- <-. split; [reflexivity|].
      intros _. destruct t as [|c' t']; [exact I|].
      intros _. now apply Hnil.
    + intros H. injection H as <- <- <- <-. split; [exact Hstop2|].
      discriminate.
  - intros H. injection H as <- <- <- <-. split; [exact Hstop|].
    intros _. destruct t as [|c' t']; [exact I|].
    intros ->. discriminate.
Qed.

Lemma literal_here_after_minus (d : codeunit) (t : jsstring) :
  is_digit d = true ->
  ReadingParserSpec.literal_here (MINUS :: d :: t) <> None.
Proof.
  intros Hd. unfold ReadingParserSpec.literal_here.
  rewrite N.eqb_refl. cbn [span]. rewrite Hd.
  destruct (span is_digit t) as [a b].
  now destruct (ReadingParserSpec.take_fraction b).
Qed.

(** The first literal starts as far left as a literal can: no digit comes
    before it, and if it has no sign, no minus sign touches it. *)
Lemma first_literal_leftmost (s sign ip fp rest : jsstring) :
  ReadingParserSpec.first_literal s = Some (sign, ip, fp, rest) ->
  exists pre,
    s = pre ++ sign ++ ip ++ fp ++ rest /\
    leftmost pre sign /\ longest fp rest.
Proof.
  unfold leftmost.
  induction s as [|x s IH]; cbn [ReadingParserSpec.first_literal].
  - destruct (ReadingParserSpec.literal_here []) eqn:E; [|discriminate].
    intros H. injection H as ->. exists [].
    split; [now apply literal_here_shape in E|].
    split; [|now apply literal_here_maximal in E].
    split; [reflexivity|]. intros _ pre' H. now destruct pre'.
  - destruct (ReadingParserSpec.literal_here (x :: s)) eqn:E.
    + intros H. injection H as ->. exists [].
      split; [now apply literal_here_shape in E|].
      split; [|now apply literal_here_maximal in E].
      split; [reflexivity|]. intros _ pre' H. now destruct pre'.
    + intros H. pose proof H as H0. apply first_literal_sound in H0.
      destruct H0 as (_ & _ & _ & _ & Hne & Hip & _).
      destruct (IH H) as (pre & Hs & (Hpre & Hminus) & Hlong).
      exists (x :: pre). split; [now rewrite Hs|].
      split; [|exact Hlong].
      split.
      * apply literal_here_none in E. simpl. now rewrite E, Hpre.
      * intros Hsign pre' Heq.
        destruct pre' as [|y pre'].
        -- cbn [app] in Heq. injection Heq as -> ->.
           subst sign. cbn [app] in Hs.
           destruct ip as [|d ip]; [contradiction|].
           cbn [forallb] in Hip. apply andb_prop in Hip as [Hd _].
           subst s. now apply (literal_here_after_minus d (ip ++ fp ++ rest) Hd).
        -- cbn [app] in Heq. injection Heq as _ Heq.
           exact (Hminus Hsign pre' Heq).
Qed.

Lemma first_literal_none (s : jsstring) :
  ReadingParserSpec.first_literal s = None <-> existsb is_digit s = false.
Proof.
  split.
  - induction s as [|x s IH]; [reflexivity|].
    cbn [ReadingParserSpec.first_literal].
    destruct (ReadingParserSpec.literal_here (x :: s)) eqn:E; [discriminate|].
    intros H. apply literal_here_none in E. simpl. now rewrite E, (IH H).
  - intros Hno.
    destruct (ReadingParserSpec.first_literal s) as [[[[sign ip] fp] rest]|] eqn:E;
      [|reflexivity].
    apply first_literal_sound in E.
    destruct E as (pre & -> & _ & _ & Hne & Hip & _).
    destruct ip as [|d ip]; [contradiction|].
    rewrite existsb_app in Hno. apply orb_false_elim in Hno as [_ Hno].
    rewrite existsb_app in Hno. apply orb_false_elim in Hno as [_ Hno].
    simpl in Hno, Hip. apply andb_prop in Hip as [Hd _].
    rewrite Hd in Hno. discriminate.
Qed.

(** ** C1 *)

Lemma reading_of_refines_spec (line : jsstring) :
  reading_of line = ReadingParserSpec.parse line.
Proof.
  unfold reading_of, ReadingParserSpec.parse. rewrite exec_line.
  destruct (ReadingParserSpec.first_literal line)
    as [[[[sign ip] fp] rest]|] eqn:E; [|reflexivity].
  apply first_literal_sound in E.
  destruct E as (pre & _ & _ & Hsign & Hne & Hip & Hfp).
  cbn [option_map line_captures capture Nat.eqb parseFloat_capture or_empty].
  rewrite parseFloat_literal by assumption.
  now destruct (ReadingParserSpec.trailing_unit rest).
Qed.

Lemma reading_of_raw (line : jsstring) : Reading.raw (reading_of line) = line.
Proof.
  unfold reading_of. now destruct (exec LINE_PATTERN line).
Qed.

(** C1.  [#parseLine] is the best-effort scan of the design document: the
    reading it emits is the one the document's parser gives, whose [raw] is the
    line; on a line without a digit (no numeric literal) the value is [null]
    and the unit empty; on any other line the line splits into what precedes
    the first numeric literal, that literal, taken as far left and as long as
    a literal can be, and a rest, the value being the number the literal
    denotes and the unit the letters, percent signs and slashes that follow it
    after optional white space.  The four examples of the
    document hold. *)
Theorem parseLine_best_effort_scan :
  (forall line,
     parseLine line
     = [log (lit "Received: " ++ line); reading (reading_of line)]
     /\ reading_of line = ReadingParserSpec.parse line)
  /\ (forall line, Reading.raw (reading_of line) = line)
  /\ (forall line,
        existsb is_digit line = false ->
        reading_of line = Reading.mk line None [])
  /\ (forall line,
        existsb is_digit line = true ->
        exists pre sign ip fp rest,
          line = pre ++ (sign ++ ip ++ fp) ++ rest /\
          ReadingParserSpec.numeric_literal (sign ++ ip ++ fp) /\
          leftmost pre sign /\ longest fp rest /\
          parseFloat (sign ++ ip ++ fp)
            = ReadingParserSpec.literal_value sign ip fp /\
          reading_of line
            = Reading.mk line
                (Some (parseFloat (sign ++ ip ++ fp)))
                (fst (span is_unit_char (dropWhile is_space rest))))
  /\ parseLine (lit "S S     120.45 g")
       = [log (lit "Received: S S     120.45 g");
          reading (Reading.mk (lit "S S     120.45 g")
                     (Some (decimal 12045 2)) (lit "g"))]
  /\ parseLine (lit "120.45")
       = [log (lit "Received: 120.45");
          reading (Reading.mk (lit "120.45") (Some (decimal 12045 2)) [])]
  /\ parseLine (lit "ES")
       = [log (lit "Received: ES"); reading (Reading.mk (lit "ES") None [])]
  /\ parseLine (lit "-3.2 %")
       = [log (lit "Received: -3.2 %");
          reading (Reading.mk (lit "-3.2 %")
                     (Some (decimal (-32) 1)) (lit "%"))].
Proof.
  split; [intros line; split; [reflexivity|apply reading_of_refines_spec]|].
  split; [exact reading_of_raw|].
  split.
  { intros line Hno. apply first_literal_none in Hno.
    rewrite reading_of_refines_spec.
    unfold ReadingParserSpec.parse. now rewrite Hno. }
  split.
  { intros line Hdig. rewrite reading_of_refines_spec.
    unfold ReadingParserSpec.parse.
    destruct (ReadingParserSpec.first_literal line)
      as [[[[sign ip] fp] rest]|] eqn:E.
    - pose proof (first_literal_leftmost _ _ _ _ _ E) as (pre & Hs & Hleft & Hlong).
      apply first_literal_sound in E.
      destruct E as (_ & _ & _ & Hsign & Hne & Hip & Hfp).
      exists pre, sign, ip, fp, rest.
      split; [now rewrite <- !app_assoc|].
      split; [now apply literal_is_numeric|].
      split; [exact Hleft|]. split; [exact Hlong|].
      split; [now apply parseFloat_literal|].
      now rewrite parseFloat_literal.
    - apply first_literal_none in E. congruence. }
  repeat split; vm_compute; reflexivity.
Qed.

(** Rounding a quotient that is not negative never gives NaN. *)
Lemma shr_1_nonneg (mrs : shr_record) :
  (0 <= shr_m mrs)%Z -> (0 <= shr_m (shr_1 mrs))%Z.
Proof.
  destruct mrs as [m r s]. cbn [shr_m]. intros Hm.
  destruct m as [|p|p]; [cbn; lia| |lia].
  destruct p; cbn; lia.
Qed.

Lemma iter_shr_1_nonneg (p : positive) (mrs : shr_record) :
  (0 <= shr_m mrs)%Z -> (0 <= shr_m (iter_pos shr_1 p mrs))%Z.
Proof.
  revert mrs. induction p as [p IH|p IH|]; intros mrs Hm; cbn [iter_pos].
  - apply IH, IH. now apply shr_1_nonneg.
  - now apply IH, IH.
  - now apply shr_1_nonneg.
Qed.

Lemma shr_fexp_nonneg (m e : Z) (l : location) :
  (0 <= m)%Z -> (0 <= shr_m (fst (shr_fexp 53 1024 m e l)))%Z.
Proof.
  intros Hm. unfold shr_fexp, shr.
  assert (H0 : (0 <= shr_m (shr_record_of_loc m l))%Z)
    by (destruct l as [|[]]; exact Hm).
  destruct (fexp 53 1024 (Zdigits2 m + e) - e)%Z; cbn [fst]; try exact H0.
  now apply iter_shr_1_nonneg.
Qed.

Lemma round_nearest_even_nonneg (m : Z) (l : location) :
  (0 <= m)%Z -> (0 <= round_nearest_even m l)%Z.
Proof.
  intros Hm. unfold round_nearest_even.
  destruct l as [|[]]; try assumption; [destruct (Z.even m)|]; lia.
Qed.

Lemma binary_round_aux_not_NaN (s : bool) (m e : Z) (l : location) :
  (0 <= m)%Z -> binary_round_aux 53 1024 s m e l <> S754_nan.
Proof.
  intros Hm. unfold binary_round_aux.
  pose proof (shr_fexp_nonneg m e l Hm) as H1.
  destruct (shr_fexp 53 1024 m e l) as [mrs' e']. cbn [fst] in H1.
  pose proof (shr_fexp_nonneg
                (round_nearest_even (shr_m mrs') (loc_of_shr_record mrs')) e'
                loc_Exact (round_nearest_even_nonneg _ _ H1)) as H2.
  destruct (shr_fexp 53 1024
              (round_nearest_even (shr_m mrs') (loc_of_shr_record mrs')) e'
              loc_Exact) as [mrs'' e'']. cbn [fst] in H2.
  destruct (shr_m mrs'') as [|p|p]; [discriminate| |lia].
  destruct (e'' <=? 1024 - 53)%Z; discriminate.
Qed.

Lemma nearest_double_not_NaN (neg : bool) (num : Z) (den : positive) :
  (0 <= num)%Z -> nearest_double neg num den <> S754_nan.
Proof.
  intros Hnum. unfold nearest_double, SFdiv_core_binary.
  set (e' := Z.min _ _). set (m' := match (0 - 0 - e')%Z with
                                    | Z0 => num
                                    | Zpos _ => Z.shiftl num (0 - 0 - e')
                                    | Zneg _ => 0%Z
                                    end).
  assert (Hm' : (0 <= m')%Z).
  { subst m'. destruct (0 - 0 - e')%Z eqn:E; [exact Hnum| |lia].
    apply Z.shiftl_nonneg. exact Hnum. }
  pose proof (Z.div_eucl_eq m' (Zpos den) ltac:(discriminate)) as Heq.
  pose proof (Z.mod_pos_bound m' (Zpos den) ltac:(lia)) as Hmod.
  unfold Z.modulo in Hmod.
  destruct (Z.div_eucl m' (Zpos den)) as [q r].
  apply binary_round_aux_not_NaN. nia.
Qed.

Lemma digits_val_nonneg (ds : jsstring) :
  forallb is_digit ds = true -> (0 <= digits_val ds)%Z.
Proof.
  unfold digits_val.
  assert (H : forall acc, (0 <= acc)%Z -> forallb is_digit ds = true ->
              (0 <= fold_left (fun a c => 10 * a + digit_val c) ds acc)%Z).
  { induction ds as [|c ds IH]; intros acc Hacc Hds; [exact Hacc|].
    cbn [fold_left forallb] in *. apply andb_prop in Hds as [Hc Hds].
    apply IH; [|exact Hds].
    unfold digit_val, is_digit in *.
    apply andb_prop in Hc as [Hc _]. apply N.leb_le in Hc. lia. }
  apply H. lia.
Qed.

(** X6.  The value of a reading is [null] or a number, never NaN: what the pattern
    captures, [parseFloat] reads whole. *)
Theorem reading_value_is_never_NaN (line : jsstring) :
  Reading.value (reading_of line) <> Some NaN.
Proof.
  rewrite reading_of_refines_spec. unfold ReadingParserSpec.parse.
  destruct (ReadingParserSpec.first_literal line)
    as [[[[sign ip] fp] rest]|] eqn:E; [|discriminate].
  apply first_literal_sound in E.
  destruct E as (_ & _ & _ & _ & _ & Hip & Hfp).
  cbn [Reading.value]. intros H. injection H as H. revert H.
  apply nearest_double_not_NaN, digits_val_nonneg.
  rewrite forallb_app, Hip.
  destruct Hfp as [->|(ds & -> & _ & Hds)]; [reflexivity|exact Hds].
Qed.

(** ** Line framing *)

Lemma split_nl_nonempty (s : jsstring) : split_nl s <> [].
Proof.
  destruct s as [|c s]; simpl; [discriminate|].
  destruct (c =? LF)%N; [discriminate|].
  destruct (split_nl s); discriminate.
Qed.

Lemma removelast_cons_nonempty {A} (a : A) (l : list A) :
  l <> [] -> removelast (a :: l) = a :: removelast l.
Proof. destruct l; [contradiction|reflexivity]. Qed.

Lemma last_cons_nonempty {A} (a d : A) (l : list A) :
  l <> [] -> last (a :: l) d = last l d.
Proof. destruct l; [contradiction|reflexivity]. Qed.

Lemma last_app_nonempty {A} (l l' : list A) (d : A) :
  l' <> [] -> last (l ++ l') d = last l' d.
Proof.
  intros Hne. induction l as [|a l IH]; [reflexivity|].
  cbn [app]. rewrite last_cons_nonempty; [exact IH|].
  destruct l; [exact Hne|discriminate].
Qed.

(** Splitting a concatenation: the complete segments of the first part, then
    the split of its last segment followed by the second part. *)
Lemma split_nl_app (x y : jsstring) :
  split_nl (x ++ y)
  = removelast (split_nl x) ++ split_nl (last (split_nl x) [] ++ y).
Proof.
  induction x as [|c x IH]; [reflexivity|].
  cbn [app split_nl]. destruct (c =? LF)%N eqn:Ec.
  - rewrite removelast_cons_nonempty, last_cons_nonempty
      by apply split_nl_nonempty.
    simpl. now rewrite IH.
  - rewrite IH. pose proof (split_nl_nonempty x) as Hne.
    destruct (split_nl x) as [|seg rest]; [contradiction|].
    destruct rest as [|seg' rest].
    + cbn [removelast last app split_nl]. now rewrite Ec.
    + reflexivity.
Qed.

Lemma split_nl_no_LF (s : jsstring) :
  existsb (N.eqb LF) s = false -> split_nl s = [s].
Proof.
  induction s as [|c s IH]; [reflexivity|].
  cbn [existsb split_nl]. rewrite (N.eqb_sym LF c).
  destruct (c =? LF)%N; [discriminate|].
  cbn [orb]. intros H. now rewrite (IH H).
Qed.

(** The segment kept for the next call holds no line feed. *)
Lemma last_split_nl_no_LF (s : jsstring) :
  existsb (N.eqb LF) (last (split_nl s) []) = false.
Proof.
  induction s as [|c s IH]; [reflexivity|].
  cbn [split_nl]. destruct (c =? LF)%N eqn:Ec.
  - rewrite last_cons_nonempty by apply split_nl_nonempty. exact IH.
  - pose proof (split_nl_nonempty s) as Hne.
    destruct (split_nl s) as [|seg rest]; [contradiction|].
    destruct rest as [|seg' rest]; [|exact IH].
    cbn [last existsb] in *. now rewrite (N.eqb_sym LF c), Ec.
Qed.

Section Framing.

Context {codec : TextCodec}.

Import WebSerialTransport.

(** The decoder is a state machine: a chunk boundary does not show. *)
Lemma decode_app (d : decoder) (a b : list Byte.byte) :
  decode d (a ++ b)
  = let (d1, t1) := decode d a in
    let (d2, t2) := decode d1 b in
    (d2, t1 ++ t2).
Proof.
  revert d. induction a as [|x a IH]; intros d; cbn [app decode].
  - now destruct (decode d b).
  - destruct (decode_byte d x) as [d1 t1]. rewrite IH.
    destruct (decode d1 a) as [d2 t2]. destruct (decode d2 b) as [d3 t3].
    now rewrite app_assoc.
Qed.

(** Feeding two chunks in a row is feeding them as one. *)
Lemma feed_app (st : decoder * jsstring) (a b : list Byte.byte) :
  feed st (a ++ b)
  = let (out1, st1) := feed st a in
    let (out2, st2) := feed st1 b in
    (out1 ++ out2, st2).
Proof.
  destruct st as [d buffer]. unfold feed. rewrite decode_app.
  destruct (decode d a) as [d1 t1]. destruct (decode d1 b) as [d2 t2].
  rewrite app_assoc, split_nl_app.
  set (l1 := split_nl (buffer ++ t1)).
  set (l2 := split_nl (last l1 [] ++ t2)).
  assert (Hne : l2 <> []) by apply split_nl_nonempty.
  rewrite removelast_app by exact Hne.
  rewrite last_app_nonempty by exact Hne.
  now rewrite map_app, filter_app.
Qed.

Lemma feed_nil (d : decoder) (buffer : jsstring) :
  existsb (N.eqb LF) buffer = false ->
  feed (d, buffer) [] = ([], (d, buffer)).
Proof.
  intros H. unfold feed. cbn [decode]. rewrite app_nil_r.
  now rewrite (split_nl_no_LF _ H).
Qed.

(** The pending buffer never holds a line feed. *)
Lemma feed_buffer_no_LF (st : decoder * jsstring) (value : list Byte.byte) :
  existsb (N.eqb LF) (snd (snd (feed st value))) = false.
Proof.
  destruct st as [d buffer]. unfold feed.
  destruct (decode d value) as [d' text]. apply last_split_nl_no_LF.
Qed.

End Framing.


Lemma feed_all_concat {codec : TextCodec}
  (d : decoder) (buffer : jsstring) (chunks : list (list Byte.byte)) :
  existsb (N.eqb LF) buffer = false ->
  WebSerialTransport.feed_all (d, buffer) chunks
  = WebSerialTransport.feed (d, buffer) (List.concat chunks).
Proof.
  revert d buffer. induction chunks as [|value rest IH]; intros d buffer Hb.
  - cbn [WebSerialTransport.feed_all List.concat]. now rewrite feed_nil.
  - cbn [WebSerialTransport.feed_all List.concat]. rewrite feed_app.
    pose proof (feed_buffer_no_LF (d, buffer) value) as Hb1.
    destruct (WebSerialTransport.feed (d, buffer) value) as [out1 [d1 b1]].
    simpl in Hb1. now rewrite (IH d1 b1 Hb1).
Qed.


(** ** The transport's monad *)

Section TransportFacts.

Context {codec : TextCodec}.

Import WebSerialTransport SysFacts.

Local Open Scope js_scope.

Lemma add_events_nil (s : sys) : add_events [] s = s.
Proof. destruct s. unfold add_events. simpl. now rewrite app_nil_r. Qed.

Lemma add_events_app (a b : list event) (s : sys) :
  add_events b (add_events a s) = add_events (a ++ b) s.
Proof. unfold add_events. simpl. now rewrite app_assoc. Qed.

Lemma emit_all_run (es : list event) (s : sys) :
  emit_all es s = (Normal tt, add_events es s).
Proof.
  revert s. induction es as [|e es IH]; intros s.
  - simpl. unfold ret. now rewrite add_events_nil.
  - cbn [emit_all]. unfold bind at 1. unfold emit at 1.
    rewrite IH. unfold add_events. simpl. now rewrite <- app_assoc.
Qed.

Lemma for_lines_run (lines : list jsstring) (s : sys) :
  for_lines lines s
  = (Normal tt,
     add_events (flat_map parseLine (filter truthy (map trimmed_of lines))) s).
Proof.
  revert s. induction lines as [|line rest IH]; intros s.
  - simpl. unfold ret. now rewrite add_events_nil.
  - cbn [for_lines map filter]. unfold bind at 1.
    destruct (truthy (trimmed_of line)).
    + rewrite emit_all_run, IH, add_events_app. reflexivity.
    + unfold ret. now rewrite IH.
Qed.

(** The loop over turns that only deliver values, followed by other turns: it
    emits what the framing yields and goes on with the framing's state. *)
Lemma loop_plain_then (pre rest : list read_step) (d : decoder)
  (buffer : jsstring) (s : sys) :
  plain pre = true ->
  readLoopRunning (self s) = true ->
  loop (pre ++ rest) d buffer s
  = loop rest
      (fst (snd (feed_all (d, buffer) (values_of pre))))
      (snd (snd (feed_all (d, buffer) (values_of pre))))
      (add_events
         (flat_map parseLine (fst (feed_all (d, buffer) (values_of pre)))) s).
Proof.
  revert d buffer s. induction pre as [|turn pre IH]; intros d buffer s Hp Hrun.
  - cbn [app values_of flat_map feed_all fst snd]. now rewrite add_events_nil.
  - cbn [plain forallb] in Hp. apply andb_prop in Hp as [Ht Hp].
    unfold plain_turn in Ht. apply andb_prop in Ht as [Hstop Hres].
    apply negb_true_iff in Hstop.
    destruct turn as [stop res]. cbn [result stop_requested] in *. subst stop.
    cbn [app loop]. unfold bind at 1. unfold get at 1. cbv beta iota. rewrite Hrun.
    cbn [stop_requested result]. unfold bind at 1. unfold ret at 1. cbv beta iota.
    destruct res as [[value|]| |]; try discriminate.
    + change (values_of (ReadStep false (ReadValue (Some value)) :: pre))
        with (value :: values_of pre).
      cbn [feed_all]. unfold feed.
      destruct (decode d value) as [d' text].
      unfold bind at 1. rewrite for_lines_run. cbv beta iota.
      rewrite IH by assumption.
      destruct (feed_all (d', last (split_nl (buffer ++ text)) []) (values_of pre))
        as [out2 [d2 b2]].
      cbn [fst snd]. rewrite add_events_app, flat_map_app. reflexivity.
    + change (values_of (ReadStep false (ReadValue None) :: pre))
        with (values_of pre).
      now apply IH.
Qed.

(** With no turn left, the loop ends suspended in the next read. *)
Lemma loop_plain (script : list read_step) (d : decoder) (buffer : jsstring)
  (s : sys) :
  plain script = true ->
  readLoopRunning (self s) = true ->
  loop script d buffer s
  = (Normal (Awaiting (fst (snd (feed_all (d, buffer) (values_of script))))
                      (snd (snd (feed_all (d, buffer) (values_of script))))),
     add_events
       (flat_map parseLine (fst (feed_all (d, buffer) (values_of script)))) s).
Proof.
  intros Hp Hrun. rewrite <- (app_nil_r script) at 1.
  rewrite loop_plain_then by assumption.
  cbn [loop]. unfold bind, get, ret. cbn [add_events self]. now rewrite Hrun.
Qed.

Lemma no_error_in_lines (lines : list jsstring) :
  filter is_error (flat_map parseLine lines) = [].
Proof.
  induction lines as [|l lines IH]; [reflexivity|]. simpl. exact IH.
Qed.

End TransportFacts.

(** ** C2 *)

(** C2.  Chunk-boundary invariance of the line framing.  Whatever the decoder
    state and the pending buffer (which never holds a line feed), feeding
    chunks one at a time produces the same trimmed lines, and leaves the same
    pending buffer and decoder state, as feeding their concatenation as one
    chunk.  So in the read loop: two deliveries of the same bytes, however
    each is cut in chunks, make the loop emit the same events and leave it
    waiting with the same buffer. *)
Theorem chunk_boundary_invariance {codec : TextCodec}
  (d : decoder) (buffer : jsstring) (chunks : list (list Byte.byte)) :
  existsb (N.eqb LF) buffer = false ->
  WebSerialTransport.feed_all (d, buffer) chunks
  = WebSerialTransport.feed (d, buffer) (List.concat chunks)
  /\
  forall (script : list read_step) (s : WebSerialTransport.sys),
    plain script = true ->
    WebSerialTransport.readLoopRunning (WebSerialTransport.self s) = true ->
    List.concat (values_of script) = List.concat chunks ->
    WebSerialTransport.loop script d buffer s
    = WebSerialTransport.loop (deliver [List.concat chunks]) d buffer s.
Proof.
  intros Hb. split; [exact (feed_all_concat d buffer chunks Hb)|].
  intros script s Hp Hrun Hsame.
  rewrite !loop_plain by (assumption || reflexivity).
  rewrite !feed_all_concat by assumption.
  change (values_of (deliver [List.concat chunks])) with [List.concat chunks].
  rewrite Hsame. cbn [List.concat]. now rewrite app_nil_r.
Qed.

Lemma chunk_boundary_invariance_witness :
  WebSerialTransport.feed_all (codec := ascii_codec) (tt, []) sample_chunks
  = WebSerialTransport.feed (codec := ascii_codec) (tt, []) (List.concat sample_chunks)
  /\
  WebSerialTransport.loop (codec := ascii_codec) (deliver sample_chunks) tt []
    SysFacts.reading_state
  = WebSerialTransport.loop (codec := ascii_codec)
      (deliver [List.concat sample_chunks]) tt [] SysFacts.reading_state.
Proof.
  destruct (chunk_boundary_invariance (codec := ascii_codec) tt [] sample_chunks)
    as [Hfeed Hloop]; [reflexivity|].
  split; [exact Hfeed|].
  apply Hloop; reflexivity.
Defined.

(** X5.  The segment the read loop keeps for the next chunk never holds a line
    feed: every line feed received so far has ended a line that was handed
    on. *)
Theorem pending_buffer_has_no_line_feed {codec : TextCodec}
  (st : decoder * jsstring) (value : list Byte.byte) :
  existsb (N.eqb LF) (snd (snd (WebSerialTransport.feed st value))) = false.
Proof.
  exact (feed_buffer_no_LF st value).
Qed.

(** ** C3 *)

Section ReadingEvents.

Context {codec : TextCodec}.

Import WebSerialTransport SysFacts.

(** The start of [#readLoop()] on a transport that holds a port. *)
Lemma readLoop_start (o : oracle) (script : list read_step) (s : sys) :
  port (self s) <> None -> o getReader = None ->
  readLoop o script s
  = readLoop_try o script new_TextDecoder []
      (Sys (Fields (port (self s)) (writer (self s)) (Some theReader) true)
           (effect getReader (plat s)) (events s) (calls s ++ [getReader])).
Proof.
  intros Hport Hget. unfold readLoop.
  unfold bind at 1. unfold get at 1. cbv beta iota.
  destruct (port (self s)) eqn:Ep; [|contradiction].
  unfold bind at 1. unfold on_field, platform. rewrite Hget. cbv beta iota zeta.
  unfold bind, set_reader, set_readLoopRunning, modify.
  cbn [self plat events calls port writer reader readLoopRunning].
  now rewrite Ep.
Qed.

Lemma count_readings (lines : list jsstring) :
  List.length (filter is_reading (flat_map parseLine lines)) = List.length lines.
Proof.
  induction lines as [|l lines IH]; [reflexivity|].
  simpl. now rewrite IH.
Qed.

(** The whole of [#readLoop()] over turns that only deliver values. *)
Lemma readLoop_plain (o : oracle) (script : list read_step) (s : sys) :
  port (self s) <> None -> o getReader = None -> plain script = true ->
  readLoop o script s
  = (Normal
       (Awaiting
          (fst (decode new_TextDecoder (List.concat (values_of script))))
          (last (split_nl
                   (snd (decode new_TextDecoder (List.concat (values_of script)))))
                [])),
     Sys (Fields (port (self s)) (writer (self s)) (Some theReader) true)
         (effect getReader (plat s))
         (events s ++
          flat_map parseLine
            (complete_lines
               (snd (decode new_TextDecoder (List.concat (values_of script))))))
         (calls s ++ [getReader])).
Proof.
  intros Hport Hget Hplain.
  rewrite readLoop_start by assumption.
  unfold readLoop_try. rewrite loop_plain by (assumption || reflexivity).
  rewrite feed_all_concat by reflexivity.
  unfold feed. cbn [app].
  destruct (decode new_TextDecoder (List.concat (values_of script))) as [d' text].
  reflexivity.
Qed.

(** C3.  On a transport that holds a port and gets its reader, whatever the
    chunks in which the input arrives, the read loop emits, for each complete
    line of the decoded input that is not empty once trimmed and in the order
    of arrival, one 'log' event carrying the line directly followed by one
    'reading' event whose [raw] is that line, be its value a number or [null];
    it emits nothing else, and it is left waiting for the next read with the
    unfinished segment as its buffer. *)
Theorem one_reading_per_complete_line
  (o : oracle) (script : list read_step) (s : sys) :
  port (self s) <> None -> o getReader = None -> plain script = true ->
  exists s',
    readLoop o script s
    = (Normal
         (Awaiting
            (fst (decode new_TextDecoder (List.concat (values_of script))))
            (last (split_nl
                     (snd (decode new_TextDecoder (List.concat (values_of script)))))
                  [])),
       s') /\
    events s'
    = events s ++
      flat_map (fun l => [log (lit "Received: " ++ l); reading (reading_of l)])
        (complete_lines
           (snd (decode new_TextDecoder (List.concat (values_of script))))) /\
    List.length (filter is_reading (events s'))
    = (List.length (filter is_reading (events s)) +
       List.length
         (complete_lines
            (snd (decode new_TextDecoder (List.concat (values_of script))))))%nat /\
    (forall l, Reading.raw (reading_of l) = l).
Proof.
  intros Hport Hget Hplain.
  rewrite readLoop_plain by assumption.
  eexists. split; [reflexivity|].
  cbn [events]. split; [reflexivity|].
  split; [|exact reading_of_raw].
  rewrite filter_app, length_app. f_equal. apply count_readings.
Qed.

End ReadingEvents.

Lemma one_reading_per_complete_line_witness :
  exists s',
    WebSerialTransport.readLoop (codec := ascii_codec) all_succeed
      (deliver sample_chunks) SysFacts.opened
    = (WebSerialTransport.Normal
         (WebSerialTransport.Awaiting (codec := ascii_codec) tt []), s') /\
    WebSerialTransport.events s'
    = [log (lit "Received: S S     100.00 g");
       reading (Reading.mk (lit "S S     100.00 g")
                  (Some (decimal 10000 2)) (lit "g"));
       log (lit "Received: S S     100.05 g");
       reading (Reading.mk (lit "S S     100.05 g")
                  (Some (decimal 10005 2)) (lit "g"))].
Proof.
  destruct (one_reading_per_complete_line (codec := ascii_codec) all_succeed
              (deliver sample_chunks) SysFacts.opened)
    as (s' & Hrun & Hev & _); [discriminate|reflexivity|reflexivity|].
  exists s'. split; [exact Hrun|]. rewrite Hev. vm_compute. reflexivity.
Defined.

(** ** The transport's contracts *)

Module TransportContracts.

Import WebSerialTransport SysFacts.

(** Running the monad's combinators. *)
Ltac run :=
  unfold connect, disconnect, send, readLoop, readLoop_try, readLoop_finally,
    readLoop_catch, not_awaited, await_while, try_catch, bind, throw, ret,
    get, emit,
    on_field, platform, set_port, set_writer, set_reader, set_readLoopRunning,
    modify;
  cbn [self plat events calls port writer reader readLoopRunning fst snd loop].

Section Contracts.

Context {codec : TextCodec}.

(** *** C4 *)

(** C4, as the code has it.  When a step of [connect()] fails, be it the port
    request, the opening of the port or the acquisition of the writer,
    [connect()] emits one 'error' event that carries the cause's message and
    fails with that cause.  It makes no call that releases anything: the calls
    it has made are the steps up to the failing one, the port it was granted
    stays in [#port], and a port it has opened stays open.  When no step fails
    it completes normally. *)
Theorem connect_failure_reported_not_released (o : oracle) (s : sys) :
  match o requestPort, o port_open, o getWriter with
  | Some err, _, _ =>
      connect o s
      = (Throw err,
         Sys (self s) (plat s)
             (events s ++ [error (lit "Connect failed: " ++ message err)])
             (calls s ++ [requestPort]))
  | None, Some err, _ =>
      connect o s
      = (Throw err,
         Sys (Fields (Some thePort) (writer (self s)) (reader (self s))
                     (readLoopRunning (self s)))
             (plat s)
             (events s ++ [error (lit "Connect failed: " ++ message err)])
             (calls s ++ [requestPort; port_open]))
  | None, None, Some err =>
      connect o s
      = (Throw err,
         Sys (Fields (Some thePort) (writer (self s)) (reader (self s))
                     (readLoopRunning (self s)))
             (World true (writable_locked (plat s)) (readable_locked (plat s)))
             (events s ++ [error (lit "Connect failed: " ++ message err)])
             (calls s ++ [requestPort; port_open; getWriter]))
  | None, None, None =>
      exists s',
        connect o s = (Normal tt, s') /\
        port (self s') = Some thePort /\ writer (self s') = Some theWriter /\
        filter is_error (events s') = filter is_error (events s)
  end.
Proof.
  destruct s as [[p w r run] pl ev cl].
  destruct (o requestPort) as [e1|] eqn:E1.
  { run. rewrite E1. reflexivity. }
  destruct (o port_open) as [e2|] eqn:E2.
  { run. rewrite E1. run. rewrite E2. run. now rewrite <- app_assoc. }
  destruct (o getWriter) as [e3|] eqn:E3.
  { run. rewrite E1. run. rewrite E2. run. rewrite E3. run.
    now rewrite <- !app_assoc. }
  run. rewrite E1. run. rewrite E2. run. rewrite E3. run.
  eexists. split; [reflexivity|].
  destruct (o getReader); run;
    (split; [reflexivity|]); (split; [reflexivity|]);
    rewrite !filter_app; simpl; now rewrite !app_nil_r.
Qed.


(** *** C5 and C6 *)

Ltac ask_oracle o :=
  repeat (run;
          match goal with
          | |- context [match o ?c with _ => _ end] => destruct (o c) eqn:?
          end);
  run.

(** C6.  [disconnect()] always completes normally.  Its three teardown steps
    are attempted one after the other whatever became of the ones before: the
    reader, when one is held, is cancelled, and its lock released, by the read
    loop if it ends while [disconnect()] waits, else by [disconnect()] itself
    if the cancellation is fulfilled; the writer, when one is held, is
    released; the port, when one is held, is closed.  Of all failures only
    that of [port.close()] is emitted as an 'error', and the events always end
    with 'disconnected' and the closing 'log'. *)
Theorem disconnect_best_effort (o : oracle) (loop_wakes : bool) (s : sys) :
  exists s',
    disconnect o loop_wakes s = (Normal tt, s') /\
    calls s'
    = calls s ++ reader_calls o loop_wakes (self s) ++ writer_calls (self s)
        ++ port_calls (self s) /\
    events s'
    = events s ++ close_errors o (self s)
        ++ [disconnected; log (lit "Serial port closed")] /\
    readLoopRunning (self s') = false /\
    (reader (self s) <> None -> In reader_cancel (calls s')) /\
    (writer (self s) <> None -> In writer_releaseLock (calls s')) /\
    (port (self s) <> None -> In port_close (calls s')).
Proof.
  destruct s as [[p w r running] pl ev cl].
  unfold reader_calls, writer_calls, port_calls, close_errors.
  cbn [self port writer reader].
  destruct r as [r|], w as [w|], p as [p|], loop_wakes;
    ask_oracle o;
    (eexists; split; [reflexivity|]);
    cbn [self plat events calls port writer reader readLoopRunning];
    rewrite <- ?app_assoc; cbn [app];
    rewrite ?app_nil_r;
    repeat split; try reflexivity; try congruence;
    intros _; rewrite ?in_app_iff; simpl; tauto.
Qed.

(** C5, as the code has it.  On a transport that holds no reader, writer or
    port, [disconnect()] releases nothing and fails at nothing: it makes no
    platform call, leaves the three fields empty and the platform objects as
    they are (the read-loop flag is set off, as a disconnect leaves it),
    completes normally and emits no 'error'.  It is not a no-op: it emits
    'disconnected' and the closing 'log', as every [disconnect()] does.  After
    a [disconnect()] whose steps all succeed the transport holds nothing,
    whatever it held before, and a second [disconnect()] leaves it in exactly
    that state, whatever the platform would answer. *)
Theorem disconnect_idempotent (o : oracle) (w w' : bool) (s : sys) :
  (released (self s) ->
   disconnect o w s
   = (Normal tt,
      Sys (Fields None None None false) (plat s)
          (events s ++ [disconnected; log (lit "Serial port closed")])
          (calls s)))
  /\
  (exists s1 s2,
     disconnect all_succeed w s = (Normal tt, s1) /\
     self s1 = Fields None None None false /\
     disconnect o w' s1 = (Normal tt, s2) /\
     self s2 = self s1 /\ plat s2 = plat s1 /\ calls s2 = calls s1 /\
     events s2 = events s1 ++ [disconnected; log (lit "Serial port closed")]).
Proof.
  destruct s as [[p wr r running] pl ev cl]. split.
  - unfold released. cbn [self port writer reader].
    intros (-> & -> & ->). run. now rewrite <- app_assoc.
  - destruct r as [r|], wr as [wr|], p as [p|], w;
      (eexists; eexists; split; [vm_compute; reflexivity|]);
      (split; [reflexivity|]); run;
      (split; [reflexivity|]);
      repeat split; now rewrite <- ?app_assoc.
Qed.

(** *** C7 *)

(** C7.  Without a writer, [send(cmd)] emits one 'error' event, 'Not
    connected', makes no platform call, so writes nothing, and completes
    normally rather than throwing.  With a writer, its one platform call is
    the write of the trimmed command followed by CR LF, encoded; for a command
    token, which has no white space around it, that is the command itself
    followed by CR LF; and when the write succeeds, [send] completes normally
    after a 'log'. *)
Theorem send_contract (o : oracle) (cmd : jsstring) (s : sys) :
  (writer (self s) = None ->
   send o cmd s
   = (Normal tt,
      Sys (self s) (plat s) (events s ++ [error (lit "Not connected")])
          (calls s)))
  /\
  (writer (self s) <> None ->
   calls (snd (send o cmd s))
   = calls s ++ [writer_write (TextEncoder_encode (trim cmd ++ [CR; LF]))] /\
   (trim cmd = cmd ->
    calls (snd (send o cmd s))
    = calls s ++ [writer_write (TextEncoder_encode (cmd ++ [CR; LF]))]) /\
   (o (writer_write (TextEncoder_encode (trim cmd ++ [CR; LF]))) = None ->
    send o cmd s
    = (Normal tt,
       Sys (self s) (plat s) (events s ++ [log (lit "Sent: " ++ trim cmd)])
           (calls s ++ [writer_write (TextEncoder_encode (trim cmd ++ [CR; LF]))])))).
Proof.
  destruct s as [[p wr r running] pl ev cl]. cbn [self writer]. split.
  - intros ->. reflexivity.
  - intros Hw. destruct wr as [wr|]; [|contradiction].
    split; [|split].
    + run. now destruct (o _).
    + intros Ht. run. rewrite Ht. now destruct (o _).
    + intros Hok. run. now rewrite Hok.
Qed.


(** *** C8 *)

(** C8.  The read loop has a reader and is running; after turns that deliver
    values, a read fails.  If [disconnect()] cleared the running flag while
    that read was pending, no 'error' is emitted; if not, exactly one 'error'
    is emitted, 'Read error: ' and the cause's message, after the events of
    the lines received.  In both cases the loop returns, normally, its
    [finally] block having called [releaseLock()] on the reader and cleared
    [#reader]; the turns that would have followed are not taken. *)
Theorem read_error_suppressed_when_stopping
  (o : oracle) (pre rest : list read_step) (stop : bool) (err : JsError)
  (d : decoder) (buffer : jsstring) (s : sys) :
  plain pre = true ->
  readLoopRunning (self s) = true ->
  reader (self s) <> None ->
  exists s',
    readLoop_try o (pre ++ ReadStep stop (ReadThrow err) :: rest) d buffer s
    = (Normal Finished, s') /\
    events s'
    = events s
      ++ flat_map parseLine (fst (feed_all (d, buffer) (values_of pre)))
      ++ (if stop then [] else [error (lit "Read error: " ++ message err)]) /\
    filter is_error (events s')
    = filter is_error (events s)
      ++ (if stop then [] else [error (lit "Read error: " ++ message err)]) /\
    reader (self s') = None /\
    calls s' = calls s ++ [reader_releaseLock] /\
    (o reader_releaseLock = None -> readable_locked (plat s') = false).
Proof.
  intros Hp Hrun Hreader.
  unfold readLoop_try. rewrite loop_plain_then by assumption.
  set (out := flat_map parseLine (fst (feed_all (d, buffer) (values_of pre)))).
  assert (Hout : filter is_error out = []) by apply no_error_in_lines.
  destruct s as [[p wr r running] pl ev cl].
  cbn [self readLoopRunning reader] in Hrun, Hreader. subst running.
  destruct r as [r|]; [|contradiction].
  unfold add_events. cbn [loop]. run. cbn [stop_requested result].
  destruct stop; run;
    destruct (o reader_releaseLock) eqn:Eo; run;
    (eexists; split; [reflexivity|]);
    cbn [self plat events calls reader readable_locked effect];
    rewrite ?filter_app, ?Hout, <- ?app_assoc, ?app_nil_r;
    repeat split; try reflexivity; try discriminate.
Qed.

(** *** Further properties of the transport *)

(** X2.  A rejected write is not caught by [send]: it fails with the cause, and
    emits neither 'error' nor 'log'. *)
Theorem send_write_failure_propagates
  (o : oracle) (cmd : jsstring) (err : JsError) (s : sys) :
  writer (self s) <> None ->
  o (writer_write (TextEncoder_encode (trim cmd ++ [CR; LF]))) = Some err ->
  send o cmd s
  = (Throw err,
     Sys (self s) (plat s) (events s)
         (calls s ++ [writer_write (TextEncoder_encode (trim cmd ++ [CR; LF]))])).
Proof.
  destruct s as [[p wr r running] pl ev cl]. cbn [self writer].
  intros Hw Ho. destruct wr as [wr|]; [|contradiction].
  run. now rewrite Ho.
Qed.

(** X3.  When every step succeeds, [connect()] requests and opens the port, takes
    the writer, emits 'connected' and then the 'log', and starts the read loop,
    which takes the reader and waits in its first read. *)
Theorem connect_success (o : oracle) (s : sys) :
  o requestPort = None -> o port_open = None -> o getWriter = None ->
  o getReader = None ->
  connect o s
  = (Normal tt,
     Sys (Fields (Some thePort) (Some theWriter) (Some theReader) true)
         (World true true true)
         (events s ++ [connected; log (lit "Serial port opened (9600 8N1)")])
         (calls s ++ [requestPort; port_open; getWriter; getReader])).
Proof.
  destruct s as [[p wr r running] pl ev cl].
  intros H1 H2 H3 H4. run. rewrite H1. run. rewrite H2. run. rewrite H3. run.
  rewrite H4. run. now rewrite <- !app_assoc.
Qed.

(** X4.  After a read error the transport still holds its port and its writer, and
    the running flag is as the error found it: nothing reconnects or tears
    down by itself. *)
Theorem read_error_leaves_transport_held
  (o : oracle) (pre rest : list read_step) (stop : bool) (err : JsError)
  (d : decoder) (buffer : jsstring) (s : sys) :
  plain pre = true ->
  readLoopRunning (self s) = true ->
  self (snd (readLoop_try o (pre ++ ReadStep stop (ReadThrow err) :: rest)
               d buffer s))
  = Fields (port (self s)) (writer (self s)) None (negb stop).
Proof.
  intros Hp Hrun.
  unfold readLoop_try. rewrite loop_plain_then by assumption.
  destruct s as [[p wr r running] pl ev cl].
  cbn [self readLoopRunning] in Hrun. subst running.
  unfold add_events. cbn [loop]. run. cbn [stop_requested result].
  destruct stop, r as [r|]; run; try destruct (o reader_releaseLock); reflexivity.
Qed.
End Contracts.


(** C4, as the design document has it, fails: the writer cannot be acquired,
    [connect()] fails, and the port it has opened is still open and still held;
    no [port.close()] was called. *)
Lemma connect_leaves_port_open :
  (exists err s',
     connect (codec := ascii_codec) writer_fails initial = (Throw err, s') /\
     port_opened (plat s') = true /\
     port (self s') = Some thePort /\
     calls s' = [requestPort; port_open; getWriter])
  /\ ~ releases_on_failure (codec := ascii_codec) writer_fails initial.
Proof.
  split.
  - eexists. eexists. split; [vm_compute; reflexivity|]. repeat split.
  - intros H.
    destruct (H (Err (lit "The stream is locked"))
                (Sys (Fields (Some thePort) None None false)
                     (World true false false)
                     [error (lit "Connect failed: The stream is locked")]
                     [requestPort; port_open; getWriter]))
      as [Hplat _]; [vm_compute; reflexivity|].
    discriminate Hplat.
Qed.

(** C5, as the design document has it, fails: on a transport that holds
    nothing [disconnect()] is not a no-op, for it emits 'disconnected' and the
    closing 'log'; and so does every further call. *)
Lemma disconnect_of_nothing_emits :
  released (self initial)
  /\ events (snd (disconnect all_succeed false initial))
     = [disconnected; log (lit "Serial port closed")]
  /\ events (snd (disconnect all_succeed false
                    (snd (disconnect all_succeed false initial))))
     = [disconnected; log (lit "Serial port closed");
        disconnected; log (lit "Serial port closed")]
  /\ ~ disconnect_is_no_op all_succeed false initial.
Proof.
  split; [now repeat split|]. split; [reflexivity|]. split; [reflexivity|].
  unfold disconnect_is_no_op. intros H.
  apply (f_equal (fun r => events (snd r))) in H. discriminate H.
Qed.

Lemma send_contract_witness :
  send (codec := ascii_codec) all_succeed (lit "SI") opened
  = (Normal tt,
     Sys (self opened) (plat opened) [log (lit "Sent: SI")]
         [writer_write [Byte.x53; Byte.x49; Byte.x0d; Byte.x0a]]).
Proof.
  destruct (send_contract (codec := ascii_codec) all_succeed (lit "SI") opened)
    as [_ H].
  destruct H as (_ & _ & H); [discriminate|].
  rewrite H by reflexivity. vm_compute. reflexivity.
Defined.

Lemma read_error_suppressed_when_stopping_witness :
  (exists s',
     readLoop_try (codec := ascii_codec) all_succeed
       (deliver sample_chunks
          ++ ReadStep true (ReadThrow (Err (lit "The device has been lost")))
          :: [])
       tt [] reading_state
     = (Normal Finished, s') /\
     filter is_error (events s') = [] /\ reader (self s') = None)
  /\
  (exists s',
     readLoop_try (codec := ascii_codec) all_succeed
       (deliver sample_chunks
          ++ ReadStep false (ReadThrow (Err (lit "The device has been lost")))
          :: [])
       tt [] reading_state
     = (Normal Finished, s') /\
     filter is_error (events s')
     = [error (lit "Read error: The device has been lost")] /\
     reader (self s') = None).
Proof.
  split.
  - destruct (read_error_suppressed_when_stopping (codec := ascii_codec)
                all_succeed (deliver sample_chunks) [] true
                (Err (lit "The device has been lost")) tt [] reading_state)
      as (s' & Hrun & _ & Herr & Hreader & _);
      [reflexivity|reflexivity|discriminate|].
    exists s'. split; [exact Hrun|]. split; [exact Herr|exact Hreader].
  - destruct (read_error_suppressed_when_stopping (codec := ascii_codec)
                all_succeed (deliver sample_chunks) [] false
                (Err (lit "The device has been lost")) tt [] reading_state)
      as (s' & Hrun & _ & Herr & Hreader & _);
      [reflexivity|reflexivity|discriminate|].
    exists s'. split; [exact Hrun|]. split; [exact Herr|exact Hreader].
Defined.

Lemma send_write_failure_propagates_witness :
  send (codec := ascii_codec) write_fails (lit "SI") opened
  = (Throw (Err (lit "The device has been lost")),
     Sys (self opened) (plat opened) []
         [writer_write [Byte.x53; Byte.x49; Byte.x0d; Byte.x0a]]).
Proof.
  rewrite (send_write_failure_propagates (codec := ascii_codec) write_fails
             (lit "SI") (Err (lit "The device has been lost")) opened);
    [reflexivity|discriminate|reflexivity].
Defined.

Lemma connect_success_witness :
  connect (codec := ascii_codec) all_succeed initial
  = (Normal tt,
     Sys (Fields (Some thePort) (Some theWriter) (Some theReader) true)
         (World true true true)
         [connected; log (lit "Serial port opened (9600 8N1)")]
         [requestPort; port_open; getWriter; getReader]).
Proof.
  exact (connect_success (codec := ascii_codec) all_succeed initial
           eq_refl eq_refl eq_refl eq_refl).
Defined.

Lemma read_error_leaves_transport_held_witness :
  self (snd (readLoop_try (codec := ascii_codec) all_succeed
               (deliver sample_chunks
                  ++ ReadStep false (ReadThrow (Err (lit "The device has been lost")))
                  :: [])
               tt [] reading_state))
  = Fields (Some thePort) (Some theWriter) None true.
Proof.
  exact (read_error_leaves_transport_held (codec := ascii_codec) all_succeed
           (deliver sample_chunks) [] false
           (Err (lit "The device has been lost")) tt [] reading_state
           eq_refl eq_refl).
Defined.

(** X1.  The end-to-end test of the design document: the two lines of the device,
    cut anywhere in two chunks, give two 'reading' events, 100.00 g and then
    100.05 g, each after its 'log'. *)
Theorem end_to_end_two_readings (a b : list Byte.byte) :
  a ++ b = device_output ->
  events (snd (readLoop (codec := ascii_codec) all_succeed (deliver [a; b]) opened))
  = [log (lit "Received: S S     100.00 g");
     reading (Reading.mk (lit "S S     100.00 g")
                (Some (decimal 10000 2)) (lit "g"));
     log (lit "Received: S S     100.05 g");
     reading (Reading.mk (lit "S S     100.05 g")
                (Some (decimal 10005 2)) (lit "g"))].
Proof.
  intros Hab.
  rewrite (readLoop_plain (codec := ascii_codec)) by (discriminate || reflexivity).
  change (values_of (deliver [a; b])) with [a; b].
  cbn [List.concat snd events]. rewrite app_nil_r, Hab.
  vm_compute. reflexivity.
Qed.

Lemma end_to_end_two_readings_witness :
  events (snd (readLoop (codec := ascii_codec) all_succeed
                 (deliver sample_chunks) opened))
  = [log (lit "Received: S S     100.00 g");
     reading (Reading.mk (lit "S S     100.00 g")
                (Some (decimal 10000 2)) (lit "g"));
     log (lit "Received: S S     100.05 g");
     reading (Reading.mk (lit "S S     100.05 g")
                (Some (decimal 10005 2)) (lit "g"))].
Proof.
  exact (end_to_end_two_readings
           (bytes "S S     100.00 g" ++ CRLF ++ bytes "S S   ")
           (bytes "  100.05 g" ++ CRLF) eq_refl).
Defined.

End TransportContracts.

(** ** The page *)

Lemma text_of_set_text_other (id id' : string) (text : jsstring) (d : Page.dom) :
  id <> id' -> text_of id (Page.set_text id' text d) = text_of id d.
Proof.
  intros Hne. unfold text_of, Page.set_text.
  induction d as [|[k v] d IH]; [reflexivity|].
  cbn [map find fst snd].
  destruct (String.eqb k id') eqn:Ek; cbn [fst].
  - apply String.eqb_eq in Ek. subst k.
    destruct (String.eqb id' id) eqn:Ei.
    + apply String.eqb_eq in Ei. congruence.
    + exact IH.
  - destruct (String.eqb k id); [reflexivity|exact IH].
Qed.

Lemma shift_while_keeps_last (old : ChartManager.point -> bool)
  (l : list ChartManager.point) (p : ChartManager.point) :
  old p = false ->
  exists l', ChartManager.shift_while old (l ++ [p]) = l' ++ [p].
Proof.
  intros Hp. induction l as [|q l IH]; cbn [app ChartManager.shift_while].
  - rewrite Hp. now exists [].
  - destruct (old q); [exact IH|]. now exists (q :: l).
Qed.

(** X7.  With a time window that is not negative, a number given to the chart is
    plotted: it becomes the last point of the data, at the time of the call;
    [null] and NaN are not plotted. *)
Theorem chart_plots_numbers (now : Z) (v : jsnumber) (c : ChartManager.t) :
  (0 <= ChartManager.timeWindow c)%Z ->
  (isNaN v = false ->
   exists l,
     ChartManager.data (ChartManager.addReading now (Some v) c)
     = l ++ [ChartManager.Point now v])
  /\ ChartManager.addReading now None c = c
  /\ ChartManager.addReading now (Some NaN) c = c.
Proof.
  intros Htw. split; [|split; reflexivity].
  intros Hv.
  cbn [ChartManager.addReading]. rewrite Hv.
  cbn [ChartManager.prune ChartManager.data ChartManager.timeWindow].
  apply shift_while_keeps_last. cbn [ChartManager.x].
  apply Z.ltb_ge. nia.
Qed.

Lemma chart_plots_numbers_witness :
  exists l,
    ChartManager.data
      (ChartManager.addReading 400000 (Some (decimal 12045 2))
         (ChartManager.Make [ChartManager.Point 1000 (decimal 1 0);
                             ChartManager.Point 350000 (decimal 2 0)] 300))
    = l ++ [ChartManager.Point 400000 (decimal 12045 2)].
Proof.
  apply (chart_plots_numbers 400000 (decimal 12045 2)
           (ChartManager.Make [ChartManager.Point 1000 (decimal 1 0);
                               ChartManager.Point 350000 (decimal 2 0)] 300)).
  - cbn. lia.
  - reflexivity.
Defined.

Section PageFacts.

Context {host : Host} {tr : StatsTracker}.

Lemma shift_while_head (old : ChartManager.point -> bool)
  (d : list ChartManager.point) :
  match ChartManager.shift_while old d with
  | p :: _ => old p = false
  | [] => True
  end.
Proof.
  induction d as [|p d IH]; [exact I|].
  cbn [ChartManager.shift_while]. destruct (old p) eqn:E; [exact IH|exact E].
Qed.

Lemma shift_while_all_old (old : ChartManager.point -> bool)
  (d : list ChartManager.point) :
  exists dropped,
    d = dropped ++ ChartManager.shift_while old d /\
    Forall (fun p => old p = true) dropped.
Proof.
  induction d as [|p d (dr & IH & Hdr)]; [now exists []|].
  cbn [ChartManager.shift_while]. destruct (old p) eqn:E.
  - exists (p :: dr). cbn [app]. split; [now f_equal|now constructor].
  - now exists [].
Qed.

(** C9, as the code has it.  On a 'reading' whose value is [null] the listener
    sets the last-reading time and rewrites the read-out, and nothing else:
    chart, statistics and recorder are as before, and so is the text of every
    element other than the three of the read-out; the chart would not even
    take a [null].  On a 'reading' whose value is a number the statistics are
    given the value by [addValue(value)]; the recorder gains a row, with the
    time, the value and the unit, while it is recording, and is as before
    when it is not; the chart is as before when there is none or the value is
    NaN, and else has the new point put at the end of its data and then the
    points older than the time window taken from the front, up to the first
    that is not, by which the new point stays, and is the last, when the time
    window is not negative. *)
Theorem listener_changes_by_value
  (now : Page.clock) (detail : Reading.t) (st : Page.state) :
  let st' := Page.on_reading now detail st in
  Page.lastReadingTime st' = Page.at_listener now
  /\
  (Reading.value detail = None ->
   st'
   = Page.State (Page.at_listener now)
       (Page.updateReadout (Page.at_readout now) None (Reading.unit detail)
          (Page.document st))
       (Page.chart st) (Page.stats st) (Page.recorder st)
   /\
   (forall id,
      id <> "readoutValue"%string -> id <> "readoutUnit"%string ->
      id <> "readoutTime"%string ->
      text_of id (Page.document st') = text_of id (Page.document st))
   /\
   (forall t c, ChartManager.addReading t None c = c))
  /\
  (forall v, Reading.value detail = Some v ->
   Page.stats st' = addValue v (Page.stats st)
   /\
   Page.document st'
   = Page.updateStats (getStats (addValue v (Page.stats st)))
       (Page.updateReadout (Page.at_readout now) (Some v) (Reading.unit detail)
          (Page.document st))
   /\
   (Recorder.recording (Page.recorder st) = false ->
    Page.recorder st' = Page.recorder st)
   /\
   (Recorder.recording (Page.recorder st) = true ->
    Page.recorder st'
    = Recorder.Make
        (Recorder.data (Page.recorder st)
           ++ [Recorder.Entry (toISOString (Page.at_recorder now)) (Some v)
                 (Reading.unit detail)])
        true)
   /\
   (Page.chart st = None -> Page.chart st' = None)
   /\
   (forall c, Page.chart st = Some c -> isNaN v = true ->
      Page.chart st' = Some c)
   /\
   (forall c, Page.chart st = Some c -> isNaN v = false ->
      exists c' dropped,
        Page.chart st' = Some c' /\
        ChartManager.timeWindow c' = ChartManager.timeWindow c /\
        ChartManager.data c ++ [ChartManager.Point (Page.at_chart now) v]
        = dropped ++ ChartManager.data c' /\
        Forall (fun p => (ChartManager.x p
                          < Page.at_chart now
                            - ChartManager.timeWindow c * 1000)%Z) dropped /\
        match ChartManager.data c' with
        | p :: _ => (Page.at_chart now - ChartManager.timeWindow c * 1000
                     <= ChartManager.x p)%Z
        | [] => True
        end /\
        ((0 <= ChartManager.timeWindow c)%Z ->
         exists l,
           ChartManager.data c'
           = l ++ [ChartManager.Point (Page.at_chart now) v]))).
Proof.
  intros st'. subst st'. split; [|split].
  - unfold Page.on_reading. now destruct (Reading.value detail).
  - intros Hv. unfold Page.on_reading. rewrite Hv. split; [reflexivity|].
    split; [|reflexivity].
    intros id H1 H2 H3. cbn [Page.document]. unfold Page.updateReadout.
    now rewrite !text_of_set_text_other.
  - intros v Hv. unfold Page.on_reading. rewrite Hv.
    cbn [Page.chart Page.stats Page.recorder Page.lastReadingTime
         Page.document].
    split; [reflexivity|]. split; [reflexivity|].
    split; [intros Hrec; unfold Recorder.addReading; now rewrite Hrec|].
    split.
    { intros Hrec. unfold Recorder.addReading. now rewrite Hrec. }
    split; [now intros ->|].
    split.
    { intros c -> Hnan. cbn [ChartManager.addReading]. now rewrite Hnan. }
    intros c -> Hnan. cbn [ChartManager.addReading]. rewrite Hnan.
    cbn [ChartManager.prune ChartManager.data ChartManager.timeWindow].
    set (old := fun p => (ChartManager.x p
                          <? Page.at_chart now
                             - ChartManager.timeWindow c * 1000)%Z).
    set (d := ChartManager.data c ++ [ChartManager.Point (Page.at_chart now) v]).
    destruct (shift_while_all_old old d) as (dropped & Hd & Hold).
    eexists. exists dropped. split; [reflexivity|].
    cbn [ChartManager.timeWindow ChartManager.data].
    split; [reflexivity|]. split; [exact Hd|]. split; [|split].
    + eapply Forall_impl; [|exact Hold]. intros p Hp. subst old. cbn in Hp.
      now apply Z.ltb_lt.
    + pose proof (shift_while_head old d) as Hhead.
      change (ChartManager.data
                (ChartManager.prune (Page.at_chart now)
                   (ChartManager.Make d (ChartManager.timeWindow c))))
        with (ChartManager.shift_while old d).
      destruct (ChartManager.shift_while old d) as [|p rest]; [exact I|].
      subst old. cbn beta in Hhead. now apply Z.ltb_ge in Hhead.
    + intros Htw. subst d. apply shift_while_keeps_last.
      cbn [ChartManager.x ChartManager.timeWindow]. apply Z.ltb_ge. lia.
Qed.

End PageFacts.

(** The listener at work: a status line, then a weight, on a page that is not
    recording. *)
Example on_reading_status_line :
  Page.on_reading (host := sample_host) sample_clock (reading_of (lit "ES"))
    sample_page
  = Page.State (tr := counting_tracker) 1000%Z
      [("readoutValue"%string, lit "---"); ("readoutUnit"%string, []);
       ("statCount"%string, lit "0")]
      (Some ChartManager.new) 0%nat Recorder.new.
Proof. vm_compute. reflexivity. Qed.

Example on_reading_weight :
  Page.on_reading (host := sample_host) sample_clock
    (reading_of (lit "S S     120.45 g")) sample_page
  = Page.State (tr := counting_tracker) 1000%Z
      [("readoutValue"%string, lit "120.45"); ("readoutUnit"%string, lit "g");
       ("statCount"%string, lit "120.45")]
      (Some (ChartManager.Make [ChartManager.Point 1002 (decimal 12045 2)] 300))
      1%nat Recorder.new.
Proof. vm_compute. reflexivity. Qed.

(** C9 with its "updated exactly when the value is not null" fails: a reading
    with a number leaves the recorder of a page that is not recording as it
    is, and the chart of a page that has none; and the chart does not take
    NaN. *)
Lemma number_reading_not_recorded :
  Reading.value (reading_of (lit "S S     120.45 g")) = Some (decimal 12045 2)
  /\ Page.recorder
       (Page.on_reading (host := sample_host) sample_clock
          (reading_of (lit "S S     120.45 g")) sample_page)
     = Page.recorder sample_page
  /\ Page.chart
       (Page.on_reading (host := sample_host) sample_clock
          (reading_of (lit "S S     120.45 g"))
          (Page.State (tr := counting_tracker) 0%Z [] None 0%nat Recorder.new))
     = None
  /\ Page.chart
       (Page.on_reading (host := sample_host) sample_clock
          (Reading.mk [] (Some NaN) []) sample_page)
     = Page.chart sample_page.
Proof. vm_compute. repeat split. Qed.

(** ** The recorder *)

Section RecorderFacts.

Context {host : Host}.

Import RecorderRun.

(** While recording, every reading added is stored, in order. *)
Lemma run_adds_recording (l : list sample) (r : Recorder.t) :
  Recorder.recording r = true ->
  run (adds l) r = Recorder.Make (Recorder.data r ++ entries l) true.
Proof.
  revert r. induction l as [|x l IH]; intros r Hrec.
  - cbn. rewrite app_nil_r. destruct r. cbn in *. now subst.
  - cbn [adds map run fold_left step]. unfold Recorder.addReading at 1.
    rewrite Hrec. cbn [negb].
    change (fold_left step (map (fun x => Add (fst (fst x)) (snd (fst x)) (snd x)) l))
      with (run (adds l)).
    rewrite IH by reflexivity. cbn [Recorder.data entries map].
    now rewrite <- app_assoc.
Qed.

(** While not recording, no reading added is stored. *)
Lemma run_adds_stopped (l : list sample) (r : Recorder.t) :
  Recorder.recording r = false -> run (adds l) r = r.
Proof.
  intros Hrec. induction l as [|x l IH]; [reflexivity|].
  cbn [adds map run fold_left step]. unfold Recorder.addReading at 1.
  rewrite Hrec. exact IH.
Qed.

Lemma run_app (a b : list op) (r : Recorder.t) :
  run (a ++ b) r = run b (run a r).
Proof. unfold run. apply fold_left_app. Qed.

Lemma run_session (l late : list sample) (r : Recorder.t) :
  run (Start :: adds l ++ Stop :: adds late) r
  = Recorder.Make (entries l) false.
Proof.
  change (Start :: adds l ++ Stop :: adds late)
    with ([Start] ++ adds l ++ [Stop] ++ adds late).
  rewrite !run_app.
  change (run [Start] r) with (Recorder.start r).
  rewrite (run_adds_recording l (Recorder.start r)) by reflexivity.
  change (run [Stop] ?x) with (Recorder.stop x).
  now rewrite run_adds_stopped.
Qed.

(** C10.  [addReading] appends one entry, stamped with the time of the call,
    when the recorder is recording, and does nothing when it is not: so on a
    new recorder, before any [start()], and after a [stop()].  [start()]
    drops what was recorded: the count is 0 whatever it was.  After
    [start()], the readings added up to [stop()] are the data, those added
    after it are not, and a download then saves exactly the former as CSV.
    With no data, [download()] returns [false] and saves no file. *)
Theorem recorder_records_only_while_recording :
  (forall now v u r,
     Recorder.recording r = true ->
     Recorder.addReading now v u r
     = Recorder.Make (Recorder.data r ++ [Recorder.Entry (toISOString now) v u])
         true
     /\ Recorder.count (Recorder.addReading now v u r) = S (Recorder.count r))
  /\ (forall now v u r,
        Recorder.recording r = false -> Recorder.addReading now v u r = r)
  /\ (forall now v u, Recorder.addReading now v u Recorder.new = Recorder.new)
  /\ (forall now v u r,
        Recorder.addReading now v u (Recorder.stop r) = Recorder.stop r)
  /\ (forall r,
        Recorder.count (Recorder.start r) = 0%nat /\
        Recorder.isRecording (Recorder.start r) = true)
  /\ (forall r l late,
        Recorder.data (run (Start :: adds l ++ Stop :: adds late) r) = entries l)
  /\ (forall r l late now,
        l <> [] ->
        Recorder.download now (run (Start :: adds l ++ Stop :: adds late) r)
        = (true,
           Some (Recorder.File
                   (lit "scale_recording_" ++ Recorder.file_stamp now ++ lit ".csv")
                   (lit "text/csv;charset=utf-8")
                   (Recorder.csv (entries l)))))
  /\ (forall now r,
        Recorder.count r = 0%nat -> Recorder.download now r = (false, None)).
Proof.
  split.
  { intros now v u r Hrec. unfold Recorder.addReading, Recorder.count.
    rewrite Hrec. cbn [negb Recorder.data]. split; [reflexivity|].
    rewrite length_app. cbn. lia. }
  split.
  { intros now v u r Hrec. unfold Recorder.addReading. now rewrite Hrec. }
  split; [reflexivity|].
  split; [reflexivity|].
  split; [intros r; split; reflexivity|].
  split.
  { intros r l late. now rewrite run_session. }
  split.
  { intros r l late now Hne. rewrite run_session.
    unfold Recorder.download. cbn [Recorder.data].
    destruct l as [|x l]; [contradiction|]. reflexivity. }
  intros now r Hc. unfold Recorder.download, Recorder.count in *.
  destruct (Recorder.data r); [reflexivity|discriminate].
Qed.

End RecorderFacts.

(** A recording session: a reading before [start()] is not kept, two are
    recorded, one after [stop()] is not kept, and the download is the CSV of
    the two. *)
Example recording_session :
  Recorder.download (H := sample_host) 0
    (RecorderRun.run (H := sample_host)
       [RecorderRun.Add 1 (Some (decimal 1 0)) (lit "g");
        RecorderRun.Start;
        RecorderRun.Add 2 (Some (decimal 12045 2)) (lit "g");
        RecorderRun.Add 3 None (lit "kg");
        RecorderRun.Stop;
        RecorderRun.Add 4 (Some (decimal 5 0)) (lit "g")]
       Recorder.new)
  = (true,
     Some (Recorder.File
             (lit "scale_recording_20240102T030405.csv")
             (lit "text/csv;charset=utf-8")
             (lit "Timestamp,Value,Unit" ++ [LF]
              ++ lit "2024-01-02T03:04:05.678Z,120.45,g" ++ [LF]
              ++ lit "2024-01-02T03:04:05.678Z,null,kg" ++ [LF]))).
Proof. vm_compute. reflexivity. Qed.

Example nothing_recorded :
  Recorder.download (H := sample_host) 0
    (Recorder.stop (Recorder.start Recorder.new))
  = (false, None).
Proof. reflexivity. Qed.

(* ================================================================== *)
(** * Further properties *)
(* ================================================================== *)

(** ** The read loop on any script *)

Module ReadLoopFacts.

Import WebSerialTransport SysFacts TransportContracts.

Section Loop.

Context {codec : TextCodec}.

Local Open Scope js_scope.

(** A loop whose flag is off returns at once. *)
Lemma loop_not_running (script : list read_step) (d : decoder)
  (buffer : jsstring) (s : sys) :
  readLoopRunning (self s) = false ->
  loop script d buffer s = (Normal Finished, s).
Proof.
  intros Hrun. destruct script; cbn [loop]; unfold bind, get, ret;
    now rewrite Hrun.
Qed.

(** What the loop proper does on any script: it adds the events of the lines
    of the chunks it takes, touches neither the platform nor the port, writer
    and reader, and ends as the script says. *)
Lemma loop_any (script : list read_step) (d : decoder) (buffer : jsstring)
  (s : sys) :
  readLoopRunning (self s) = true ->
  exists r s',
    loop script d buffer s = (r, s') /\
    events s'
    = events s ++ flat_map parseLine (fst (feed_all (d, buffer) (taken script))) /\
    calls s' = calls s /\ plat s' = plat s /\
    port (self s') = port (self s) /\ writer (self s') = writer (self s) /\
    reader (self s') = reader (self s) /\
    match r with
    | Throw err =>
        ends script = true /\
        reported script
        = (if readLoopRunning (self s')
           then [error (lit "Read error: " ++ message err)] else [])
    | Normal Finished => ends script = true /\ reported script = []
    | Normal (Awaiting d' b') =>
        ends script = false /\ reported script = [] /\ self s' = self s /\
        (d', b') = snd (feed_all (d, buffer) (taken script))
    end.
Proof.
  revert d buffer s. induction script as [|turn rest IH]; intros d buffer s Hrun.
  - cbn [loop]. unfold bind, get, ret. rewrite Hrun.
    eexists. eexists. split; [reflexivity|].
    cbn [taken feed_all fst snd flat_map]. rewrite app_nil_r.
    repeat split.
  - destruct s as [[p w r running] pl ev cl].
    cbn [self readLoopRunning] in Hrun. subst running.
    destruct turn as [stop res].
    cbn [loop]. unfold bind at 1. unfold get at 1. cbv beta iota.
    cbn [self readLoopRunning stop_requested result taken reported ends].
    destruct res as [[value|] | | err].
    + (* a chunk *)
      cbn [feed_all app]. unfold feed.
      destruct (decode d value) as [d' text].
      set (lines := removelast (split_nl (buffer ++ text))).
      set (b' := last (split_nl (buffer ++ text)) []).
      destruct stop.
      * unfold bind, set_readLoopRunning, modify, ret.
        cbn [self plat events calls port writer reader readLoopRunning].
        rewrite for_lines_run. unfold add_events.
        cbn [self plat events calls port writer reader readLoopRunning].
        rewrite loop_not_running by reflexivity.
        eexists. eexists. split; [reflexivity|].
        cbn [feed_all fst snd self plat events calls port writer reader].
        rewrite app_nil_r. repeat split.
      * unfold bind at 1. unfold ret at 1. cbv beta iota.
        unfold bind at 1. rewrite for_lines_run. cbv beta iota.
        destruct (IH d' b' (add_events (flat_map parseLine
                                          (filter truthy (map trimmed_of lines)))
                              (Sys (Fields p w r true) pl ev cl)) eq_refl)
          as (r0 & s' & Hloop & Hev & Hrest).
        rewrite Hloop. exists r0, s'. split; [reflexivity|].
        destruct (feed_all (d', b') (taken rest)) as [out2 [d2 b2]].
        cbn [fst snd] in *. unfold add_events in Hev. cbn [events] in Hev.
        split; [now rewrite Hev, flat_map_app, app_assoc|].
        exact Hrest.
    + (* a read without a value *)
      cbn [app].
      destruct stop.
      * unfold bind, set_readLoopRunning, modify, ret.
        cbn [self plat events calls port writer reader readLoopRunning].
        rewrite loop_not_running by reflexivity.
        eexists. eexists. split; [reflexivity|].
        cbn [feed_all fst snd flat_map self plat events calls port writer reader].
        rewrite app_nil_r. repeat split.
      * unfold bind at 1. unfold ret at 1. cbv beta iota.
        exact (IH d buffer (Sys (Fields p w r true) pl ev cl) eq_refl).
    + (* the stream is done *)
      destruct stop; unfold bind, set_readLoopRunning, modify, ret;
        cbn [self plat events calls port writer reader readLoopRunning];
        (eexists; eexists; split; [reflexivity|]);
        cbn [feed_all fst snd flat_map self plat events calls port writer reader];
        rewrite app_nil_r; repeat split.
    + (* the read fails *)
      destruct stop; unfold bind, set_readLoopRunning, modify, ret, throw;
        cbn [self plat events calls port writer reader readLoopRunning];
        (eexists; eexists; split; [reflexivity|]);
        cbn [feed_all fst snd flat_map self plat events calls port writer reader
             readLoopRunning];
        rewrite app_nil_r; repeat split.
Qed.

Lemma reported_at_most_one (script : list read_step) :
  reported script = [] \/ exists m, reported script = [error m].
Proof.
  induction script as [|turn rest IH]; [now left|].
  cbn [reported]. destruct (result turn) as [v| |err].
  - destruct (stop_requested turn); [now left|exact IH].
  - now left.
  - destruct (stop_requested turn); [now left|right; eauto].
Qed.

(** The whole of [#readLoop()] on any script. *)
Lemma readLoop_any (o : oracle) (script : list read_step) (s : sys) :
  port (self s) <> None -> o getReader = None ->
  exists st s',
    readLoop o script s = (Normal st, s') /\
    events s'
    = events s
      ++ flat_map parseLine
           (complete_lines
              (snd (decode new_TextDecoder (List.concat (taken script)))))
      ++ reported script /\
    port (self s') = port (self s) /\ writer (self s') = writer (self s) /\
    (if ends script
     then st = Finished /\ reader (self s') = None /\
          calls s' = calls s ++ [getReader; reader_releaseLock]
     else (exists d b, st = Awaiting d b) /\
          reader (self s') = Some theReader /\
          readLoopRunning (self s') = true /\
          calls s' = calls s ++ [getReader]).
Proof.
  intros Hport Hget. rewrite readLoop_start by assumption.
  set (s1 := Sys _ _ _ _).
  destruct (loop_any script new_TextDecoder [] s1 eq_refl)
    as (r & s2 & Hloop & Hev & Hcalls & Hplat & Hp & Hw & Hr & Hend).
  unfold readLoop_try. rewrite Hloop.
  rewrite feed_all_concat in Hev by reflexivity.
  unfold feed in Hev. cbn [app] in Hev.
  destruct (decode new_TextDecoder (List.concat (taken script))) as [d' text].
  cbn [fst snd] in Hev |- *. fold (complete_lines text) in Hev.
  destruct s2 as [[p2 w2 r2 run2] pl2 ev2 cl2].
  subst s1. cbn [self plat events calls port writer reader] in *.
  subst ev2 cl2 pl2 p2 w2 r2.
  destruct r as [[|d2 b2]|err].
  - destruct Hend as [-> ->]. run.
    destruct (o reader_releaseLock); run;
      (eexists; eexists; split; [reflexivity|]);
      cbn [self events calls port writer reader];
      rewrite ?app_nil_r, <- ?app_assoc; repeat split.
  - destruct Hend as (-> & -> & Hself & _).
    injection Hself as ->.
    eexists. eexists. split; [reflexivity|].
    cbn [self events calls port writer reader readLoopRunning].
    rewrite ?app_nil_r. repeat split. now exists d2, b2.
  - destruct Hend as [-> ->]. cbn [self readLoopRunning]. run.
    destruct run2; run; destruct (o reader_releaseLock); run;
      (eexists; eexists; split; [reflexivity|]);
      cbn [self events calls port writer reader];
      rewrite ?app_nil_r, <- ?app_assoc; repeat split.
Qed.

(** X8.  The read loop never fails, whatever the reads give: on any script it
    emits, for the complete lines of the chunks it takes, a 'log' and a
    'reading' each, then at most one 'error', and nothing else; when the
    script ends the loop it returns and has released and cleared its reader,
    otherwise it waits in its next read. *)
Theorem readLoop_on_any_script (o : oracle) (script : list read_step) (s : sys) :
  port (self s) <> None -> o getReader = None ->
  exists st s',
    readLoop o script s = (Normal st, s') /\
    events s'
    = events s
      ++ flat_map (fun l => [log (lit "Received: " ++ l); reading (reading_of l)])
           (complete_lines
              (snd (decode new_TextDecoder (List.concat (taken script)))))
      ++ reported script /\
    (reported script = [] \/ exists m, reported script = [error m]) /\
    (if ends script
     then st = Finished /\ reader (self s') = None /\
          In reader_releaseLock (calls s')
     else (exists d b, st = Awaiting d b) /\
          reader (self s') = Some theReader /\
          readLoopRunning (self s') = true).
Proof.
  intros Hport Hget.
  destruct (readLoop_any o script s Hport Hget)
    as (st & s' & Hrun & Hev & _ & _ & Hend).
  exists st, s'. split; [exact Hrun|]. split; [exact Hev|].
  split; [apply reported_at_most_one|].
  destruct (ends script).
  - destruct Hend as (-> & Hr & Hc). repeat split; [exact Hr|].
    rewrite Hc. apply in_or_app. right. simpl. tauto.
  - destruct Hend as (Hst & Hr & Hrun' & _). now repeat split.
Qed.

(** X9.  A device answer that no line feed ends is never reported, not even when
    the stream ends: the loop returns without an event, and what it had in its
    buffer is gone. *)
Theorem unterminated_tail_is_dropped
  (o : oracle) (chunks : list (list Byte.byte)) (stop : bool) (s : sys) :
  port (self s) <> None -> o getReader = None ->
  existsb (N.eqb LF) (snd (decode new_TextDecoder (List.concat chunks))) = false ->
  exists s',
    readLoop o (deliver chunks ++ [ReadStep stop ReadDone]) s
    = (Normal Finished, s') /\
    events s' = events s /\ reader (self s') = None.
Proof.
  intros Hport Hget Htext.
  destruct (readLoop_any o (deliver chunks ++ [ReadStep stop ReadDone]) s
              Hport Hget) as (st & s' & Hrun & Hev & _ & _ & Hend).
  assert (Htaken : taken (deliver chunks ++ [ReadStep stop ReadDone]) = chunks).
  { clear. induction chunks as [|c chunks IH]; [reflexivity|].
    cbn [deliver map app taken result stop_requested].
    unfold deliver in IH. now rewrite IH. }
  assert (Hends : ends (deliver chunks ++ [ReadStep stop ReadDone]) = true).
  { clear. induction chunks as [|c chunks IH]; [reflexivity|].
    cbn [deliver map app ends result stop_requested]. exact IH. }
  assert (Hrep : reported (deliver chunks ++ [ReadStep stop ReadDone]) = []).
  { clear. induction chunks as [|c chunks IH]; [reflexivity|].
    cbn [deliver map app reported result stop_requested]. exact IH. }
  rewrite Htaken, Hrep in Hev. rewrite Hends in Hend.
  destruct Hend as (-> & Hr & _).
  exists s'. split; [exact Hrun|]. split; [|exact Hr].
  rewrite Hev. unfold complete_lines.
  rewrite (split_nl_no_LF _ Htext). cbn. now rewrite app_nil_r.
Qed.

End Loop.

Lemma unterminated_tail_is_dropped_witness :
  exists s',
    readLoop (codec := ascii_codec) all_succeed
      (deliver [bytes "S S     100.00 g"] ++ [ReadStep false ReadDone]) opened
    = (Normal Finished, s') /\
    events s' = [] /\ reader (self s') = None.
Proof.
  apply (unterminated_tail_is_dropped (codec := ascii_codec) all_succeed
           [bytes "S S     100.00 g"] false opened);
    [discriminate|reflexivity|reflexivity].
Defined.

Lemma readLoop_on_any_script_witness :
  exists st s',
    readLoop (codec := ascii_codec) all_succeed
      (deliver sample_chunks
         ++ [ReadStep true (ReadValue (Some (bytes "lost")));
             ReadStep false (ReadThrow (Err (lit "late")))]) opened
    = (Normal st, s') /\
    events s'
    = events opened
      ++ flat_map (fun l => [log (lit "Received: " ++ l); reading (reading_of l)])
           (complete_lines
              (snd (decode (H := ascii_codec) new_TextDecoder
                      (List.concat
                         (taken
                            (deliver sample_chunks
                               ++ [ReadStep true (ReadValue (Some (bytes "lost")));
                                   ReadStep false
                                     (ReadThrow (Err (lit "late")))]))))))
      ++ reported
           (deliver sample_chunks
              ++ [ReadStep true (ReadValue (Some (bytes "lost")));
                  ReadStep false (ReadThrow (Err (lit "late")))]) /\
    (reported
       (deliver sample_chunks
          ++ [ReadStep true (ReadValue (Some (bytes "lost")));
              ReadStep false (ReadThrow (Err (lit "late")))]) = [] \/
     exists m,
       reported
         (deliver sample_chunks
            ++ [ReadStep true (ReadValue (Some (bytes "lost")));
                ReadStep false (ReadThrow (Err (lit "late")))]) = [error m]) /\
    (if ends
          (deliver sample_chunks
             ++ [ReadStep true (ReadValue (Some (bytes "lost")));
                 ReadStep false (ReadThrow (Err (lit "late")))])
     then st = Finished /\ reader (self s') = None /\
          In reader_releaseLock (calls s')
     else (exists d b, st = Awaiting d b) /\
          reader (self s') = Some theReader /\
          readLoopRunning (self s') = true).
Proof.
  apply (readLoop_on_any_script (codec := ascii_codec) all_succeed
           (deliver sample_chunks
              ++ [ReadStep true (ReadValue (Some (bytes "lost")));
                  ReadStep false (ReadThrow (Err (lit "late")))]) opened);
    [discriminate|reflexivity].
Defined.

End ReadLoopFacts.

(** ** Lines and readings *)

Lemma dropWhile_suffix (p : codeunit -> bool) (s : jsstring) :
  exists pre, s = pre ++ dropWhile p s /\ forallb p pre = true.
Proof.
  induction s as [|c s (pre & IH & Hpre)]; [now exists []|].
  cbn [dropWhile]. destruct (p c) eqn:E.
  - exists (c :: pre). cbn. now rewrite E, Hpre, <- IH.
  - now exists [].
Qed.

Lemma dropWhile_head (p : codeunit -> bool) (s : jsstring) :
  match dropWhile p s with c :: _ => p c = false | [] => True end.
Proof.
  induction s as [|c s IH]; [exact I|].
  cbn [dropWhile]. destruct (p c) eqn:E; [exact IH|exact E].
Qed.

Lemma existsb_dropWhile (q p : codeunit -> bool) (s : jsstring) :
  existsb q s = false -> existsb q (dropWhile p s) = false.
Proof.
  destruct (dropWhile_suffix p s) as (pre & Hs & _).
  rewrite Hs at 1. rewrite existsb_app. intros H.
  now apply orb_false_elim in H.
Qed.

Lemma existsb_rev (q : codeunit -> bool) (s : jsstring) :
  existsb q (rev s) = existsb q s.
Proof.
  induction s as [|c s IH]; [reflexivity|].
  cbn [rev existsb]. rewrite existsb_app, IH. cbn. now rewrite orb_false_r, orb_comm.
Qed.

Lemma existsb_trim (q : codeunit -> bool) (s : jsstring) :
  existsb q s = false -> existsb q (trim s) = false.
Proof.
  intros H. unfold trim. rewrite existsb_rev.
  apply existsb_dropWhile. rewrite existsb_rev.
  now apply existsb_dropWhile.
Qed.

(** A trimmed string has no white space at either end. *)
Lemma trim_ends (s : jsstring) :
  match trim s with c :: _ => is_space c = false | [] => True end /\
  match rev (trim s) with c :: _ => is_space c = false | [] => True end.
Proof.
  unfold trim. set (t := dropWhile is_space s).
  pose proof (dropWhile_head is_space s) as Ht. fold t in Ht.
  pose proof (dropWhile_head is_space (rev t)) as Hu.
  destruct (dropWhile_suffix is_space (rev t)) as (pre & Hrev & _).
  set (u := dropWhile is_space (rev t)) in *.
  split; [|now rewrite rev_involutive].
  assert (Heq : t = rev u ++ rev pre).
  { rewrite <- (rev_involutive t), Hrev. apply rev_app_distr. }
  destruct (rev u) as [|c ru]; [exact I|].
  rewrite Heq in Ht. exact Ht.
Qed.

Lemma split_nl_segments (s : jsstring) :
  forall seg, In seg (split_nl s) -> existsb (N.eqb LF) seg = false.
Proof.
  induction s as [|c s IH]; intros seg Hin.
  - destruct Hin as [<-|[]]. reflexivity.
  - cbn [split_nl] in Hin. destruct (c =? LF)%N eqn:Ec.
    + destruct Hin as [<-|Hin]; [reflexivity|now apply IH].
    + pose proof (split_nl_nonempty s) as Hne.
      destruct (split_nl s) as [|seg0 rest]; [contradiction|].
      destruct Hin as [<-|Hin].
      * cbn [existsb]. rewrite (N.eqb_sym LF c), Ec. apply IH. now left.
      * apply IH. now right.
Qed.

Lemma in_removelast {A} (l : list A) (x : A) : In x (removelast l) -> In x l.
Proof.
  induction l as [|a l IH]; [contradiction|].
  cbn [removelast]. destruct l as [|b l]; [contradiction|].
  intros [<-|H]; [now left|right; now apply IH].
Qed.

Lemma remove_cr_clean (seg : jsstring) :
  existsb (N.eqb CR) (remove_cr seg) = false /\
  (existsb (N.eqb LF) seg = false ->
   existsb (N.eqb LF) (remove_cr seg) = false).
Proof.
  unfold remove_cr. induction seg as [|c seg [IH1 IH2]]; [now split|].
  cbn [filter existsb]. destruct (c =? CR)%N eqn:Ec; cbn [negb].
  - split; [exact IH1|]. intros H. apply orb_false_elim in H as [_ H]. now apply IH2.
  - cbn [existsb]. rewrite (N.eqb_sym CR c), Ec. split; [exact IH1|].
    intros H. apply orb_false_elim in H as [H1 H]. now rewrite H1, IH2.
Qed.

(** Every line the framing hands on is clean. *)
Lemma complete_lines_clean (text l : jsstring) :
  In l (complete_lines text) -> clean_line l.
Proof.
  unfold complete_lines. intros H. apply filter_In in H as [H Hne].
  apply in_map_iff in H as (seg & <- & Hseg).
  apply in_removelast, split_nl_segments in Hseg.
  unfold WebSerialTransport.trimmed_of in *.
  destruct (remove_cr_clean seg) as [Hcr Hlf].
  unfold clean_line. split; [now destruct (trim (remove_cr seg))|].
  split; [now apply existsb_trim|].
  split; [now apply existsb_trim, Hlf|].
  apply trim_ends.
Qed.

(** X10.  Every 'reading' event the read loop emits, on any script, has a clean
    [raw]: not empty, free of carriage returns and line feeds, and trimmed. *)
Theorem emitted_raw_is_clean {codec : TextCodec}
  (o : oracle) (script : list read_step) (s : WebSerialTransport.sys)
  (r : Reading.t) :
  WebSerialTransport.port (WebSerialTransport.self s) <> None ->
  o getReader = None ->
  In (reading r)
     (WebSerialTransport.events (snd (WebSerialTransport.readLoop o script s))) ->
  In (reading r) (WebSerialTransport.events s) \/ clean_line (Reading.raw r).
Proof.
  intros Hport Hget Hin.
  destruct (ReadLoopFacts.readLoop_any o script s Hport Hget)
    as (st & s' & Hrun & Hev & _).
  rewrite Hrun in Hin. cbn [snd] in Hin. rewrite Hev in Hin.
  apply in_app_or in Hin as [Hin|Hin]; [now left|right].
  apply in_app_or in Hin as [Hin|Hin].
  - apply in_flat_map in Hin as (l & Hl & Hin).
    destruct Hin as [Hin|[Hin|[]]]; [discriminate|].
    injection Hin as <-. rewrite reading_of_raw.
    exact (complete_lines_clean _ _ Hl).
  - destruct (ReadLoopFacts.reported_at_most_one script) as [E|(m & E)];
      rewrite E in Hin; [contradiction|].
    destruct Hin as [Hin|[]]. discriminate.
Qed.

Lemma emitted_raw_is_clean_witness :
  In (reading (Reading.mk (lit "S S     100.05 g") (Some (decimal 10005 2))
                 (lit "g")))
     (WebSerialTransport.events SysFacts.opened) \/
  clean_line
    (Reading.raw (Reading.mk (lit "S S     100.05 g") (Some (decimal 10005 2))
                    (lit "g"))).
Proof.
  apply (emitted_raw_is_clean (codec := ascii_codec) all_succeed
           (deliver sample_chunks) SysFacts.opened
           (Reading.mk (lit "S S     100.05 g") (Some (decimal 10005 2))
              (lit "g")));
    [discriminate|reflexivity|].
  vm_compute. tauto.
Defined.

(** X11.  The unit of a reading is made of letters, percent signs and slashes only:
    no white space, no digit, no comma, no quote. *)
Theorem unit_is_a_unit_token (line : jsstring) :
  forallb is_unit_char (Reading.unit (reading_of line)) = true.
Proof.
  rewrite reading_of_refines_spec. unfold ReadingParserSpec.parse.
  destruct (ReadingParserSpec.first_literal line) as [[[[sign ip] fp] rest]|];
    [|reflexivity].
  cbn [Reading.unit]. apply span_all.
Qed.

Lemma literal_here_no_start (x : codeunit) (s : jsstring) :
  is_digit x = false ->
  (x = MINUS -> match s with c :: _ => is_digit c = false | [] => True end) ->
  ReadingParserSpec.literal_here (x :: s) = None.
Proof.
  intros Hx Hminus. unfold ReadingParserSpec.literal_here.
  destruct (x =? MINUS)%N eqn:Ex.
  - apply N.eqb_eq in Ex. specialize (Hminus Ex).
    destruct s as [|c s]; [reflexivity|]. cbn [span]. now rewrite Hminus.
  - cbn [span]. now rewrite Hx.
Qed.

Lemma first_literal_skips (pre line : jsstring) :
  leftmost pre [] ->
  ReadingParserSpec.first_literal (pre ++ line)
  = ReadingParserSpec.first_literal line.
Proof.
  intros [Hdig Hminus]. specialize (Hminus eq_refl).
  induction pre as [|x pre IH]; [reflexivity|].
  cbn [existsb] in Hdig. apply orb_false_elim in Hdig as [Hx Hdig].
  cbn [app ReadingParserSpec.first_literal].
  rewrite literal_here_no_start.
  - apply IH; [exact Hdig|].
    intros p Hp. apply (Hminus (x :: p)). now rewrite Hp.
  - exact Hx.
  - intros ->. destruct pre as [|c pre].
    + exfalso. now apply (Hminus []).
    + cbn [app]. cbn [existsb] in Hdig.
      now apply orb_false_elim in Hdig as [Hc _].
Qed.

(** X12.  What precedes the number is ignored, not validated: a prefix with no digit
    in it, and no minus sign at its end, changes neither the value nor the
    unit of the reading. *)
Theorem status_prefix_is_ignored (pre line : jsstring) :
  leftmost pre [] ->
  Reading.value (reading_of (pre ++ line)) = Reading.value (reading_of line) /\
  Reading.unit (reading_of (pre ++ line)) = Reading.unit (reading_of line).
Proof.
  intros Hpre. rewrite !reading_of_refines_spec.
  unfold ReadingParserSpec.parse. rewrite (first_literal_skips pre line Hpre).
  now destruct (ReadingParserSpec.first_literal line) as [[[[? ?] ?] ?]|].
Qed.

Lemma status_prefix_is_ignored_witness :
  Reading.value (reading_of (lit "S D     " ++ lit "-3.2 %"))
  = Reading.value (reading_of (lit "-3.2 %")) /\
  Reading.unit (reading_of (lit "S D     " ++ lit "-3.2 %"))
  = Reading.unit (reading_of (lit "-3.2 %")).
Proof.
  apply (status_prefix_is_ignored (lit "S D     ") (lit "-3.2 %")).
  split; [reflexivity|].
  intros _ pre' H. apply (f_equal (fun l => last l 0%N)) in H.
  rewrite last_last in H. vm_compute in H. discriminate.
Defined.

(** ** [send] and white space *)

Lemma dropWhile_app_all (p : codeunit -> bool) (a b : jsstring) :
  forallb p a = true -> dropWhile p (a ++ b) = dropWhile p b.
Proof.
  induction a as [|c a IH]; [reflexivity|].
  cbn [forallb app dropWhile]. intros H. apply andb_prop in H as [Hc Ha].
  rewrite Hc. now apply IH.
Qed.

Lemma dropWhile_all (p : codeunit -> bool) (a : jsstring) :
  forallb p a = true -> dropWhile p a = [].
Proof.
  intros H. rewrite <- (app_nil_r a). now rewrite dropWhile_app_all.
Qed.

Lemma dropWhile_app_some (p : codeunit -> bool) (a b : jsstring) :
  dropWhile p a <> [] -> dropWhile p (a ++ b) = dropWhile p a ++ b.
Proof.
  induction a as [|c a IH]; [contradiction|].
  cbn [app dropWhile]. destruct (p c); [exact IH|reflexivity].
Qed.

Lemma forallb_rev (p : codeunit -> bool) (a : jsstring) :
  forallb p (rev a) = forallb p a.
Proof.
  induction a as [|c a IH]; [reflexivity|].
  cbn [rev forallb]. rewrite forallb_app, IH. cbn. now rewrite andb_true_r, andb_comm.
Qed.

(** White space around a string does not show once it is trimmed. *)
Lemma trim_padding (ws1 s ws2 : jsstring) :
  forallb is_space ws1 = true -> forallb is_space ws2 = true ->
  trim (ws1 ++ s ++ ws2) = trim s.
Proof.
  intros H1 H2. unfold trim. rewrite dropWhile_app_all by exact H1.
  destruct (dropWhile is_space s) as [|c t] eqn:E.
  - destruct (dropWhile_suffix is_space s) as (pre & Hs & Hpre).
    rewrite E, app_nil_r in Hs. subst pre.
    rewrite dropWhile_app_all by exact Hpre.
    now rewrite (dropWhile_all _ _ H2).
  - rewrite dropWhile_app_some by (rewrite E; discriminate).
    rewrite E, rev_app_distr.
    now rewrite dropWhile_app_all by (now rewrite forallb_rev).
Qed.

(** ** The transport over a session *)

Module LifecycleFacts.

Import WebSerialTransport SysFacts TransportContracts.

(** Running a method up to each answer of the platform, by cases on it. *)
Ltac by_answers o :=
  repeat (run;
          match goal with
          | |- context [match o ?c with _ => _ end] => destruct (o c) eqn:?
          end);
  run.

Section Lifecycle.

Context {codec : TextCodec}.

Local Open Scope js_scope.

(** X13.  [send] looks at its command trimmed only: white space around it, a line
    end the caller has already put included, changes nothing of what [send]
    does. *)
Theorem send_ignores_padding
  (o : oracle) (ws1 cmd ws2 : jsstring) (s : sys) :
  forallb is_space ws1 = true -> forallb is_space ws2 = true ->
  send o (ws1 ++ cmd ++ ws2) s = send o cmd s.
Proof.
  intros H1 H2. unfold send. now rewrite (trim_padding ws1 cmd ws2 H1 H2).
Qed.

(** [connect()] when every step succeeds. *)
Lemma connect_ok (o : oracle) (s : sys) :
  connects o ->
  connect o s
  = (Normal tt,
     Sys (Fields (Some thePort) (Some theWriter) (Some theReader) true)
         (World true true true)
         (events s ++ [connected; log (lit "Serial port opened (9600 8N1)")])
         (calls s ++ [requestPort; port_open; getWriter; getReader])).
Proof.
  destruct s as [[p wr r running] pl ev cl].
  intros (H1 & H2 & H3 & H4). run. rewrite H1. run. rewrite H2. run.
  rewrite H3. run. rewrite H4. run. now rewrite <- !app_assoc.
Qed.

(** [disconnect()] when every step succeeds. *)
Lemma disconnect_ok (o : oracle) (w : bool) (s : sys) :
  disconnects o ->
  exists cs,
    disconnect o w s
    = (Normal tt,
       Sys (Fields None None None false)
           (World (match port (self s) with
                   | Some _ => false | None => port_opened (plat s) end)
                  (match writer (self s) with
                   | Some _ => false | None => writable_locked (plat s) end)
                  (match reader (self s) with
                   | Some _ => false | None => readable_locked (plat s) end))
           (events s ++ [disconnected; log (lit "Serial port closed")])
           (calls s ++ cs)).
Proof.
  destruct s as [[p wr r running] pl ev cl]. destruct pl as [po wl rl].
  intros (H1 & H2 & H3 & H4).
  destruct r as [r|], wr as [wr|], p as [p|], w;
    run; rewrite ?H1; run; rewrite ?H2; run; rewrite ?H3; run; rewrite ?H4; run;
    rewrite <- ?app_assoc; cbn [app effect port_opened writable_locked readable_locked];
    eexists; try reflexivity;
    try (rewrite (app_nil_r cl) at 1; reflexivity).
Qed.

(** X14.  Whatever became of [connect()], be it that it succeeded or that it failed
    at any of its steps, a [disconnect()] whose own steps succeed undoes it: a
    transport that held nothing on a platform with nothing open is again so,
    and [disconnect()] emits no 'error'. *)
Theorem disconnect_undoes_connect (o1 o2 : oracle) (w : bool) (s : sys) :
  self s = new -> plat s = World false false false ->
  disconnects o2 ->
  let s1 := snd (connect o1 s) in
  let s2 := snd (disconnect o2 w s1) in
  self s2 = new /\ plat s2 = World false false false /\
  events s2 = events s1 ++ [disconnected; log (lit "Serial port closed")].
Proof.
  intros Hself Hplat Hd s1 s2.
  destruct (disconnect_ok o2 w s1 Hd) as (cs & E).
  subst s2. rewrite E. cbn [snd self plat events].
  split; [reflexivity|]. split; [|reflexivity].
  subst s1. destruct s as [t pl ev cl]. cbn [self plat] in Hself, Hplat.
  subst t pl. unfold new.
  destruct (o1 requestPort) eqn:E1; [run; rewrite E1; reflexivity|].
  destruct (o1 port_open) eqn:E2; [run; rewrite E1; run; rewrite E2; reflexivity|].
  destruct (o1 getWriter) eqn:E3;
    [run; rewrite E1; run; rewrite E2; run; rewrite E3; reflexivity|].
  destruct (o1 getReader) eqn:E4;
    run; rewrite E1; run; rewrite E2; run; rewrite E3; run; rewrite E4;
    reflexivity.
Qed.

(** X15.  When the reader cannot be taken, the read loop fails before its [try],
    and [connect()], which does not await the loop, knows nothing of it: it
    completes normally, 'connected' and the 'log' are emitted and no 'error',
    the port is open and the writer held, and no reader is held and no loop
    runs that were not before: the transport sends, and does not read. *)
Theorem connect_succeeds_without_reader
  (o : oracle) (err : JsError) (s : sys) :
  o requestPort = None -> o port_open = None -> o getWriter = None ->
  o getReader = Some err ->
  connect o s
  = (Normal tt,
     Sys (Fields (Some thePort) (Some theWriter) (reader (self s))
            (readLoopRunning (self s)))
         (World true true (readable_locked (plat s)))
         (events s ++ [connected; log (lit "Serial port opened (9600 8N1)")])
         (calls s ++ [requestPort; port_open; getWriter; getReader])).
Proof.
  destruct s as [[p wr r running] pl ev cl].
  intros H1 H2 H3 H4. run. rewrite H1. run. rewrite H2. run. rewrite H3. run.
  rewrite H4. run. now rewrite <- !app_assoc.
Qed.

(** X16.  A teardown step of [disconnect()] that fails leaves its field as it
    was: the writer is given up exactly when none was held or its release
    succeeded, the port exactly when none was held or it could be closed.  The
    reader is given up exactly when none was held, or the read loop ended
    while [disconnect()] waited for the cancellation (the loop clears the
    field whether or not the cancellation and the release of the lock
    succeed), or the cancellation and then the release of the lock by
    [disconnect()] itself both succeeded.  The failed step is not tried
    again, and 'disconnected' is emitted all the same. *)
Theorem disconnect_keeps_what_it_cannot_release
  (o : oracle) (w : bool) (s : sys) :
  let s' := snd (disconnect o w s) in
  (writer (self s') = None <->
   writer (self s) = None \/ o writer_releaseLock = None) /\
  (port (self s') = None <->
   port (self s) = None \/ o port_close = None) /\
  (reader (self s') = None <->
   reader (self s) = None \/ w = true \/
   (o reader_cancel = None /\ o reader_releaseLock = None)) /\
  In disconnected (events s').
Proof.
  destruct s as [[p wr r running] pl ev cl].
  cbn [self port writer reader].
  destruct r as [r|], wr as [wr|], p as [p|], w;
    by_answers o;
    cbn [self plat events calls port writer reader readLoopRunning];
    (split; [|split; [|split]];
      [intuition congruence | intuition congruence | intuition congruence
      | rewrite ?in_app_iff; simpl; tauto]).
Qed.

End Lifecycle.

Lemma send_ignores_padding_witness :
  send (codec := ascii_codec) all_succeed
    (lit "  " ++ lit "SI" ++ [CR; LF]) reading_state
  = send (codec := ascii_codec) all_succeed (lit "SI") reading_state.
Proof.
  exact (send_ignores_padding (codec := ascii_codec) all_succeed
           (lit "  ") (lit "SI") [CR; LF] reading_state eq_refl eq_refl).
Defined.

Lemma connect_succeeds_without_reader_witness :
  connect (codec := ascii_codec)
    (fun c => match c with
              | getReader => Some (Err (lit "The stream is locked"))
              | _ => None
              end) initial
  = (Normal tt,
     Sys (Fields (Some thePort) (Some theWriter) (reader (self initial))
            (readLoopRunning (self initial)))
         (World true true (readable_locked (plat initial)))
         (events initial
            ++ [connected; log (lit "Serial port opened (9600 8N1)")])
         (calls initial ++ [requestPort; port_open; getWriter; getReader])).
Proof.
  exact (connect_succeeds_without_reader (codec := ascii_codec)
           (fun c => match c with
                     | getReader => Some (Err (lit "The stream is locked"))
                     | _ => None
                     end) (Err (lit "The stream is locked")) initial
           eq_refl eq_refl eq_refl eq_refl).
Defined.

Lemma disconnect_undoes_connect_witness :
  let s1 := snd (connect (codec := ascii_codec) writer_fails initial) in
  let s2 := snd (disconnect all_succeed true s1) in
  self s2 = new /\ plat s2 = World false false false /\
  events s2 = events s1 ++ [disconnected; log (lit "Serial port closed")].
Proof.
  exact (disconnect_undoes_connect (codec := ascii_codec)
           writer_fails all_succeed true initial eq_refl eq_refl
           (conj eq_refl (conj eq_refl (conj eq_refl eq_refl)))).
Defined.

End LifecycleFacts.

(** ** The chart's time window *)

Module ChartFacts.

Import ChartManager.

Lemma chronological_snoc (d : list point) (p : point) :
  chronological (d ++ [p]) <->
  chronological d /\ Forall (fun q => (x q <= x p)%Z) d.
Proof.
  induction d as [|q d IH]; cbn [app chronological].
  - split; [intros _; split; [exact I|constructor]|intros _; split; [constructor|exact I]].
  - rewrite Forall_app, IH. split.
    + intros ((Hq & Hp) & Hd & Hle). inversion Hp; subst.
      split; [split; assumption|]. constructor; assumption.
    + intros ((Hq & Hd) & Hle). inversion Hle; subst.
      split; [split; [assumption|]|split; assumption].
      constructor; [assumption|constructor].
Qed.

(** On points in the order of their times, dropping from the front while a
    point is older than the cutoff leaves the points that are not older. *)
Lemma shift_while_filter (cutoff : Z) (d : list point) :
  chronological d ->
  shift_while (fun p => (x p <? cutoff)%Z) d
  = filter (fun p => (cutoff <=? x p)%Z) d.
Proof.
  induction d as [|p d IH]; [reflexivity|].
  cbn [chronological shift_while filter]. intros [Hp Hd].
  destruct (x p <? cutoff)%Z eqn:E.
  - apply Z.ltb_lt in E.
    replace (cutoff <=? x p)%Z with false by (symmetry; apply Z.leb_gt; lia).
    now apply IH.
  - apply Z.ltb_ge in E.
    replace (cutoff <=? x p)%Z with true by (symmetry; apply Z.leb_le; lia).
    f_equal. symmetry. apply forallb_filter_id. apply forallb_forall.
    intros q Hq. rewrite Forall_forall in Hp. specialize (Hp q Hq).
    apply Z.leb_le. lia.
Qed.

Lemma shift_while_suffix (old : point -> bool) (d : list point) :
  exists dropped, d = dropped ++ shift_while old d.
Proof.
  induction d as [|p d [dr IH]]; [now exists []|].
  cbn [shift_while]. destruct (old p).
  - exists (p :: dr). cbn [app]. now f_equal.
  - now exists [].
Qed.

Lemma chronological_suffix (a b : list point) :
  chronological (a ++ b) -> chronological b.
Proof.
  induction a as [|p a IH]; [trivial|].
  cbn [app chronological]. intros [_ H]. now apply IH.
Qed.

Lemma chronological_shift (old : point -> bool) (d : list point) :
  chronological d -> chronological (shift_while old d).
Proof.
  intros H. destruct (shift_while_suffix old d) as [dr E].
  rewrite E in H. now apply chronological_suffix in H.
Qed.

Lemma Forall_shift (P : point -> Prop) (old : point -> bool) (d : list point) :
  Forall P d -> Forall P (shift_while old d).
Proof.
  intros H. destruct (shift_while_suffix old d) as [dr E].
  rewrite E in H. now apply Forall_app in H as [_ H].
Qed.

(** X17.  With points in the order of their times and none in the future, a number
    given to the chart leaves exactly the points of the time window, the new
    one included, in their order; [setTimeWindow] leaves exactly the points of
    the new window. *)
Theorem chart_holds_the_window (now : Z) (c : t) :
  chronological (data c) ->
  Forall (fun p => (x p <= now)%Z) (data c) ->
  (forall v, isNaN v = false ->
     data (addReading now (Some v) c)
     = filter (fun p => (now - timeWindow c * 1000 <=? x p)%Z)
         (data c ++ [Point now v])) /\
  (forall seconds,
     data (setTimeWindow now seconds c)
     = filter (fun p => (now - seconds * 1000 <=? x p)%Z) (data c)).
Proof.
  intros Hc Hnow. split.
  - intros v Hv. cbn [addReading]. rewrite Hv.
    cbn [prune data timeWindow]. apply shift_while_filter.
    apply chronological_snoc. split; assumption.
  - intros seconds. cbn [setTimeWindow prune data timeWindow].
    now apply shift_while_filter.
Qed.

Lemma chart_holds_the_window_witness :
  (forall v, isNaN v = false ->
     data (addReading 400000 (Some v)
             (Make [Point 1000 (decimal 1 0); Point 350000 (decimal 2 0)] 300))
     = filter (fun p => (400000 - 300 * 1000 <=? x p)%Z)
         ([Point 1000 (decimal 1 0); Point 350000 (decimal 2 0)]
            ++ [Point 400000 v])) /\
  (forall seconds,
     data (setTimeWindow 400000 seconds
             (Make [Point 1000 (decimal 1 0); Point 350000 (decimal 2 0)] 300))
     = filter (fun p => (400000 - seconds * 1000 <=? x p)%Z)
         [Point 1000 (decimal 1 0); Point 350000 (decimal 2 0)]).
Proof.
  apply (chart_holds_the_window 400000
           (Make [Point 1000 (decimal 1 0); Point 350000 (decimal 2 0)] 300)).
  - cbn. repeat constructor. all: cbn; lia.
  - cbn. repeat constructor. all: cbn; lia.
Defined.

Lemma in_order_later (last last' : Z) (c : t) :
  (last <= last')%Z -> in_order last c -> in_order last' c.
Proof.
  intros Hle (H1 & H2 & H3). repeat split; try assumption.
  eapply Forall_impl; [|exact H2]. cbn. intros; lia.
Qed.

Lemma in_order_prune (last now : Z) (c : t) :
  in_order last c -> in_order last (prune now c).
Proof.
  intros (H1 & H2 & H3). unfold in_order, prune. cbn [data].
  repeat split; [now apply chronological_shift|now apply Forall_shift..].
Qed.

Lemma in_order_step (last : Z) (c : t) (o : ChartRun.op) :
  in_order last c ->
  Forall (fun u => (last <= u)%Z) (ChartRun.times [o]) ->
  in_order (List.last (ChartRun.times [o]) last) (ChartRun.step c o).
Proof.
  intros Hc Ht. destruct o as [now [v|] | | now seconds]; cbn in Ht |- *.
  - inversion Ht; subst.
    destruct (isNaN v) eqn:Ev; [now apply (in_order_later last)|].
    apply in_order_prune. destruct Hc as (Hc1 & Hc2 & Hc3).
    unfold in_order. cbn [data]. repeat split.
    + apply chronological_snoc. split; [assumption|].
      eapply Forall_impl; [|exact Hc2]. cbn. intros; lia.
    + apply Forall_app. split.
      * eapply Forall_impl; [|exact Hc2]. cbn. intros; lia.
      * repeat constructor. cbn. lia.
    + apply Forall_app. split; [assumption|]. now repeat constructor.
  - inversion Ht; subst. now apply (in_order_later last).
  - unfold clear, in_order. cbn [data]. repeat split; constructor.
  - inversion Ht; subst. unfold setTimeWindow.
    apply in_order_prune. apply (in_order_later last); [assumption|].
    exact Hc.
Qed.

Lemma last_cons_default (a d : Z) (l : list Z) :
  List.last (a :: l) d = List.last l a.
Proof.
  revert a d. induction l as [|b l IH]; intros a d; [reflexivity|].
  change (List.last (a :: b :: l) d) with (List.last (b :: l) d).
  rewrite IH. symmetry. apply IH.
Qed.

Lemma in_order_run (ops : list ChartRun.op) :
  forall (last : Z) (c : t),
    in_order last c ->
    Forall (fun u => (last <= u)%Z) (ChartRun.times ops) ->
    ascending (ChartRun.times ops) ->
    in_order (List.last (ChartRun.times ops) last) (ChartRun.run ops c).
Proof.
  induction ops as [|o ops IH]; intros last c Hc Hle Hasc; [exact Hc|].
  pose proof (in_order_step last c o Hc) as Hstep.
  destruct o as [now v | | now seconds];
    cbn [ChartRun.times flat_map app ChartRun.run fold_left] in *;
    fold (ChartRun.times ops) in *; fold (ChartRun.run ops) in *.
  - destruct Hasc as [Hnow Hasc]. inversion Hle; subst.
    rewrite last_cons_default. apply IH; [|assumption..].
    apply Hstep. now repeat constructor.
  - apply IH; [|assumption..]. apply Hstep. constructor.
  - destruct Hasc as [Hnow Hasc]. inversion Hle; subst.
    rewrite last_cons_default. apply IH; [|assumption..].
    apply Hstep. now repeat constructor.
Qed.

(** X18.  As long as the clock does not go back, the points of a chart are in the
    order of their times, none is later than the last clock reading, and none
    is NaN, whatever has been done to the chart since it was created: so the
    points it holds after a call are those of the time window. *)
Theorem chart_stays_in_order (ops : list ChartRun.op) :
  ascending (ChartRun.times ops) ->
  let c := ChartRun.run ops new in
  chronological (data c) /\
  Forall (fun p => (x p <= List.last (ChartRun.times ops) 0)%Z) (data c) /\
  Forall (fun p => isNaN (y p) = false) (data c).
Proof.
  intros Hasc.
  destruct (ChartRun.times ops) as [|t rest] eqn:E.
  - assert (H : in_order 0 new) by (repeat split; constructor).
    pose proof (in_order_run ops 0 new H) as Hrun.
    rewrite E in Hrun. apply Hrun; constructor.
  - assert (H : in_order t new) by (repeat split; constructor).
    pose proof (in_order_run ops t new H) as Hrun.
    rewrite E in Hrun. rewrite last_cons_default.
    rewrite last_cons_default in Hrun.
    destruct Hasc as [Ht Hasc].
    apply Hrun; [|split; assumption].
    constructor; [lia|assumption].
Qed.

Lemma chart_stays_in_order_witness :
  let c := ChartRun.run [ChartRun.Add 1000 (Some (decimal 1 0));
                         ChartRun.SetTimeWindow 2000 60;
                         ChartRun.Add 400000 (Some (decimal 2 0))] new in
  chronological (data c) /\
  Forall (fun p => (x p <= 400000)%Z) (data c) /\
  Forall (fun p => isNaN (y p) = false) (data c).
Proof.
  apply (chart_stays_in_order [ChartRun.Add 1000 (Some (decimal 1 0));
                               ChartRun.SetTimeWindow 2000 60;
                               ChartRun.Add 400000 (Some (decimal 2 0))]).
  cbn. repeat constructor. all: lia.
Defined.

End ChartFacts.

(** ** The recorder's file *)

Module RecorderFiles.

Lemma split_nl_line (l rest : jsstring) :
  existsb (N.eqb LF) l = false ->
  split_nl (l ++ LF :: rest) = l :: split_nl rest.
Proof.
  induction l as [|c l IH]; [reflexivity|].
  cbn [existsb app split_nl]. rewrite (N.eqb_sym LF c).
  destruct (c =? LF)%N; [discriminate|]. cbn [orb].
  intros H. now rewrite (IH H).
Qed.

Lemma split_nl_joined (p : jsstring) (rest : list jsstring) :
  Forall (fun l => existsb (N.eqb LF) l = false) (p :: rest) ->
  split_nl (joined [LF] (p :: rest) ++ [LF]) = (p :: rest) ++ [[]].
Proof.
  revert p. induction rest as [|q rest IH]; intros p Hall; cbn [joined flat_map].
  - inversion Hall; subst. rewrite app_nil_r. now rewrite split_nl_line.
  - inversion Hall; subst. cbn [app]. rewrite <- !app_assoc. cbn [app].
    rewrite split_nl_line by assumption.
    specialize (IH q H2). cbn [joined] in IH. f_equal. exact IH.
Qed.

Lemma strip_from_point_fraction (body frac : jsstring) :
  existsb is_dot body = false ->
  frac <> [] -> forallb Recorder.is_dot_char frac = true ->
  Recorder.strip_from_point (body ++ DOT :: frac) = body.
Proof.
  intros Hbody Hne Hfrac. induction body as [|c body IH].
  - cbn [app Recorder.strip_from_point]. rewrite N.eqb_refl.
    destruct frac as [|x frac]; [contradiction|].
    cbn [forallb] in Hfrac. apply andb_prop in Hfrac as [Hx Hrest].
    rewrite Hx. cbn [dropWhile]. rewrite Hx.
    now apply dropWhile_all.
  - cbn [existsb] in Hbody. apply orb_false_elim in Hbody as [Hc Hbody].
    cbn [app Recorder.strip_from_point]. unfold is_dot in Hc. rewrite Hc.
    now rewrite (IH Hbody).
Qed.

Section Files.

Context {host : Host}.

(** X19.  The file of a recording that is not empty reads back, split at its line
    feeds, as the header line, one line per recorded reading in the order of
    recording, and nothing after the last line feed; no row is quoted or
    escaped, so this holds of rows without a line feed.  Of an empty recording
    no file is made. *)
Theorem file_has_a_line_per_reading (now : Z) (r : Recorder.t) :
  Forall (fun e => existsb (N.eqb LF) (Recorder.row e) = false)
    (Recorder.data r) ->
  match Recorder.data r with
  | [] => Recorder.download now r = (false, None)
  | _ :: _ =>
      exists f,
        Recorder.download now r = (true, Some f) /\
        split_nl (Recorder.content f)
        = csv_header :: map Recorder.row (Recorder.data r) ++ [[]]
  end.
Proof.
  intros Hrows. unfold Recorder.download.
  destruct (Recorder.data r) as [|e d]; [reflexivity|].
  eexists. split; [reflexivity|]. cbn [Recorder.content]. unfold Recorder.csv.
  change (lit "Timestamp,Value,Unit" ++ [LF]) with (csv_header ++ [LF]).
  rewrite <- app_assoc. cbn [app].
  rewrite split_nl_line by reflexivity. f_equal.
  cbn [map]. apply split_nl_joined.
  change (Forall (fun l => existsb (N.eqb LF) l = false)
            (map Recorder.row (e :: d))).
  now apply Forall_map.
Qed.

(** X20.  When the host writes the time, as ISO 8601 asks, with one point, before
    the fraction of the second, the name of the file carries the time to the
    second with its colons and hyphens taken out. *)
Theorem file_name_carries_the_second
  (now : Z) (r : Recorder.t) (body frac : jsstring) :
  toISOString now = body ++ DOT :: frac ->
  existsb is_dot body = false ->
  frac <> [] ->
  forallb Recorder.is_dot_char frac = true ->
  existsb stamp_punctuation frac = false ->
  Recorder.data r <> [] ->
  option_map Recorder.filename (snd (Recorder.download now r))
  = Some (lit "scale_recording_"
            ++ filter (fun c => negb (stamp_punctuation c)) body
            ++ lit ".csv").
Proof.
  intros Hiso Hbody Hne Hdot Hpunct Hdata. unfold Recorder.download.
  destruct (Recorder.data r) as [|e d]; [contradiction|].
  cbn [snd option_map Recorder.filename]. do 3 f_equal.
  unfold Recorder.file_stamp. rewrite Hiso.
  change (fun c => negb ((c =? 58) || (c =? MINUS))%N)
    with (fun c => negb (stamp_punctuation c)).
  rewrite filter_app. cbn [filter].
  change (negb (stamp_punctuation DOT)) with true. cbv iota.
  assert (Hkeep : filter (fun c => negb (stamp_punctuation c)) frac = frac).
  { apply forallb_filter_id. apply forallb_forall. intros c Hc.
    destruct (stamp_punctuation c) eqn:E; [|reflexivity].
    exfalso. assert (existsb stamp_punctuation frac = true)
      by (apply existsb_exists; eauto).
    congruence. }
  rewrite Hkeep. apply strip_from_point_fraction; try assumption.
  clear -Hbody. induction body as [|c body IH]; [reflexivity|].
  cbn [existsb] in Hbody. apply orb_false_elim in Hbody as [Hc Hbody].
  cbn [filter]. destruct (negb (stamp_punctuation c)); [|now apply IH].
  cbn [existsb]. rewrite Hc. now apply IH.
Qed.

End Files.

Lemma file_has_a_line_per_reading_witness :
  exists f,
    Recorder.download (H := sample_host) 0
      (Recorder.Make [Recorder.Entry (lit "t1") None (lit "g");
                      Recorder.Entry (lit "t2") None []] false)
    = (true, Some f) /\
    split_nl (Recorder.content f)
    = csv_header
        :: map (Recorder.row (H := sample_host))
             [Recorder.Entry (lit "t1") None (lit "g");
              Recorder.Entry (lit "t2") None []] ++ [[]].
Proof.
  apply (file_has_a_line_per_reading (host := sample_host) 0
           (Recorder.Make [Recorder.Entry (lit "t1") None (lit "g");
                           Recorder.Entry (lit "t2") None []] false)).
  repeat constructor.
Defined.

Lemma file_name_carries_the_second_witness :
  option_map Recorder.filename
    (snd (Recorder.download (H := sample_host) 0
            (Recorder.Make [Recorder.Entry (lit "t1") None (lit "g")] false)))
  = Some (lit "scale_recording_20240102T030405.csv").
Proof.
  exact (file_name_carries_the_second (host := sample_host) 0
           (Recorder.Make [Recorder.Entry (lit "t1") None (lit "g")] false)
           (lit "2024-01-02T03:04:05") (lit "678Z")
           eq_refl eq_refl ltac:(discriminate) eq_refl eq_refl
           ltac:(discriminate)).
Defined.

End RecorderFiles.

(** ** The page over a run of readings *)

Lemma reading_value_a_number (line : jsstring) (v : jsnumber) :
  Reading.value (reading_of line) = Some v -> isNaN v = false.
Proof.
  rewrite reading_of_refines_spec. unfold ReadingParserSpec.parse.
  destruct (ReadingParserSpec.first_literal line)
    as [[[[sign ip] fp] rest]|] eqn:E; [|discriminate].
  apply first_literal_sound in E.
  destruct E as (_ & _ & _ & _ & _ & Hip & Hfp).
  cbn [Reading.value]. intros H. injection H as H.
  assert (Hnan : v <> S754_nan).
  { rewrite <- H. apply nearest_double_not_NaN, digits_val_nonneg.
    rewrite forallb_app, Hip.
    destruct Hfp as [->|(ds & -> & _ & Hds)]; [reflexivity|exact Hds]. }
  destruct v; try reflexivity. contradiction.
Qed.

Module PageRunFacts.

Import PageRun.

Section Run.

Context {host : Host} {tr : StatsTracker}.

(** X21.  Over any run of 'reading' events, the chart, the statistics and the
    recorder are each given the readings whose value is a number, all of them
    and no other, in the order of arrival; the readings without a number leave
    the three as they are, and the time of the last reading is that of the
    last event. *)
Theorem listener_feeds_numbers
  (l : list (Page.clock * Reading.t)) (st : Page.state) :
  let st' := listen l st in
  Page.stats st'
  = fold_left (fun t n => addValue (snd (fst n)) t) (numbers l) (Page.stats st)
  /\
  Page.recorder st'
  = RecorderRun.run
      (map (fun n => RecorderRun.Add (Page.at_recorder (fst (fst n)))
                       (Some (snd (fst n))) (snd n)) (numbers l))
      (Page.recorder st)
  /\
  Page.chart st'
  = option_map
      (ChartRun.run
         (map (fun n => ChartRun.Add (Page.at_chart (fst (fst n)))
                          (Some (snd (fst n)))) (numbers l)))
      (Page.chart st)
  /\
  Page.lastReadingTime st'
  = List.last (map (fun x => Page.at_listener (fst x)) l)
      (Page.lastReadingTime st).
Proof.
  revert st. induction l as [|[now detail] l IH]; intros st.
  - cbn. repeat split. now destruct (Page.chart st).
  - cbn zeta in IH |- *. unfold listen in IH |- *. cbn [fold_left fst snd].
    specialize (IH (Page.on_reading now detail st)).
    destruct IH as (IH1 & IH2 & IH3 & IH4).
    rewrite IH1, IH2, IH3, IH4. clear IH1 IH2 IH3 IH4.
    unfold numbers. cbn [flat_map fst snd map].
    fold (numbers l).
    rewrite (ChartFacts.last_cons_default (Page.at_listener now)
               (Page.lastReadingTime st)).
    unfold Page.on_reading.
    destruct (Reading.value detail) as [v|];
      cbn [app map fold_left fst snd Page.stats Page.recorder Page.chart
           Page.lastReadingTime RecorderRun.run RecorderRun.step
           ChartRun.run ChartRun.step];
      repeat split; now destruct (Page.chart st).
Qed.

Lemma set_text_ids (id : string) (text : jsstring) (d : Page.dom) :
  map fst (Page.set_text id text d) = map fst d.
Proof.
  unfold Page.set_text. rewrite map_map. apply map_ext.
  intros [k v]. cbn [fst]. now destruct (String.eqb k id).
Qed.

Lemma on_reading_frame (now : Page.clock) (detail : Reading.t) (st : Page.state) :
  map fst (Page.document (Page.on_reading now detail st))
  = map fst (Page.document st) /\
  forall id,
    existsb (String.eqb id) listener_ids = false ->
    text_of id (Page.document (Page.on_reading now detail st))
    = text_of id (Page.document st).
Proof.
  unfold Page.on_reading, Page.updateStats, Page.updateReadout.
  split.
  - destruct (Reading.value detail); cbn [Page.document];
      now rewrite !set_text_ids.
  - intros id Hid. cbn [listener_ids existsb] in Hid.
    repeat (apply orb_false_elim in Hid as [?%String.eqb_neq Hid]).
    destruct (Reading.value detail); cbn [Page.document];
      now rewrite !text_of_set_text_other.
Qed.

(** X22.  Over any run of 'reading' events the listener writes to the three
    elements of the read-out and the five of the statistics, and to no other:
    the text of every other element stays as it is, and the listener neither
    adds an element to the document nor takes one away, so that an element the
    page lacks is passed over. *)
Theorem listener_writes_its_elements_only
  (l : list (Page.clock * Reading.t)) (st : Page.state) :
  map fst (Page.document (listen l st)) = map fst (Page.document st) /\
  forall id,
    existsb (String.eqb id) listener_ids = false ->
    text_of id (Page.document (listen l st)) = text_of id (Page.document st).
Proof.
  revert st. unfold listen.
  induction l as [|[now detail] l IH]; intros st; [now split|].
  cbn [fold_left fst snd].
  destruct (IH (Page.on_reading now detail st)) as [IH1 IH2].
  destruct (on_reading_frame now detail st) as [H1 H2].
  split; [now rewrite IH1|].
  intros id Hid. now rewrite IH2, H2.
Qed.

(** X23.  Whatever lines the device sends, the recorder's rows keep carrying
    numbers: the listener never records [null], and the parser never gives
    NaN. *)
Theorem recorded_values_are_numbers
  (lines : list (Page.clock * jsstring)) (st : Page.state) :
  Forall numeric_entry (Recorder.data (Page.recorder st)) ->
  Forall numeric_entry (Recorder.data (Page.recorder (on_lines lines st))).
Proof.
  revert st. unfold on_lines, listen.
  induction lines as [|[now line] lines IH]; intros st Hst; [exact Hst|].
  cbn [map fold_left fst snd]. apply IH.
  unfold Page.on_reading.
  destruct (Reading.value (reading_of line)) as [v|] eqn:Ev;
    cbn [Page.recorder]; [|exact Hst].
  unfold Recorder.addReading.
  destruct (negb (Recorder.recording (Page.recorder st))); [exact Hst|].
  cbn [Recorder.data]. apply Forall_app. split; [exact Hst|].
  constructor; [|constructor].
  exists v. split; [reflexivity|]. exact (reading_value_a_number line v Ev).
Qed.

Lemma drop_zeros_fraction (ip rf : jsstring) :
  rf <> [] -> forallb is_digit rf = true ->
  Page.drop_zeros (ip ++ DOT :: rev rf)
  = ip ++ (if forallb is_zero rf then []
           else DOT :: rev (dropWhile is_zero rf)).
Proof.
  intros Hne Hdig. unfold Page.drop_zeros.
  change (fun c : codeunit => (c =? 48)%N) with is_zero.
  rewrite rev_app_distr. cbn [rev]. rewrite <- app_assoc. cbn [app].
  rewrite rev_involutive.
  destruct rf as [|c r]; [contradiction|]. clear Hne.
  cbn [app]. fold (is_zero c).
  destruct (forallb is_zero (c :: r)) eqn:Hall.
  + change (c :: r ++ DOT :: rev ip) with ((c :: r) ++ DOT :: rev ip).
    rewrite dropWhile_app_all by exact Hall.
    cbn [forallb] in Hall. apply andb_prop in Hall as [Hc _]. rewrite Hc.
    cbn [dropWhile]. change (is_zero DOT) with false. cbv iota.
    rewrite N.eqb_refl. now rewrite rev_involutive, app_nil_r.
  + destruct (dropWhile is_zero (c :: r)) as [|p r'] eqn:Ed.
    { destruct (dropWhile_suffix is_zero (c :: r)) as (pre & Hs & Hpre).
      rewrite Ed, app_nil_r in Hs. subst pre. congruence. }
    assert (Hp : is_zero p = false /\ is_digit p = true).
    { split.
      - pose proof (dropWhile_head is_zero (c :: r)) as Hh.
        rewrite Ed in Hh. exact Hh.
      - destruct (dropWhile_suffix is_zero (c :: r)) as (pre & Hs & _).
        rewrite Ed in Hs. rewrite Hs, forallb_app in Hdig.
        apply andb_prop in Hdig as [_ Hdig]. cbn [forallb] in Hdig.
        now apply andb_prop in Hdig as [Hdig _]. }
    destruct Hp as [Hpz Hpd].
    assert (Hdot : (p =? DOT)%N = false).
    { destruct (p =? DOT)%N eqn:E; [|reflexivity].
      apply N.eqb_eq in E. subst p. discriminate. }
    destruct (is_zero c) eqn:Ec.
    * change (c :: r ++ DOT :: rev ip) with ((c :: r) ++ DOT :: rev ip).
      rewrite dropWhile_app_some by (rewrite Ed; discriminate).
      rewrite Ed. cbn [app]. rewrite Hdot.
      change (p :: r' ++ DOT :: rev ip) with ((p :: r') ++ DOT :: rev ip).
      rewrite rev_app_distr. cbn [rev app]. rewrite rev_involutive.
      now rewrite <- !app_assoc.
    * cbn [dropWhile] in Ed. rewrite Ec in Ed. injection Ed as <- <-.
      reflexivity.
Qed.

Lemma drop_zeros_plain (rs : jsstring) :
  existsb is_dot rs = false ->
  Page.drop_zeros (rev rs) = rev (dropWhile is_zero rs).
Proof.
  intros Hs. unfold Page.drop_zeros.
  change (fun c : codeunit => (c =? 48)%N) with is_zero.
  rewrite rev_involutive.
  destruct rs as [|c t]; [reflexivity|].
  fold (is_zero c). destruct (is_zero c) eqn:Ec.
  - destruct (dropWhile is_zero (c :: t)) as [|p r'] eqn:Ed; [reflexivity|].
    destruct (dropWhile_suffix is_zero (c :: t)) as (pre & Hpre & _).
    rewrite Ed in Hpre. rewrite Hpre, existsb_app in Hs.
    apply orb_false_elim in Hs as [_ Hs]. cbn [existsb] in Hs.
    apply orb_false_elim in Hs as [Hp _]. unfold is_dot in Hp.
    now rewrite Hp.
  - cbn [dropWhile]. now rewrite Ec.
Qed.

(** X24.  The number format of the read-out and of the statistics,
    [toFixed(4).replace(/\.?0+$/, '')].  Of digits after a point it drops the
    zeros at the end, and the point with them when nothing else follows it;
    what precedes the point stays whole.  Of a text that has no point, as
    [toFixed] gives for a magnitude of 1e21 or more, it drops the zeros at the
    end all the same: 1e+30 is shown as 1e+3. *)
Theorem drop_zeros_shape :
  (forall ip fp,
     fp <> [] -> forallb is_digit fp = true ->
     Page.drop_zeros (ip ++ DOT :: fp)
     = ip ++ (if forallb is_zero fp then []
              else DOT :: without_trailing_zeros fp)) /\
  (forall s,
     existsb is_dot s = false ->
     Page.drop_zeros s = without_trailing_zeros s) /\
  Page.drop_zeros (lit "120.4500") = lit "120.45" /\
  Page.drop_zeros (lit "100.0000") = lit "100" /\
  Page.drop_zeros (lit "1e+30") = lit "1e+3".
Proof.
  split; [|split; [|split; [|split]]].
  - intros ip fp Hne Hdig. unfold without_trailing_zeros.
    rewrite <- (forallb_rev is_zero fp).
    pose proof (drop_zeros_fraction ip (rev fp)) as H.
    rewrite rev_involutive in H. apply H.
    + intros E. apply (f_equal (@rev _)) in E.
      rewrite rev_involutive in E. now subst fp.
    + now rewrite forallb_rev.
  - intros s Hs. unfold without_trailing_zeros.
    pose proof (drop_zeros_plain (rev s)) as H.
    rewrite rev_involutive in H. apply H. now rewrite existsb_rev.
  - reflexivity.
  - reflexivity.
  - reflexivity.
Qed.

End Run.

Lemma recorded_values_are_numbers_witness :
  Forall numeric_entry
    (Recorder.data
       (Page.recorder
          (on_lines (host := sample_host) (tr := counting_tracker)
             [(sample_clock, lit "ES"); (sample_clock, lit "S S     120.45 g")]
             (Page.State (tr := counting_tracker) 0%Z [] None 0%nat
                (Recorder.start Recorder.new))))).
Proof.
  apply (recorded_values_are_numbers (host := sample_host)
           (tr := counting_tracker)
           [(sample_clock, lit "ES"); (sample_clock, lit "S S     120.45 g")]
           (Page.State (tr := counting_tracker) 0%Z [] None 0%nat
              (Recorder.start Recorder.new))).
  constructor.
Defined.

End PageRunFacts.

(** ** Polling the scale *)

Module MeasurementFacts.

Import Measurement.

Lemma filter_filter_comm {A} (f g : A -> bool) (l : list A) :
  filter f (filter g l) = filter g (filter f l).
Proof.
  induction l as [|a l IH]; [reflexivity|].
  cbn [filter]. destruct (g a) eqn:Eg, (f a) eqn:Ef; cbn [filter];
    rewrite ?Eg, ?Ef, IH; reflexivity.
Qed.

Lemma NoDup_handles_filter (g : timer_entry -> bool) (l : list timer_entry) :
  NoDup (map handle l) -> NoDup (map handle (filter g l)).
Proof.
  induction l as [|e l IH]; [trivial|].
  cbn [map filter]. intros H. inversion H as [|? ? Hnot Hl]; subst.
  destruct (g e); [|now apply IH].
  cbn [map]. constructor; [|now apply IH].
  intros Hin. apply Hnot. apply in_map_iff in Hin as (e' & He' & Hin).
  apply filter_In in Hin as [Hin _]. apply in_map_iff. now exists e'.
Qed.

Lemma handle_unique (l : list timer_entry) (e1 e2 : timer_entry) :
  NoDup (map handle l) -> In e1 l -> In e2 l -> handle e1 = handle e2 ->
  e1 = e2.
Proof.
  induction l as [|e l IH]; [contradiction|].
  cbn [map]. intros H. inversion H as [|? ? Hnot Hl]; subst.
  intros [<-|H1] [<-|H2] Heq; [reflexivity| | |now apply IH].
  - exfalso. apply Hnot. rewrite Heq. now apply in_map.
  - exfalso. apply Hnot. rewrite <- Heq. now apply in_map.
Qed.

Lemma find_handle_app (t : timer) (l1 l2 : list timer_entry) :
  find (fun e => (handle e =? t)%positive) (l1 ++ l2)
  = match find (fun e => (handle e =? t)%positive) l1 with
    | Some e => Some e
    | None => find (fun e => (handle e =? t)%positive) l2
    end.
Proof.
  induction l1 as [|e l1 IH]; [reflexivity|].
  cbn [app find]. now destruct (handle e =? t)%positive.
Qed.

Lemma find_handle_fresh (t : timer) (n : timer) (l : list timer_entry) :
  Forall (fun e => (handle e < n)%positive) l -> (n <= t)%positive ->
  find (fun e => (handle e =? t)%positive) l = None.
Proof.
  intros Hall Hle. induction Hall as [|e l He _ IH]; [reflexivity|].
  cbn [find]. replace (handle e =? t)%positive with false; [exact IH|].
  symmetry. apply Pos.eqb_neq. lia.
Qed.

Lemma find_handle_cleared (t h : timer) (l : list timer_entry) :
  h <> t ->
  find (fun e => (handle e =? t)%positive)
    (filter (fun e => negb (handle e =? h)%positive) l)
  = find (fun e => (handle e =? t)%positive) l.
Proof.
  intros Hne. induction l as [|e l IH]; [reflexivity|].
  cbn [filter find]. destruct (handle e =? h)%positive eqn:Eh; cbn [negb].
  - apply Pos.eqb_eq in Eh.
    replace (handle e =? t)%positive with false; [exact IH|].
    symmetry. apply Pos.eqb_neq. congruence.
  - cbn [find]. now rewrite IH.
Qed.

Section Polling.

Context {host : Host}.

(** *** What a toast leaves as it is *)

Lemma showToast_frame (m : jsstring) (ty : string) (d : Z) (st : state) :
  measurementInterval (showToast m ty d st) = measurementInterval st /\
  measurementTimeout (showToast m ty d st) = measurementTimeout st /\
  lastReadingTime (showToast m ty d st) = lastReadingTime st /\
  sent (showToast m ty d st) = sent st /\
  logged (showToast m ty d st) = logged st /\
  toastContainer (showToast m ty d st) = toastContainer st /\
  (next_handle st <= next_handle (showToast m ty d st))%positive /\
  (timers (showToast m ty d st) = timers st \/
   timers (showToast m ty d st)
   = timers st ++ [Timer (next_handle st) d Dismiss] /\
   next_handle (showToast m ty d st) = Pos.succ (next_handle st)).
Proof.
  unfold showToast.
  destruct (toastContainer st) eqn:Ec; [destruct (0 <? d)%Z|];
    cbn [set_timer snd measurementInterval measurementTimeout lastReadingTime
         sent logged toastContainer next_handle timers];
    do 5 (split; [reflexivity|]);
    (split; [first [reflexivity | now rewrite Ec]|]);
    (split; [lia|]);
    first [left; reflexivity | right; split; reflexivity].
Qed.

Lemma showToast_polling (m : jsstring) (ty : string) (d : Z) (st : state) :
  filter of_polling (timers (showToast m ty d st))
  = filter of_polling (timers st).
Proof.
  destruct (showToast_frame m ty d st)
    as (_ & _ & _ & _ & _ & _ & _ & [->|[-> _]]); [reflexivity|].
  rewrite filter_app. cbn. apply app_nil_r.
Qed.

Lemma well_timed_set (d : Z) (w : task) (st : state) :
  well_timed st -> well_timed (snd (set_timer d w st)).
Proof.
  intros [Hlt Hnd]. unfold well_timed, set_timer. cbn [snd timers next_handle].
  split.
  - apply Forall_app. split.
    + eapply Forall_impl; [|exact Hlt]. cbn. intros; lia.
    + repeat constructor. cbn. lia.
  - rewrite map_app. cbn [map handle].
    apply NoDup_app; [exact Hnd|repeat constructor; intros []|].
    intros h Hin [<-|[]].
    apply in_map_iff in Hin as (e & He & Hin).
    rewrite Forall_forall in Hlt. specialize (Hlt e Hin). lia.
Qed.

Lemma well_timed_clear (h : option timer) (st : state) :
  well_timed st -> well_timed (clear_timer h st).
Proof.
  intros [Hlt Hnd]. destruct h as [h|]; [|now split].
  unfold well_timed. cbn [clear_timer timers next_handle]. split.
  - apply Forall_forall. intros e He. apply filter_In in He as [He _].
    rewrite Forall_forall in Hlt. now apply Hlt.
  - now apply NoDup_handles_filter.
Qed.

Lemma well_timed_same (st st' : state) :
  timers st' = timers st -> next_handle st' = next_handle st ->
  well_timed st -> well_timed st'.
Proof. unfold well_timed. now intros -> ->. Qed.

Lemma well_timed_toast (m : jsstring) (ty : string) (d : Z) (st : state) :
  well_timed st -> well_timed (showToast m ty d st).
Proof.
  intros H. unfold showToast. destruct (toastContainer st); [|exact H].
  destruct (0 <? d)%Z.
  - apply well_timed_set. now apply (well_timed_same st).
  - now apply (well_timed_same st).
Qed.

Lemma well_timed_stop (st : state) :
  well_timed st -> well_timed (stopMeasurement st).
Proof.
  intros H. unfold stopMeasurement.
  destruct (measurementInterval st); [|exact H].
  eapply well_timed_same; [reflexivity|reflexivity|].
  now do 2 apply well_timed_clear.
Qed.

Lemma well_timed_step (st : state) (i : input) :
  well_timed st -> well_timed (step st i).
Proof.
  intros H. destruct i as [rate| | |now|h| |m|m]; cbn [step].
  - unfold startMeasurement. destruct (measurementInterval st); [exact H|].
    match goal with
    | |- context [set_timer ?d Poll st] =>
        pose proof (well_timed_set d Poll st H) as H1;
        destruct (set_timer d Poll st) as [i st1] eqn:E1
    end.
    cbn [snd] in H1.
    match goal with
    | |- context [showToast ?m ?ty ?d ?x] =>
        assert (H2 : well_timed (showToast m ty d x))
          by (apply well_timed_toast; now apply (well_timed_same st1));
        set (st2 := showToast m ty d x) in *
    end.
    pose proof (well_timed_set 3000 (NoResponse (lastReadingTime st)) st2 H2)
      as H3.
    destruct (set_timer 3000 (NoResponse (lastReadingTime st)) st2)
      as [t st3] eqn:E3.
    cbn [snd] in H3. now apply (well_timed_same st3).
  - now apply well_timed_stop.
  - apply well_timed_toast.
    apply (well_timed_same (stopMeasurement st)); [reflexivity..|].
    now apply well_timed_stop.
  - now apply (well_timed_same st).
  - unfold fire. destruct (find _ _) as [e|]; [|exact H].
    destruct (what e) as [|b|].
    + now apply (well_timed_same st).
    + pose proof (well_timed_clear (Some h) st H) as H1.
      destruct (measurementInterval (clear_timer (Some h) st)); [|exact H1].
      destruct (lastReadingTime (clear_timer (Some h) st) =? b)%Z;
        [|exact H1].
      eapply well_timed_same; [reflexivity|reflexivity|].
      now apply well_timed_toast.
    + now apply well_timed_clear.
  - apply well_timed_toast. now apply (well_timed_same st).
  - now apply (well_timed_same st).
  - apply well_timed_toast. now apply (well_timed_same st).
Qed.

Lemma well_timed_run (ins : list input) (st : state) :
  well_timed st -> well_timed (run ins st).
Proof.
  revert st. induction ins as [|i ins IH]; intros st H; [exact H|].
  cbn [run fold_left]. apply IH. now apply well_timed_step.
Qed.

Lemma well_timed_initial (container : bool) : well_timed (initial container).
Proof. split; constructor. Qed.

(** *** The timers of the polling *)

Lemma polling_cleared (h : option timer) (st : state) :
  filter of_polling (timers (clear_timer h st))
  = match h with
    | Some h =>
        filter (fun e => negb (handle e =? h)%positive)
          (filter of_polling (timers st))
    | None => filter of_polling (timers st)
    end.
Proof.
  destruct h as [h|]; [|reflexivity].
  cbn [clear_timer timers]. apply filter_filter_comm.
Qed.

Lemma stop_not_polling (st : state) :
  measurementInterval (stopMeasurement st) = None /\
  (accounted st -> filter of_polling (timers (stopMeasurement st)) = []).
Proof.
  unfold stopMeasurement, accounted.
  destruct (measurementInterval st) as [i|] eqn:Ei.
  - split; [reflexivity|]. intros (d & [Ht|(t & b & Hmt & Hne & Ht)]);
      cbn [appendLog set_measurementTimeout set_measurementInterval timers];
      rewrite polling_cleared;
      assert (Hmt' : measurementTimeout (clear_timer (Some i) st)
                     = measurementTimeout st) by reflexivity;
      rewrite Hmt'.
    + destruct (measurementTimeout st) as [t|];
        rewrite (polling_cleared (Some i)), Ht; cbn [filter handle];
        rewrite Pos.eqb_refl; reflexivity.
    + rewrite Hmt, (polling_cleared (Some i)), Ht. cbn [filter handle].
      rewrite Pos.eqb_refl. cbn [negb].
      destruct (t =? i)%positive; cbn [negb filter handle];
        rewrite ?Pos.eqb_refl; reflexivity.
  - split; [exact Ei|]. trivial.
Qed.

Lemma accounted_same (st st' : state) :
  measurementInterval st' = measurementInterval st ->
  measurementTimeout st' = measurementTimeout st ->
  filter of_polling (timers st') = filter of_polling (timers st) ->
  accounted st -> accounted st'.
Proof. unfold accounted. now intros -> -> ->. Qed.

Lemma accounted_toast (m : jsstring) (ty : string) (d : Z) (st : state) :
  accounted st -> accounted (showToast m ty d st).
Proof.
  destruct (showToast_frame m ty d st) as (H1 & H2 & _).
  apply accounted_same; [exact H1|exact H2|apply showToast_polling].
Qed.

Lemma accounted_not_polling (st : state) :
  measurementInterval st = None ->
  filter of_polling (timers st) = [] -> accounted st.
Proof. unfold accounted. now intros ->. Qed.

Lemma accounted_start (rate : option Z) (st : state) :
  accounted st -> accounted (startMeasurement rate st).
Proof.
  intros Hacc. unfold startMeasurement.
  destruct (measurementInterval st) as [i|] eqn:Ei; [exact Hacc|].
  unfold accounted in Hacc. rewrite Ei in Hacc.
  unfold set_timer at 1.
  match goal with
  | |- context [showToast ?m ?ty ?d ?x] =>
      pose proof (showToast_frame m ty d x) as (F1 & F2 & _ & _ & _ & _ & F7 & _);
      pose proof (showToast_polling m ty d x) as F8;
      set (st2 := showToast m ty d x) in *
  end.
  cbn [appendLog set_measurementInterval measurementInterval
       measurementTimeout timers next_handle] in F1, F2, F7, F8.
  rewrite filter_app, Hacc in F8. cbn [app filter of_polling what] in F8.
  unfold accounted, set_timer.
  cbn [set_measurementTimeout measurementInterval measurementTimeout timers].
  rewrite F1. eexists. right. exists (next_handle st2), (lastReadingTime st).
  split; [reflexivity|]. split; [lia|].
  rewrite filter_app, F8. reflexivity.
Qed.

Lemma accounted_fire (h : timer) (st : state) :
  well_timed st -> accounted st -> accounted (fire h st).
Proof.
  intros [_ Hnd] Hacc. unfold fire.
  destruct (find (fun e => (handle e =? h)%positive) (timers st))
    as [e|] eqn:Ef; [|exact Hacc].
  apply find_some in Ef as [Hin He]. apply Pos.eqb_eq in He.
  destruct (what e) as [|b|] eqn:Ew.
  - now apply (accounted_same st).
  - assert (Hpoll : In e (filter of_polling (timers st))).
    { apply filter_In. split; [exact Hin|]. unfold of_polling. now rewrite Ew. }
    assert (Hnd' : NoDup (map handle (filter of_polling (timers st))))
      by now apply NoDup_handles_filter.
    assert (Hcl : accounted (clear_timer (Some h) st) /\
                  measurementInterval (clear_timer (Some h) st)
                  = measurementInterval st).
    { split; [|reflexivity]. unfold accounted in *.
      cbn [clear_timer measurementInterval measurementTimeout].
      change (timers
                (State (measurementInterval st) (measurementTimeout st)
                   (lastReadingTime st)
                   (filter (fun e0 => negb (handle e0 =? h)%positive)
                      (timers st))
                   (next_handle st) (sent st) (logged st) (toastContainer st)
                   (toasts st)))
        with (timers (clear_timer (Some h) st)).
      rewrite (polling_cleared (Some h)).
      destruct (measurementInterval st) as [i|].
      - destruct Hacc as (d & [Ht|(t & b' & Hmt & Hne & Ht)]).
        + rewrite Ht in Hpoll. destruct Hpoll as [<-|[]]. discriminate Ew.
        + rewrite Ht in Hpoll, Hnd' |- *.
          destruct Hpoll as [<-|[<-|[]]]; [discriminate Ew|].
          cbn [handle] in He. subst h.
          exists d. left. cbn [filter handle]. rewrite Pos.eqb_refl.
          replace (i =? t)%positive with false; [reflexivity|].
          symmetry. apply Pos.eqb_neq. congruence.
      - rewrite Hacc in Hpoll. contradiction. }
    destruct Hcl as [Hcl Hmi].
    destruct (measurementInterval (clear_timer (Some h) st)); [|exact Hcl].
    destruct (lastReadingTime (clear_timer (Some h) st) =? b)%Z; [|exact Hcl].
    eapply accounted_same; [reflexivity|reflexivity|reflexivity|].
    now apply accounted_toast.
  - apply (accounted_same st); [reflexivity|reflexivity| |exact Hacc].
    rewrite (polling_cleared (Some h)).
    apply forallb_filter_id. apply forallb_forall. intros e' He'.
    apply filter_In in He' as [Hin' Hp'].
    apply negb_true_iff. apply Pos.eqb_neq. intros Heq.
    assert (e' = e) by (apply (handle_unique (timers st)); congruence).
    subst e'. unfold of_polling in Hp'. rewrite Ew in Hp'. discriminate.
Qed.

Lemma accounted_step (st : state) (i : input) :
  well_timed st -> accounted st -> accounted (step st i).
Proof.
  intros Hwt Hacc. destruct i as [rate| | |now|h| |m|m]; cbn [step].
  - now apply accounted_start.
  - destruct (stop_not_polling st) as [H1 H2].
    apply accounted_not_polling; [exact H1|exact (H2 Hacc)].
  - destruct (stop_not_polling st) as [H1 H2].
    apply accounted_toast.
    apply accounted_not_polling; [exact H1|exact (H2 Hacc)].
  - exact Hacc.
  - now apply accounted_fire.
  - apply accounted_toast. now apply (accounted_same st).
  - now apply (accounted_same st).
  - apply accounted_toast. now apply (accounted_same st).
Qed.

Lemma accounted_run (ins : list input) (st : state) :
  well_timed st -> accounted st -> accounted (run ins st).
Proof.
  revert st. induction ins as [|i ins IH]; intros st Hwt H; [exact H|].
  cbn [run fold_left]. apply IH; [now apply well_timed_step|].
  now apply accounted_step.
Qed.

(** X25.  Whatever has happened to the page, the timers of its polling are
    accounted for: no polling interval is left behind by a second start or by
    a stop.  While the page does not poll, no interval and no check is live,
    only dismissals of toasts can be, so that nothing the window runs sends a
    command, logs a message or starts the polling; and after a click on
    'stopMeasure' or a 'disconnected' event the page does not poll. *)
Theorem timers_are_accounted (container : bool) (ins : list input) :
  let st := run ins (initial container) in
  accounted st /\
  (measurementInterval st = None ->
   forall h,
     sent (fire h st) = sent st /\ logged (fire h st) = logged st /\
     toasts (fire h st) = toasts st /\
     measurementInterval (fire h st) = None) /\
  measurementInterval (step st StopClick) = None /\
  measurementInterval (step st Disconnected) = None.
Proof.
  intros st.
  assert (Hacc : accounted st)
    by (apply accounted_run; [apply well_timed_initial|reflexivity]).
  split; [exact Hacc|]. split; [|split].
  - intros Hnone h. unfold accounted in Hacc. rewrite Hnone in Hacc.
    unfold fire.
    destruct (find (fun e => (handle e =? h)%positive) (timers st))
      as [e|] eqn:Ef; [|now repeat split].
    apply find_some in Ef as [Hin _].
    destruct (what e) as [|b|] eqn:Ew.
    + exfalso. assert (H : In e (filter of_polling (timers st))).
      { apply filter_In. split; [exact Hin|]. unfold of_polling.
        now rewrite Ew. }
      now rewrite Hacc in H.
    + exfalso. assert (H : In e (filter of_polling (timers st))).
      { apply filter_In. split; [exact Hin|]. unfold of_polling.
        now rewrite Ew. }
      now rewrite Hacc in H.
    + now repeat split.
  - exact (proj1 (stop_not_polling st)).
  - cbn [step].
    destruct (showToast_frame (lit "Disconnected") "info" 4000
                (appendLog (lit "Disconnected") (stopMeasurement st)))
      as (-> & _).
    exact (proj1 (stop_not_polling st)).
Qed.

(** *** The warning that no reading has come *)

Lemma toast_lastReadingTime (m : jsstring) (ty : string) (d : Z) (st : state) :
  lastReadingTime (showToast m ty d st) = lastReadingTime st.
Proof. now destruct (showToast_frame m ty d st) as (_ & _ & -> & _). Qed.

Lemma step_lastReadingTime (st : state) (i : input) :
  is_reading_at i = false ->
  lastReadingTime (step st i) = lastReadingTime st.
Proof.
  destruct i as [rate| | |now|h| |m|m]; cbn [is_reading_at step];
    try discriminate; intros _.
  - unfold startMeasurement. destruct (measurementInterval st); [reflexivity|].
    unfold set_timer. cbn [set_measurementTimeout lastReadingTime].
    now rewrite toast_lastReadingTime.
  - unfold stopMeasurement.
    destruct (measurementInterval st); [|reflexivity].
    cbn. now destruct (measurementTimeout st).
  - rewrite toast_lastReadingTime. unfold stopMeasurement.
    destruct (measurementInterval st); [|reflexivity].
    cbn. now destruct (measurementTimeout st).
  - unfold fire. destruct (find _ _) as [e|]; [|reflexivity].
    destruct (what e) as [|b|]; [reflexivity| |reflexivity].
    destruct (measurementInterval (clear_timer (Some h) st)); [|reflexivity].
    destruct (lastReadingTime (clear_timer (Some h) st) =? b)%Z;
      [|reflexivity].
    cbn [appendLog lastReadingTime]. now rewrite toast_lastReadingTime.
  - now rewrite toast_lastReadingTime.
  - reflexivity.
  - now rewrite toast_lastReadingTime.
Qed.

Lemma run_keeps_reading_apart (b : Z) (mid : list input) (st : state) :
  (forall now, In (ReadingAt now) mid -> now <> b) ->
  lastReadingTime st <> b ->
  lastReadingTime (run mid st) <> b.
Proof.
  revert st. induction mid as [|i mid IH]; intros st Hall Hst; [exact Hst|].
  cbn [run fold_left]. apply IH.
  - intros now Hin. apply Hall. now right.
  - destruct (is_reading_at i) eqn:Ei.
    + destruct i; try discriminate. cbn [step lastReadingTime].
      apply Hall. now left.
    + now rewrite step_lastReadingTime.
Qed.

Lemma run_reading_apart (b : Z) (mid : list input) (st : state) :
  existsb is_reading_at mid = true ->
  (forall now, In (ReadingAt now) mid -> now <> b) ->
  lastReadingTime (run mid st) <> b.
Proof.
  revert st. induction mid as [|i mid IH]; intros st Hex Hall;
    [discriminate|].
  cbn [existsb] in Hex. cbn [run fold_left].
  destruct (is_reading_at i) eqn:Ei.
  - destruct i; try discriminate.
    apply run_keeps_reading_apart.
    + intros n Hin. apply Hall. now right.
    + cbn [step lastReadingTime]. apply Hall. now left.
  - apply IH; [exact Hex|]. intros n Hin. apply Hall. now right.
Qed.

Lemma check_of_fewer (t : timer) (b : Z) (st st' : state) :
  check_of t b st ->
  (next_handle st <= next_handle st')%positive ->
  (forall e, In e (timers st') -> In e (timers st)) ->
  check_of t b st'.
Proof.
  intros [Hlt Hall] Hnext Hsub. split; [lia|].
  intros e Hin. apply Hall. now apply Hsub.
Qed.

Lemma check_of_set (t : timer) (b : Z) (d : Z) (w : task) (st : state) :
  check_of t b st -> check_of t b (snd (set_timer d w st)).
Proof.
  intros [Hlt Hall]. unfold set_timer. split; [cbn; lia|].
  intros e. cbn [snd timers]. rewrite in_app_iff. cbn [In].
  intros [Hin|[<-|[]]]; cbn [handle]; intros E; [now apply Hall|lia].
Qed.

Lemma check_of_same (t : timer) (b : Z) (st st' : state) :
  timers st' = timers st -> next_handle st' = next_handle st ->
  check_of t b st -> check_of t b st'.
Proof. unfold check_of. now intros -> ->. Qed.

Lemma check_of_toast (t : timer) (b : Z) (m : jsstring) (ty : string) (d : Z)
  (st : state) :
  check_of t b st -> check_of t b (showToast m ty d st).
Proof.
  intros H. unfold showToast. destruct (toastContainer st); [|exact H].
  destruct (0 <? d)%Z.
  - apply check_of_set. now apply (check_of_same t b st).
  - now apply (check_of_same t b st).
Qed.

Lemma clear_timer_next (h : option timer) (st : state) :
  next_handle (clear_timer h st) = next_handle st.
Proof. now destruct h. Qed.

Lemma clear_timer_fewer (h : option timer) (st : state) (e : timer_entry) :
  In e (timers (clear_timer h st)) -> In e (timers st).
Proof.
  destruct h as [h|]; [|trivial].
  cbn [clear_timer timers]. rewrite filter_In. tauto.
Qed.

Lemma check_of_clear (t : timer) (b : Z) (h : option timer) (st : state) :
  check_of t b st -> check_of t b (clear_timer h st).
Proof.
  intros H. apply (check_of_fewer t b st); [exact H| |].
  - rewrite clear_timer_next. lia.
  - intros e. apply clear_timer_fewer.
Qed.

Lemma check_of_stop (t : timer) (b : Z) (st : state) :
  check_of t b st -> check_of t b (stopMeasurement st).
Proof.
  intros H. unfold stopMeasurement.
  destruct (measurementInterval st) as [i|]; [|exact H].
  eapply check_of_same; [reflexivity|reflexivity|].
  now do 2 apply check_of_clear.
Qed.

Lemma check_of_step (t : timer) (b : Z) (st : state) (i : input) :
  check_of t b st -> check_of t b (step st i).
Proof.
  intros H. destruct i as [rate| | |now|h| |m|m]; cbn [step].
  - unfold startMeasurement.
    destruct (measurementInterval st) as [i|]; [exact H|].
    match goal with
    | |- context [set_timer ?d Poll st] =>
        pose proof (check_of_set t b d Poll st H) as H1;
        destruct (set_timer d Poll st) as [i st1] eqn:E1
    end.
    cbn [snd] in H1.
    match goal with
    | |- context [showToast ?m ?ty ?d ?x] =>
        assert (H2 : check_of t b (showToast m ty d x))
          by (apply check_of_toast; now apply (check_of_same t b st1));
        set (st2 := showToast m ty d x) in *
    end.
    pose proof (check_of_set t b 3000 (NoResponse (lastReadingTime st)) st2 H2)
      as H3.
    destruct (set_timer 3000 (NoResponse (lastReadingTime st)) st2)
      as [t' st3] eqn:E3.
    cbn [snd] in H3. now apply (check_of_same t b st3).
  - now apply check_of_stop.
  - apply check_of_toast.
    apply (check_of_same t b (stopMeasurement st)); [reflexivity..|].
    now apply check_of_stop.
  - now apply (check_of_same t b st).
  - unfold fire. destruct (find _ _) as [e|]; [|exact H].
    destruct (what e) as [|b'|].
    + now apply (check_of_same t b st).
    + pose proof (check_of_clear t b (Some h) st H) as H1.
      destruct (measurementInterval (clear_timer (Some h) st)); [|exact H1].
      destruct (lastReadingTime (clear_timer (Some h) st) =? b')%Z;
        [|exact H1].
      eapply check_of_same; [reflexivity|reflexivity|].
      now apply check_of_toast.
    + now apply check_of_clear.
  - apply check_of_toast. now apply (check_of_same t b st).
  - now apply (check_of_same t b st).
  - apply check_of_toast. now apply (check_of_same t b st).
Qed.

Lemma check_of_run (t : timer) (b : Z) (ins : list input) (st : state) :
  check_of t b st -> check_of t b (run ins st).
Proof.
  revert st. induction ins as [|i ins IH]; intros st H; [exact H|].
  cbn [run fold_left]. apply IH. now apply check_of_step.
Qed.

Lemma unanswered_same (t0 : timer) (b : Z) (st st' : state) :
  measurementInterval st' = measurementInterval st ->
  lastReadingTime st' = lastReadingTime st ->
  timers st' = timers st ->
  unanswered t0 b st -> unanswered t0 b st'.
Proof. unfold unanswered. now intros -> -> ->. Qed.

Lemma unanswered_toast (t0 : timer) (b : Z) (m : jsstring) (ty : string)
  (d : Z) (st : state) :
  unanswered t0 b st -> unanswered t0 b (showToast m ty d st).
Proof.
  intros (Hi & Hl & Hf).
  destruct (showToast_frame m ty d st)
    as (F1 & _ & F3 & _ & _ & _ & _ & F8).
  unfold unanswered. rewrite F1, F3. repeat split; try assumption.
  destruct F8 as [->|[-> _]]; [exact Hf|].
  now rewrite find_handle_app, Hf.
Qed.

Lemma unanswered_clear (t0 h : timer) (b : Z) (st : state) :
  h <> t0 -> unanswered t0 b st -> unanswered t0 b (clear_timer (Some h) st).
Proof.
  intros Hne (Hi & Hl & Hf). unfold unanswered.
  cbn [clear_timer measurementInterval lastReadingTime timers].
  repeat split; try assumption. now rewrite find_handle_cleared.
Qed.

Lemma unanswered_step (t0 : timer) (b : Z) (st : state) (i : input) :
  idle_for t0 i = true ->
  unanswered t0 b st -> unanswered t0 b (step st i).
Proof.
  intros Hidle Hun.
  destruct i as [rate| | |now|h| |m|m]; cbn [idle_for] in Hidle;
    try discriminate; cbn [step].
  - unfold startMeasurement.
    destruct (measurementInterval st) eqn:E; [exact Hun|].
    destruct Hun as (Hi & _). congruence.
  - apply negb_true_iff in Hidle. apply Pos.eqb_neq in Hidle.
    unfold fire. destruct (find _ _) as [e|]; [|exact Hun].
    destruct (what e) as [|b'|].
    + now apply (unanswered_same t0 b st).
    + pose proof (unanswered_clear t0 h b st Hidle Hun) as H1.
      destruct (measurementInterval (clear_timer (Some h) st)); [|exact H1].
      destruct (lastReadingTime (clear_timer (Some h) st) =? b')%Z;
        [|exact H1].
      eapply unanswered_same; [reflexivity|reflexivity|reflexivity|].
      now apply unanswered_toast.
    + now apply unanswered_clear.
  - apply unanswered_toast. now apply (unanswered_same t0 b st).
  - now apply (unanswered_same t0 b st).
  - apply unanswered_toast. now apply (unanswered_same t0 b st).
Qed.

Lemma unanswered_run (t0 : timer) (b : Z) (mid : list input) (st : state) :
  forallb (idle_for t0) mid = true ->
  unanswered t0 b st -> unanswered t0 b (run mid st).
Proof.
  revert st. induction mid as [|i mid IH]; intros st Hidle H; [exact H|].
  cbn [forallb] in Hidle. apply andb_prop in Hidle as [Hi Hmid].
  cbn [run fold_left]. apply IH; [exact Hmid|]. now apply unanswered_step.
Qed.

(** What an effective start leaves: its timeout is live, is the check of this
    start, and nothing has answered yet. *)
Lemma started (rate : option Z) (st : state) :
  well_timed st -> measurementInterval st = None ->
  exists t,
    measurementTimeout (startMeasurement rate st) = Some t /\
    unanswered t (lastReadingTime st) (startMeasurement rate st) /\
    check_of t (lastReadingTime st) (startMeasurement rate st).
Proof.
  intros [Hlt Hnd] Hnone. unfold startMeasurement. rewrite Hnone.
  unfold set_timer. cbv beta iota zeta.
  match goal with
  | |- context [showToast ?m ?ty ?d ?x] =>
      pose proof (showToast_frame m ty d x)
        as (F1 & _ & F3 & _ & _ & _ & F7 & F8);
      remember (showToast m ty d x) as st2 eqn:Est2
  end.
  cbn [appendLog set_measurementInterval measurementInterval lastReadingTime
       timers next_handle] in F1, F3, F7, F8.
  cbn [set_measurementTimeout measurementTimeout].
  exists (next_handle st2). split; [reflexivity|].
  set (t := next_handle st2) in *. set (b := lastReadingTime st).
  assert (Hold : forall e, In e (timers st2) -> (handle e < t)%positive).
  { intros e He. destruct F8 as [E|[E E']]; rewrite E in He;
      rewrite !in_app_iff in He; cbn [In] in He.
    - destruct He as [He|[<-|[]]]; cbn [handle]; [|lia].
      rewrite Forall_forall in Hlt. specialize (Hlt e He). lia.
    - destruct He as [[He|[<-|[]]]|[<-|[]]]; cbn [handle]; [|lia..].
      rewrite Forall_forall in Hlt. specialize (Hlt e He). lia. }
  split.
  - unfold unanswered.
    cbn [measurementInterval lastReadingTime timers].
    rewrite F1, F3. split; [discriminate|]. split; [reflexivity|].
    cbn [set_measurementTimeout timers].
    rewrite find_handle_app.
    rewrite (find_handle_fresh t t (timers st2)).
    + cbn [find handle]. now rewrite Pos.eqb_refl.
    + apply Forall_forall. exact Hold.
    + lia.
  - unfold check_of. cbn [set_measurementTimeout next_handle timers].
    split; [lia|].
    intros e. rewrite in_app_iff. cbn [In].
    intros [He|[<-|[]]]; [|reflexivity].
    intros E. specialize (Hold e He). lia.
Qed.

(** X26.  The warning that no reading has come belongs to one start: it is
    logged when that start's timeout runs, if until then the page has gone on
    polling and no reading has come, whatever else was logged or shown; it is
    not logged if a reading has come in between, the clock having moved on
    since the reading before the start. *)
Theorem no_response_warning
  (container : bool) (ins mid : list input) (samplingRate : option Z) :
  let st0 := run ins (initial container) in
  let st1 := step st0 (StartClick samplingRate) in
  measurementInterval st0 = None ->
  exists t,
    measurementTimeout st1 = Some t /\
    (forallb (idle_for t) mid = true ->
     logged (step (run mid st1) (Fires t))
     = logged (run mid st1) ++ [NO_READINGS]) /\
    (existsb is_reading_at mid = true ->
     (forall now, In (ReadingAt now) mid -> now <> lastReadingTime st0) ->
     logged (step (run mid st1) (Fires t)) = logged (run mid st1)).
Proof.
  intros st0 st1 Hnone.
  assert (Hwt : well_timed st0)
    by (apply well_timed_run, well_timed_initial).
  destruct (started samplingRate st0 Hwt Hnone) as (t0 & Hmt & Hun & Hck).
  fold (step st0 (StartClick samplingRate)) in Hmt, Hun, Hck.
  fold st1 in Hmt, Hun, Hck.
  set (b := lastReadingTime st0) in *.
  exists t0. split; [exact Hmt|]. split.
  - intros Hidle.
    destruct (unanswered_run t0 b mid st1 Hidle Hun) as (Hi & Hl & Hf).
    cbn [step]. unfold fire. rewrite Hf. cbn [what].
    assert (E1 : measurementInterval (clear_timer (Some t0) (run mid st1))
                 = measurementInterval (run mid st1)) by reflexivity.
    assert (E2 : lastReadingTime (clear_timer (Some t0) (run mid st1)) = b)
      by exact Hl.
    rewrite E1, E2, Z.eqb_refl.
    destruct (measurementInterval (run mid st1)); [|contradiction].
    cbn [appendLog logged].
    now destruct (showToast_frame NO_RESPONSE "error" 6000
                    (clear_timer (Some t0) (run mid st1)))
      as (_ & _ & _ & _ & -> & _).
  - intros Hex Hall.
    pose proof (run_reading_apart b mid st1 Hex Hall) as Hlast.
    destruct (check_of_run t0 b mid st1 Hck) as [_ Hall'].
    cbn [step]. unfold fire.
    destruct (find (fun e => (handle e =? t0)%positive) (timers (run mid st1)))
      as [e|] eqn:Ef; [|reflexivity].
    apply find_some in Ef as [Hin He]. apply Pos.eqb_eq in He.
    rewrite (Hall' e Hin He). cbn [what].
    match goal with
    | |- context [measurementInterval ?x] => destruct (measurementInterval x)
    end; [|reflexivity].
    match goal with
    | |- context [(lastReadingTime ?x =? b)%Z] =>
        replace (lastReadingTime x =? b)%Z with false; [reflexivity|]
    end.
    symmetry. apply Z.eqb_neq. exact Hlast.
Qed.

End Polling.

Lemma no_response_warning_witness :
  exists t,
    measurementTimeout
      (step (host := sample_host)
         (run (host := sample_host) [] (initial true))
         (StartClick (Some 500%Z)))
    = Some t /\
    (forallb (idle_for t) [Fires 1%positive] = true ->
     logged (step (host := sample_host)
               (run (host := sample_host) [Fires 1%positive]
                  (step (host := sample_host)
                     (run (host := sample_host) [] (initial true))
                     (StartClick (Some 500%Z))))
               (Fires t))
     = logged (run (host := sample_host) [Fires 1%positive]
                 (step (host := sample_host)
                    (run (host := sample_host) [] (initial true))
                    (StartClick (Some 500%Z))))
         ++ [NO_READINGS]) /\
    (existsb is_reading_at [Fires 1%positive] = true ->
     (forall now, In (ReadingAt now) [Fires 1%positive] ->
                  now <> lastReadingTime
                           (run (host := sample_host) [] (initial true))) ->
     logged (step (host := sample_host)
               (run (host := sample_host) [Fires 1%positive]
                  (step (host := sample_host)
                     (run (host := sample_host) [] (initial true))
                     (StartClick (Some 500%Z))))
               (Fires t))
     = logged (run (host := sample_host) [Fires 1%positive]
                 (step (host := sample_host)
                    (run (host := sample_host) [] (initial true))
                    (StartClick (Some 500%Z))))).
Proof.
  exact (no_response_warning (host := sample_host) true [] [Fires 1%positive]
           (Some 500%Z) eq_refl).
Defined.

(** The page at work, with its toasts: a start, two ticks of the interval,
    the dismissal of the start's toast, then the timeout of the start; and the
    same with a reading in between. *)
Example polling_unanswered :
  let st := run (host := sample_host)
              [StartClick None; Fires 1; Fires 1; Fires 2; Fires 3]%positive
              (initial true) in
  sent st = [lit "SI"; lit "SI"] /\
  tl (logged st) = [NO_READINGS] /\
  map snd (toasts st) = ["info"; "error"]%string /\
  map handle (timers st) = [1; 4]%positive.
Proof. vm_compute. repeat split. Qed.

Example polling_answered :
  let st := run (host := sample_host)
              [StartClick None; Fires 1; ReadingAt 5; Fires 3; StopClick]%positive
              (initial true) in
  sent st = [lit "SI"] /\
  tl (logged st) = [lit "Measurement stopped"] /\
  map what (timers st) = [Dismiss].
Proof. vm_compute. repeat split. Qed.

End MeasurementFacts.
